(** * soleimani_et_al_2009: constitutive model, transport stabilisation checks,
      Picard loop and phase / time-step controller

    A shallow embedding of [soleimani_et_al_2009.cc].  A C++ [double] is a
    binary64 primitive [float] (IEEE 754, round to nearest even), so every
    definition below evaluates to the very value the program computes.  The
    functions of the C math library that have no counterpart among the
    primitive operations ([pow], [exp], [tanh]) are section variables.  A
    C++ [throw n] is the result [Throw n]. *)

From Stdlib Require Import ZArith Bool List String Lia Floats Zpower.
Import ListNotations.

Set Warnings "-inexact-float".

Local Open Scope string_scope.
Local Open Scope float_scope.

(** ** Results of code that may throw *)

Inductive result (A : Type) : Type :=
| Ok (a : A)
| Throw (code : Z).

Arguments Ok {A} a.
Arguments Throw {A} code.

Definition bind {A B : Type} (r : result A) (k : A -> result B) : result B :=
  match r with
  | Ok a => k a
  | Throw c => Throw c
  end.

Notation "x <- r ;; k" := (bind r (fun x => k))
  (at level 61, r at next level, right associativity).

(** ** Hydraulic_Properties (lines 66-342) *)

Module Hydraulic.

Record Hydraulic_Properties : Type := {
  type_of_hydraulic_properties : string;
  moisture_content_saturation : float;
  moisture_content_residual : float;
  hydraulic_conductivity_saturated : float;
  van_genuchten_alpha : float;
  van_genuchten_n : float;
  van_genuchten_m : float
}.

(** The constructor: [van_genuchten_m] is derived from [van_genuchten_n]. *)
Definition make (type_of_hydraulic_properties_ : string)
  (moisture_content_saturation_ moisture_content_residual_
   hydraulic_conductivity_saturated_ van_genuchten_alpha_
   van_genuchten_n_ : float) : Hydraulic_Properties :=
  {| type_of_hydraulic_properties := type_of_hydraulic_properties_;
     moisture_content_saturation := moisture_content_saturation_;
     moisture_content_residual := moisture_content_residual_;
     hydraulic_conductivity_saturated := hydraulic_conductivity_saturated_;
     van_genuchten_alpha := van_genuchten_alpha_;
     van_genuchten_n := van_genuchten_n_;
     van_genuchten_m := 1 - 1 / van_genuchten_n_ |}.

Definition haverkamp_et_al_1977 : string := "haverkamp_et_al_1977".
Definition van_genuchten_1980 : string := "van_genuchten_1980".

Section Libm.

(** [pow] and [exp] of <math.h>; [fabs] is the primitive [abs]. *)
Variable pow : float -> float -> float.
Variable exp : float -> float.

Variable hp : Hydraulic_Properties.

Let family := type_of_hydraulic_properties hp.
Let theta_s := moisture_content_saturation hp.
Let theta_r := moisture_content_residual hp.
Let K_s := hydraulic_conductivity_saturated hp.
Let vg_alpha := van_genuchten_alpha hp.
Let vg_n := van_genuchten_n hp.
Let vg_m := van_genuchten_m hp.

Definition get_specific_moisture_capacity (pressure_head : float) : result float :=
  if String.eqb family haverkamp_et_al_1977 then
    let alpha := 1.611E6 in
    let beta := 3.96 in
    Ok ((-1) * alpha * (theta_s - theta_r)
        * beta * pressure_head * pow (abs pressure_head) (beta - 2)
        / pow (alpha + pow (abs pressure_head) beta) 2)
  else if String.eqb family van_genuchten_1980 then
    let pressure_head := if 0 <=? pressure_head then -0.01 else pressure_head in
    Ok ((-1) * vg_alpha * vg_m * vg_n
        * (theta_s - theta_r)
        * pow (vg_alpha * abs pressure_head) (vg_n - 1)
        * pow (1 + pow (vg_alpha * abs pressure_head) vg_n) ((-1) * vg_m - 1)
        * pressure_head / abs pressure_head)
  else Throw (-1).

Definition get_effective_total_saturation (pressure_head : float) : result float :=
  if String.eqb family van_genuchten_1980 then
    Ok (if 0 <=? pressure_head then 1
        else 1 / pow (1 + pow (vg_alpha * abs pressure_head) vg_n) vg_m)
  else Throw (-1).

Definition get_actual_total_saturation (pressure_head : float) : result float :=
  s <- get_effective_total_saturation pressure_head ;;
  Ok (theta_r / theta_s + (1 - theta_r / theta_s) * s).

Definition get_effective_biomass_saturation
  (biomass_concentration biomass_dry_density : float) : float :=
  let actual_biomass_saturation := biomass_concentration / biomass_dry_density in
  let effective_biomass_saturation :=
    actual_biomass_saturation / (1 - theta_r / theta_s) in
  if 1 <? effective_biomass_saturation then 1 else effective_biomass_saturation.

Definition get_actual_biomass_saturation
  (biomass_concentration biomass_dry_density : float) : float :=
  get_effective_biomass_saturation biomass_concentration biomass_dry_density
  * (1 - theta_r / theta_s).

Definition get_effective_free_saturation
  (pressure_head biomass_concentration biomass_dry_density : float) : result float :=
  total <- get_effective_total_saturation pressure_head ;;
  let effective_free_saturation :=
    total - get_effective_biomass_saturation biomass_concentration biomass_dry_density in
  Ok (if effective_free_saturation <=? 0 then 0 else effective_free_saturation).

(** The four biofouling models of the van Genuchten branch.  The exponent
    [19/6] of the source is an integer division, hence 3. *)
Definition relative_permeability
  (effective_total_saturation effective_biomass_saturation
   biomass_concentration biomass_dry_density : float)
  (relative_permeability_model : string) : result float :=
  if String.eqb relative_permeability_model "soleimani" then
    Ok (pow effective_total_saturation 0.5
        * pow (pow (1 - pow effective_biomass_saturation (1 / vg_m)) vg_m
               - pow (1 - pow effective_total_saturation (1 / vg_m)) vg_m) 2)
  else if String.eqb relative_permeability_model "clement" then
    Ok (if biomass_concentration / biomass_dry_density <? 1
        then pow (1 - biomass_concentration / biomass_dry_density) 3
        else 0)
  else if String.eqb relative_permeability_model "okubo_and_matsumoto" then
    Ok (if biomass_concentration / biomass_dry_density <? 1
        then pow (1 - biomass_concentration / biomass_dry_density) 2
        else 0)
  else if String.eqb relative_permeability_model "vandevivere" then
    Ok (if biomass_concentration / biomass_dry_density <? 1
        then
          let plug_hydraulic_conductivity := 0.00025 in
          let critical_biovolume_fraction := 0.1 in
          let biovolume_fraction := biomass_concentration / biomass_dry_density in
          let phi :=
            exp (-0.5 * pow (biovolume_fraction / critical_biovolume_fraction) 2) in
          phi * pow (1 - biovolume_fraction) 2
          + (1 - phi) * plug_hydraulic_conductivity
            / (plug_hydraulic_conductivity
               + biovolume_fraction * (1 - plug_hydraulic_conductivity))
        else 0)
  else Throw (-1).

Definition get_hydraulic_conductivity
  (pressure_head biomass_concentration biomass_dry_density : float)
  (relative_permeability_model : string) : result float :=
  if String.eqb family haverkamp_et_al_1977 then
    let gamma := 4.74 in
    let A := 1.175E6 in
    Ok (K_s * A / (A + pow (abs pressure_head) gamma))
  else if String.eqb family van_genuchten_1980 then
    effective_total_saturation <- get_effective_total_saturation pressure_head ;;
    let effective_biomass_saturation :=
      get_effective_biomass_saturation biomass_concentration biomass_dry_density in
    let effective_total_saturation :=
      if effective_total_saturation <? effective_biomass_saturation
      then effective_biomass_saturation else effective_total_saturation in
    k_r <- relative_permeability effective_total_saturation effective_biomass_saturation
             biomass_concentration biomass_dry_density relative_permeability_model ;;
    Ok (K_s * k_r)
  else Throw (-1).

Definition get_moisture_content_total (pressure_head : float) : result float :=
  s <- get_effective_total_saturation pressure_head ;;
  Ok ((theta_s - theta_r) * s + theta_r).

Definition get_moisture_content_free
  (pressure_head biomass_concentration biomass_dry_density : float) : result float :=
  s <- get_effective_free_saturation pressure_head biomass_concentration
         biomass_dry_density ;;
  Ok ((theta_s - theta_r) * s + theta_r).

End Libm.

End Hydraulic.

(** ** assemble_system_transport: cell velocities and SUPG parameters
       (lines 1147-1238) *)

Module Transport.

(** deal.II's [Tensor<1,dim>]: the components, with the Euclidean [norm()],
    the componentwise [operator/=] and the assignment of a scalar. *)
Definition Tensor : Type := list float.

Definition norm_square (v : Tensor) : float :=
  fold_left (fun s x => s + x * x) v 0.

Definition norm (v : Tensor) : float := sqrt (norm_square v).

Definition tensor_div (v : Tensor) (d : float) : Tensor :=
  map (fun x => x / d) v.

Definition tensor_zero (v : Tensor) : Tensor := map (fun _ => 0) v.

(** What the finite-element service hands over for one cell: the two
    velocity sums and the volume [dV] accumulated over the quadrature points
    (lines 1153-1178), and [cell->diameter()]. *)
Record Cell : Type := {
  new_velocity_sum : Tensor;
  old_velocity_sum : Tensor;
  dV : float;
  diameter : float
}.

Record Stabilization : Type := {
  new_velocity : Tensor;
  old_velocity : Tensor;
  Peclet : float;
  beta : float;
  tau : float
}.

Section Assembly.

(** [tanh] of <math.h>. *)
Variable tanh : float -> float.

(** [parameters.dispersivity_longitudinal] and
    [parameters.effective_diffusion_coefficient]. *)
Variable dispersivity_longitudinal : float.
Variable effective_diffusion_coefficient : float.

(** Lines 1179-1180: the cell averages. *)
Definition new_velocity_average (c : Cell) : Tensor :=
  tensor_div (new_velocity_sum c) (dV c).

Definition old_velocity_average (c : Cell) : Tensor :=
  tensor_div (old_velocity_sum c) (dV c).

(** Lines 1181-1189: the start-up adjustment of the two averages. *)
Definition cell_velocities (c : Cell) : Tensor * Tensor :=
  let new_velocity := new_velocity_average c in
  let old_velocity := old_velocity_average c in
  let '(new_velocity, old_velocity) :=
    if norm new_velocity <? 1E-6
    then (tensor_zero new_velocity, tensor_zero old_velocity)
    else (new_velocity, old_velocity) in
  let old_velocity :=
    if (1E-6 <=? norm new_velocity) && (norm old_velocity <? 1E-6)
    then new_velocity else old_velocity in
  (new_velocity, old_velocity).

Definition new_diffusion_value (c : Cell) : float :=
  dispersivity_longitudinal * norm (fst (cell_velocities c))
  + effective_diffusion_coefficient.

Definition old_diffusion_value (c : Cell) : float :=
  dispersivity_longitudinal * norm (snd (cell_velocities c))
  + effective_diffusion_coefficient.

(** Lines 1208-1222: Peclet, beta and tau, all 0 unless the cell is
    advective. *)
Definition supg (c : Cell) : float * float * float :=
  let new_velocity := fst (cell_velocities c) in
  let old_velocity := snd (cell_velocities c) in
  if (1E-6 <=? norm new_velocity)
     && (1E-10 <? new_diffusion_value c)
     && (1E-10 <? old_diffusion_value c)
  then
    let Peclet :=
      0.5 * diameter c * (0.5 * norm new_velocity + 0.5 * norm old_velocity)
      / (0.5 * new_diffusion_value c + 0.5 * old_diffusion_value c) in
    let beta := 1 / tanh Peclet - 1 / Peclet in
    let tau :=
      0.5 * beta * diameter c
      / (0.5 * norm new_velocity + 0.5 * norm old_velocity) in
    (Peclet, beta, tau)
  else (0, 0, 0).

(** Lines 1190-1238: the five guarded [throw -1]. *)
Definition cell_stabilization (c : Cell) : result Stabilization :=
  let new_velocity := fst (cell_velocities c) in
  let old_velocity := snd (cell_velocities c) in
  if is_nan (norm new_velocity) || is_nan (norm old_velocity) then Throw (-1)
  else if negb (is_finite (norm new_velocity))
          || negb (is_finite (norm old_velocity)) then Throw (-1)
  else
    let '(Peclet, beta, tau) := supg c in
    if (Peclet <? 0) || (beta <? 0) || (tau <? 0) then Throw (-1)
    else if is_nan Peclet || is_nan beta || is_nan tau then Throw (-1)
    else if negb (is_finite Peclet) || negb (is_finite beta)
            || negb (is_finite tau) then Throw (-1)
    else Ok {| new_velocity := new_velocity; old_velocity := old_velocity;
               Peclet := Peclet; beta := beta; tau := tau |}.

(** The loop over the active cells: the first throwing cell aborts the
    assembly; otherwise every cell contributes with its stabilisation. *)
Fixpoint assemble_system_transport (cells : list Cell) : result (list Stabilization) :=
  match cells with
  | [] => Ok []
  | c :: rest =>
      s <- cell_stabilization c ;;
      l <- assemble_system_transport rest ;;
      Ok (s :: l)
  end.

(** The claim's words: a quantity is degenerate when it is not finite (NaN or
    infinite) or negative. *)
Definition degenerate (x : float) : bool :=
  is_nan x || is_infinity x || (x <? 0).

(** On the cell averages, as the claim has it. *)
Definition average_degenerate (c : Cell) : bool :=
  let '(Peclet, beta, tau) := supg c in
  degenerate (norm (new_velocity_average c))
  || degenerate (norm (old_velocity_average c))
  || degenerate Peclet || degenerate beta || degenerate tau.

(** On the velocities that the guards read. *)
Definition cell_degenerate (c : Cell) : bool :=
  let '(Peclet, beta, tau) := supg c in
  degenerate (norm (fst (cell_velocities c)))
  || degenerate (norm (snd (cell_velocities c)))
  || degenerate Peclet || degenerate beta || degenerate tau.

(** On the cell averages, the old one counting only next to a new velocity
    that is not below the threshold of the adjustment. *)
Definition moving_average_degenerate (c : Cell) : bool :=
  let '(Peclet, beta, tau) := supg c in
  degenerate (norm (new_velocity_average c))
  || (negb (norm (new_velocity_average c) <? 1E-6)
      && degenerate (norm (old_velocity_average c)))
  || degenerate Peclet || degenerate beta || degenerate tau.

Definition finite_nonneg (x : float) : bool :=
  is_finite x && (0 <=? x).

End Assembly.

End Transport.

(** ** Heat_Pipe: constructor and [run()] (lines 483-590 and 2390-2795) *)

Module Run.

(** [unsigned int] counters wrap at 2^32; their value converts exactly to a
    [double]. *)
Definition uint_max : Z := 4294967296%Z.

Definition uint_incr (n : Z) : Z := ((n + 1) mod uint_max)%Z.

Definition double_of_uint (n : Z) : float :=
  of_uint63 (Uint63.of_Z n).

(** The fields of [Parameters::AllParameters] (Parameters.h) that the
    constructor and [run()] read. *)
Record AllParameters : Type := {
  initial_state : string;
  param_time_step : float;
  timestep_number_max : Z;
  test_function_transport : bool;
  param_coupled_transport : bool;
  richards_bottom_fixed_value : float;
  domain_size : float;
  richards_fixed_at_top : bool;
  output_frequency_transport : float;
  initial_condition_homogeneous_bacteria : float;
  biomass_dry_density : float
}.

(** The members of [Heat_Pipe] that the controller reads or writes.  The
    finite-element vectors and matrices stay with the finite-element service,
    except the two biomass vectors that the transport transition seeds. *)
Record Heat_Pipe : Type := {
  timestep_number : Z;
  time : float;
  time_step : float;
  milestone_time : float;
  time_for_dry_conditions : float;
  time_for_saturated_conditions : float;
  solve_flow : bool;
  transient_drying : bool;
  transient_saturation : bool;
  transient_transport : bool;
  test_transport : bool;
  coupled_transport : bool;
  figure_count : Z;
  redefine_time_step : bool;
  flow_at_top : float;
  flow_at_bottom : float;
  nutrient_flow_at_top : float;
  nutrient_flow_at_bottom : float;
  nutrients_in_domain_previous : float;
  nutrients_in_domain_current : float;
  cumulative_flow_at_top : float;
  cumulative_flow_at_bottom : float;
  new_nodal_biomass_concentration : list float;
  new_nodal_biomass_fraction : list float
}.

(** Lines 544-575: the three phase flags from [initial_state]. *)
Definition initial_phase (initial_state : string) : result (bool * bool * bool) :=
  if String.eqb initial_state "default" || String.eqb initial_state "final"
  then Ok (true, false, false)
  else if String.eqb initial_state "dry" then Ok (false, true, false)
  else if String.eqb initial_state "saturated" then Ok (false, false, true)
  else if String.eqb initial_state "no_drying" then Ok (false, true, false)
  else Throw 1.

(** Lines 514-542: the members other than the phase; [n_dofs] sizes the two
    biomass vectors ([setup_system]). *)
Definition constructed (parameters : AllParameters) (n_dofs : nat)
  (phase : bool * bool * bool) : Heat_Pipe :=
  let '(drying, saturation, transport) := phase in
     {| timestep_number := 0;
        time := 0;
        time_step := param_time_step parameters;
        milestone_time := 0;
        time_for_dry_conditions := 0;
        time_for_saturated_conditions := 0;
        solve_flow := true;
        transient_drying := drying;
        transient_saturation := saturation;
        transient_transport := transport;
        test_transport := test_function_transport parameters;
        coupled_transport := param_coupled_transport parameters;
        figure_count := 0;
        redefine_time_step := false;
        flow_at_top := 0;
        flow_at_bottom := 0;
        nutrient_flow_at_top := 0;
        nutrient_flow_at_bottom := 0;
        nutrients_in_domain_previous := 0;
        nutrients_in_domain_current := 0;
        cumulative_flow_at_top := 0;
        cumulative_flow_at_bottom := 0;
        new_nodal_biomass_concentration := repeat 0 n_dofs;
        new_nodal_biomass_fraction := repeat 0 n_dofs |}.

(** The constructor. *)
Definition constructor (parameters : AllParameters) (n_dofs : nat) : result Heat_Pipe :=
  phase <- initial_phase (initial_state parameters) ;;
  Ok (constructed parameters n_dofs phase).

(** *** The Picard loop (lines 2405-2507) *)

(** What one pass of assembling and solving hands back: the squared norms of
    the flow iterates and of the transport solution, and the boundary flows
    the two assemblies accumulate. *)
Record Solve : Type := {
  flow_old_norm_sqr : float;
  flow_new_norm_sqr : float;
  transport_norm_sqr : float;
  solved_flow_at_top : float;
  solved_flow_at_bottom : float;
  solved_nutrient_flow_at_top : float;
  solved_nutrient_flow_at_bottom : float;
  solved_nutrients_in_domain : float
}.

(** The finite-element service during one time step: pass number [step] with
    the current step size either throws (an assembly or a solver gave up) or
    returns its [Solve]. *)
Definition Solver : Type := Z -> float -> result Solve.

(** The loop's locals together with the object. *)
Record Picard : Type := {
  this : Heat_Pipe;
  relative_error_flow : float;
  relative_error_transport : float;
  old_norm_flow : float;
  new_norm_flow : float;
  old_norm_transport : float;
  new_norm_transport : float;
  iteration : Z;
  step : Z;
  remain_in_loop : bool
}.

(** Lines 2405-2413. *)
Definition picard_init (hp : Heat_Pipe) : Picard :=
  {| this := hp;
     relative_error_flow := 1000;
     relative_error_transport := 0;
     old_norm_flow := 0;
     new_norm_flow := 0;
     old_norm_transport := 0;
     new_norm_transport := 0;
     iteration := 0;
     step := 0;
     remain_in_loop := true |}.

Definition set_time_step (hp : Heat_Pipe) (dt : float) : Heat_Pipe :=
  {| timestep_number := timestep_number hp;
     time := time hp;
     time_step := dt;
     milestone_time := milestone_time hp;
     time_for_dry_conditions := time_for_dry_conditions hp;
     time_for_saturated_conditions := time_for_saturated_conditions hp;
     solve_flow := solve_flow hp;
     transient_drying := transient_drying hp;
     transient_saturation := transient_saturation hp;
     transient_transport := transient_transport hp;
     test_transport := test_transport hp;
     coupled_transport := coupled_transport hp;
     figure_count := figure_count hp;
     redefine_time_step := redefine_time_step hp;
     flow_at_top := flow_at_top hp;
     flow_at_bottom := flow_at_bottom hp;
     nutrient_flow_at_top := nutrient_flow_at_top hp;
     nutrient_flow_at_bottom := nutrient_flow_at_bottom hp;
     nutrients_in_domain_previous := nutrients_in_domain_previous hp;
     nutrients_in_domain_current := nutrients_in_domain_current hp;
     cumulative_flow_at_top := cumulative_flow_at_top hp;
     cumulative_flow_at_bottom := cumulative_flow_at_bottom hp;
     new_nodal_biomass_concentration := new_nodal_biomass_concentration hp;
     new_nodal_biomass_fraction := new_nodal_biomass_fraction hp |}.

(** Lines 2416-2427: the restart after 40 passes of an active transport
    phase. *)
Definition stalled (p : Picard) : bool :=
  transient_transport (this p) && Z.eqb (iteration p) 40.

Definition restart (p : Picard) : Picard :=
  if stalled p then
    {| this := set_time_step (this p) (time_step (this p) / 2);
       relative_error_flow := 1000;
       relative_error_transport := 0;
       old_norm_flow := old_norm_flow p;
       new_norm_flow := new_norm_flow p;
       old_norm_transport := old_norm_transport p;
       new_norm_transport := new_norm_transport p;
       iteration := 0;
       step := step p;
       remain_in_loop := remain_in_loop p |}
  else p.

Definition flow_is_solved (hp : Heat_Pipe) : bool :=
  solve_flow hp && negb (test_transport hp).

Definition transport_is_solved (hp : Heat_Pipe) : bool :=
  (transient_transport hp || test_transport hp) && coupled_transport hp.

(** Lines 2431-2462: the boundary flows of the assemblies and the two error
    measures. *)
Definition record_solve (hp : Heat_Pipe) (s : Solve) : Heat_Pipe :=
  {| timestep_number := timestep_number hp;
     time := time hp;
     time_step := time_step hp;
     milestone_time := milestone_time hp;
     time_for_dry_conditions := time_for_dry_conditions hp;
     time_for_saturated_conditions := time_for_saturated_conditions hp;
     solve_flow := solve_flow hp;
     transient_drying := transient_drying hp;
     transient_saturation := transient_saturation hp;
     transient_transport := transient_transport hp;
     test_transport := test_transport hp;
     coupled_transport := coupled_transport hp;
     figure_count := figure_count hp;
     redefine_time_step := redefine_time_step hp;
     flow_at_top :=
       if flow_is_solved hp then solved_flow_at_top s else flow_at_top hp;
     flow_at_bottom :=
       if flow_is_solved hp then solved_flow_at_bottom s else flow_at_bottom hp;
     nutrient_flow_at_top :=
       if transport_is_solved hp then solved_nutrient_flow_at_top s
       else nutrient_flow_at_top hp;
     nutrient_flow_at_bottom :=
       if transport_is_solved hp then solved_nutrient_flow_at_bottom s
       else nutrient_flow_at_bottom hp;
     nutrients_in_domain_previous := nutrients_in_domain_previous hp;
     nutrients_in_domain_current :=
       if transport_is_solved hp then solved_nutrients_in_domain s
       else nutrients_in_domain_current hp;
     cumulative_flow_at_top := cumulative_flow_at_top hp;
     cumulative_flow_at_bottom := cumulative_flow_at_bottom hp;
     new_nodal_biomass_concentration := new_nodal_biomass_concentration hp;
     new_nodal_biomass_fraction := new_nodal_biomass_fraction hp |}.

(** Lines 2469-2480. *)
Definition leaves_loop (hp : Heat_Pipe) (error_flow error_transport : float)
  (iteration : Z) : bool :=
  if negb (test_transport hp)
  then (error_flow <? 1E-8) && (error_transport <=? 1E-3)
       && negb (Z.eqb iteration 0)
  else error_transport <? 1.5E-7.

(** One pass of the [do] body. *)
Definition picard_body (fe : Solver) (p0 : Picard) : result Picard :=
  let p := restart p0 in
  let hp := this p in
  s <- fe (step p) (time_step hp) ;;
  let old_norm_flow' :=
    if flow_is_solved hp then flow_old_norm_sqr s else old_norm_flow p in
  let new_norm_flow' :=
    if flow_is_solved hp then flow_new_norm_sqr s else new_norm_flow p in
  let relative_error_flow' :=
    if flow_is_solved hp then abs (1 - old_norm_flow' / new_norm_flow')
    else relative_error_flow p in
  let new_norm_transport' :=
    if transport_is_solved hp then transport_norm_sqr s else new_norm_transport p in
  let relative_error_transport' :=
    if transport_is_solved hp
    then 100 * abs (1 - abs (old_norm_transport p / new_norm_transport'))
    else relative_error_transport p in
  let old_norm_transport' :=
    if transport_is_solved hp then new_norm_transport' else old_norm_transport p in
  Ok {| this := record_solve hp s;
        relative_error_flow := relative_error_flow';
        relative_error_transport := relative_error_transport';
        old_norm_flow := old_norm_flow';
        new_norm_flow := new_norm_flow';
        old_norm_transport := old_norm_transport';
        new_norm_transport := new_norm_transport';
        iteration := uint_incr (iteration p);
        step := uint_incr (step p);
        remain_in_loop :=
          if leaves_loop hp relative_error_flow' relative_error_transport'
               (iteration p)
          then false else remain_in_loop p |}.

(** [do ... while (remain_in_loop)]: [None] when the fuel runs out first. *)
Fixpoint picard_loop (fuel : nat) (fe : Solver) (p : Picard) : option (result Picard) :=
  match fuel with
  | O => None
  | S fuel' =>
      match picard_body fe p with
      | Throw c => Some (Throw c)
      | Ok p' => if remain_in_loop p' then picard_loop fuel' fe p' else Some (Ok p')
      end
  end.


(** *** The rest of a time step (lines 2509-2778) *)

(** Lines 2509-2515. *)
Definition advance_time (hp : Heat_Pipe) : Heat_Pipe :=
  {| timestep_number := timestep_number hp;
     time := time hp + time_step hp;
     time_step := time_step hp;
     milestone_time := milestone_time hp;
     time_for_dry_conditions := time_for_dry_conditions hp;
     time_for_saturated_conditions := time_for_saturated_conditions hp;
     solve_flow := solve_flow hp;
     transient_drying := transient_drying hp;
     transient_saturation := transient_saturation hp;
     transient_transport := transient_transport hp;
     test_transport := test_transport hp;
     coupled_transport := coupled_transport hp;
     figure_count := figure_count hp;
     redefine_time_step := redefine_time_step hp;
     flow_at_top := flow_at_top hp;
     flow_at_bottom := flow_at_bottom hp;
     nutrient_flow_at_top := nutrient_flow_at_top hp;
     nutrient_flow_at_bottom := nutrient_flow_at_bottom hp;
     nutrients_in_domain_previous := nutrients_in_domain_current hp;
     nutrients_in_domain_current := nutrients_in_domain_current hp;
     cumulative_flow_at_top :=
       cumulative_flow_at_top hp + nutrient_flow_at_top hp * time_step hp;
     cumulative_flow_at_bottom :=
       cumulative_flow_at_bottom hp + nutrient_flow_at_bottom hp * time_step hp;
     new_nodal_biomass_concentration := new_nodal_biomass_concentration hp;
     new_nodal_biomass_fraction := new_nodal_biomass_fraction hp |}.

Section Controller.

Variable parameters : AllParameters.

(** Lines 2534-2541: the drying test on the top pressure that
    [VectorTools::point_value] returns. *)
Definition dry_conditions_reached (pressure_at_top : float) : bool :=
  let relative_tolerance_drying := 3.1E-4 in
  let relative_error_drying :=
    pressure_at_top
    / (richards_bottom_fixed_value parameters - domain_size parameters) in
  abs (1 - relative_error_drying) <? relative_tolerance_drying.

(** Lines 2522-2565. *)
Definition begin_saturation (pressure_at_top : float) (hp : Heat_Pipe) : Heat_Pipe :=
  if transient_drying hp && dry_conditions_reached pressure_at_top then
    {| timestep_number := timestep_number hp;
       time := time hp;
       time_step := time_step hp;
       milestone_time := time hp;
       time_for_dry_conditions := time hp;
       time_for_saturated_conditions := time_for_saturated_conditions hp;
       solve_flow := solve_flow hp;
       transient_drying := false;
       transient_saturation := true;
       transient_transport := transient_transport hp;
       test_transport := test_transport hp;
       coupled_transport := coupled_transport hp;
       figure_count := 0;
       redefine_time_step := true;
       flow_at_top := flow_at_top hp;
       flow_at_bottom := flow_at_bottom hp;
       nutrient_flow_at_top := nutrient_flow_at_top hp;
       nutrient_flow_at_bottom := nutrient_flow_at_bottom hp;
       nutrients_in_domain_previous := nutrients_in_domain_previous hp;
       nutrients_in_domain_current := nutrients_in_domain_current hp;
       cumulative_flow_at_top := cumulative_flow_at_top hp;
       cumulative_flow_at_bottom := cumulative_flow_at_bottom hp;
       new_nodal_biomass_concentration := new_nodal_biomass_concentration hp;
       new_nodal_biomass_fraction := new_nodal_biomass_fraction hp |}
  else hp.

(** Lines 2581-2601: the two saturation error measures and their test. *)
Definition relative_error_saturation (hp : Heat_Pipe) : float :=
  if richards_fixed_at_top parameters
  then abs (1 - abs (flow_at_top hp / flow_at_bottom hp))
  else 0.

Definition absolute_error_saturation (hp : Heat_Pipe) : float :=
  if richards_fixed_at_top parameters
  then abs (flow_at_top hp + flow_at_bottom hp)
  else 0.

Definition saturated_conditions_reached (hp : Heat_Pipe) : bool :=
  let relative_tolerance_saturation := 2E-2 in
  let absolute_tolerance_saturation := 3E-6 in
  (relative_error_saturation hp <? relative_tolerance_saturation)
  || (absolute_error_saturation hp <? absolute_tolerance_saturation).

(** Lines 2583-2635. *)
Definition begin_transport (hp : Heat_Pipe) : Heat_Pipe :=
  if transient_saturation hp && coupled_transport hp
     && saturated_conditions_reached hp then
    let seed := 1 / 1000 * initial_condition_homogeneous_bacteria parameters in
    {| timestep_number := timestep_number hp;
       time := time hp;
       time_step := time_step hp;
       milestone_time := time hp;
       time_for_dry_conditions := time_for_dry_conditions hp;
       time_for_saturated_conditions := time hp - milestone_time hp;
       solve_flow := solve_flow hp;
       transient_drying := transient_drying hp;
       transient_saturation := false;
       transient_transport := true;
       test_transport := test_transport hp;
       coupled_transport := coupled_transport hp;
       figure_count := 0;
       redefine_time_step := true;
       flow_at_top := flow_at_top hp;
       flow_at_bottom := flow_at_bottom hp;
       nutrient_flow_at_top := nutrient_flow_at_top hp;
       nutrient_flow_at_bottom := nutrient_flow_at_bottom hp;
       nutrients_in_domain_previous := nutrients_in_domain_previous hp;
       nutrients_in_domain_current := nutrients_in_domain_current hp;
       cumulative_flow_at_top := cumulative_flow_at_top hp;
       cumulative_flow_at_bottom := cumulative_flow_at_bottom hp;
       new_nodal_biomass_concentration :=
         map (fun _ => seed) (new_nodal_biomass_concentration hp);
       new_nodal_biomass_fraction :=
         map (fun _ => seed / biomass_dry_density parameters)
           (new_nodal_biomass_fraction hp) |}
  else hp.

(** Lines 2519-2715: both tests sit under [test_transport==false]. *)
Definition choose_period (pressure_at_top : float) (hp : Heat_Pipe) : Heat_Pipe :=
  if negb (test_transport hp)
  then begin_transport (begin_saturation pressure_at_top hp)
  else hp.

(** Lines 2719-2730: [output_results()] writes a file and the counter of
    figures advances. *)
Definition output_is_due (hp : Heat_Pipe) : bool :=
  let output_frequency_drying := 1 in
  let output_frequency_saturation := 1 in
  let elapsed := time hp - milestone_time hp in
  (transient_drying hp
   && (double_of_uint (figure_count hp) * output_frequency_drying <=? elapsed))
  || (transient_saturation hp
      && (double_of_uint (figure_count hp) * output_frequency_saturation <=? elapsed))
  || (transient_transport hp
      && negb (output_frequency_transport parameters =? 0)
      && (double_of_uint (figure_count hp) * output_frequency_transport parameters
          <=? elapsed))
  || Z.eqb (timestep_number hp) ((timestep_number_max parameters - 1) mod uint_max).

End Controller.

Definition set_figure_count (hp : Heat_Pipe) (n : Z) : Heat_Pipe :=
  {| timestep_number := timestep_number hp;
     time := time hp;
     time_step := time_step hp;
     milestone_time := milestone_time hp;
     time_for_dry_conditions := time_for_dry_conditions hp;
     time_for_saturated_conditions := time_for_saturated_conditions hp;
     solve_flow := solve_flow hp;
     transient_drying := transient_drying hp;
     transient_saturation := transient_saturation hp;
     transient_transport := transient_transport hp;
     test_transport := test_transport hp;
     coupled_transport := coupled_transport hp;
     figure_count := n;
     redefine_time_step := redefine_time_step hp;
     flow_at_top := flow_at_top hp;
     flow_at_bottom := flow_at_bottom hp;
     nutrient_flow_at_top := nutrient_flow_at_top hp;
     nutrient_flow_at_bottom := nutrient_flow_at_bottom hp;
     nutrients_in_domain_previous := nutrients_in_domain_previous hp;
     nutrients_in_domain_current := nutrients_in_domain_current hp;
     cumulative_flow_at_top := cumulative_flow_at_top hp;
     cumulative_flow_at_bottom := cumulative_flow_at_bottom hp;
     new_nodal_biomass_concentration := new_nodal_biomass_concentration hp;
     new_nodal_biomass_fraction := new_nodal_biomass_fraction hp |}.

Definition output_solution (parameters : AllParameters) (hp : Heat_Pipe) : Heat_Pipe :=
  if output_is_due parameters hp
  then set_figure_count hp (uint_incr (figure_count hp))
  else hp.

(** Lines 2736-2747: back to 1 after a transition, doubled after a fast
    loop. *)
Definition adapted_time_step (step : Z) (hp : Heat_Pipe) : float :=
  if redefine_time_step hp then 1
  else if Z.ltb step 15 then time_step hp * 2
  else time_step hp.

(** Lines 2749-2757: the bounds of the phase. *)
Definition clamped_time_step (hp : Heat_Pipe) (dt : float) : float :=
  let dt := if dt <? 1 then 1 else dt in
  if (1 <? dt) && transient_drying hp then 1
  else if (1 <? dt) && transient_saturation hp then 1
  else if (60 <? dt) && transient_transport hp then 60
  else dt.

(** Lines 2734-2758. *)
Definition update_timestep (step : Z) (hp : Heat_Pipe) : Heat_Pipe :=
  if negb (test_transport hp) then
    {| timestep_number := timestep_number hp;
       time := time hp;
       time_step := clamped_time_step hp (adapted_time_step step hp);
       milestone_time := milestone_time hp;
       time_for_dry_conditions := time_for_dry_conditions hp;
       time_for_saturated_conditions := time_for_saturated_conditions hp;
       solve_flow := solve_flow hp;
       transient_drying := transient_drying hp;
       transient_saturation := transient_saturation hp;
       transient_transport := transient_transport hp;
       test_transport := test_transport hp;
       coupled_transport := coupled_transport hp;
       figure_count := figure_count hp;
       redefine_time_step := false;
       flow_at_top := flow_at_top hp;
       flow_at_bottom := flow_at_bottom hp;
       nutrient_flow_at_top := nutrient_flow_at_top hp;
       nutrient_flow_at_bottom := nutrient_flow_at_bottom hp;
       nutrients_in_domain_previous := nutrients_in_domain_previous hp;
       nutrients_in_domain_current := nutrients_in_domain_current hp;
       cumulative_flow_at_top := cumulative_flow_at_top hp;
       cumulative_flow_at_bottom := cumulative_flow_at_bottom hp;
       new_nodal_biomass_concentration := new_nodal_biomass_concentration hp;
       new_nodal_biomass_fraction := new_nodal_biomass_fraction hp |}
  else hp.

Definition set_timestep_number (hp : Heat_Pipe) (n : Z) : Heat_Pipe :=
  {| timestep_number := n;
     time := time hp;
     time_step := time_step hp;
     milestone_time := milestone_time hp;
     time_for_dry_conditions := time_for_dry_conditions hp;
     time_for_saturated_conditions := time_for_saturated_conditions hp;
     solve_flow := solve_flow hp;
     transient_drying := transient_drying hp;
     transient_saturation := transient_saturation hp;
     transient_transport := transient_transport hp;
     test_transport := test_transport hp;
     coupled_transport := coupled_transport hp;
     figure_count := figure_count hp;
     redefine_time_step := redefine_time_step hp;
     flow_at_top := flow_at_top hp;
     flow_at_bottom := flow_at_bottom hp;
     nutrient_flow_at_top := nutrient_flow_at_top hp;
     nutrient_flow_at_bottom := nutrient_flow_at_bottom hp;
     nutrients_in_domain_previous := nutrients_in_domain_previous hp;
     nutrients_in_domain_current := nutrients_in_domain_current hp;
     cumulative_flow_at_top := cumulative_flow_at_top hp;
     cumulative_flow_at_bottom := cumulative_flow_at_bottom hp;
     new_nodal_biomass_concentration := new_nodal_biomass_concentration hp;
     new_nodal_biomass_fraction := new_nodal_biomass_fraction hp |}.

(** Everything after the Picard loop, up to the [++timestep_number] of the
    [for]: the time step is committed. *)
Definition commit_time_step (parameters : AllParameters) (pressure_at_top : float)
  (p : Picard) : Heat_Pipe :=
  let hp := advance_time (this p) in
  let hp := choose_period parameters pressure_at_top hp in
  let hp := output_solution parameters hp in
  let hp := update_timestep (step p) hp in
  set_timestep_number hp (uint_incr (timestep_number hp)).

(** One turn of the [for] of [run()]. *)
Definition time_step_once (parameters : AllParameters) (fuel : nat) (fe : Solver)
  (pressure_at_top : float) (hp : Heat_Pipe) : option (result Heat_Pipe) :=
  match picard_loop fuel fe (picard_init hp) with
  | None => None
  | Some (Throw c) => Some (Throw c)
  | Some (Ok p) => Some (Ok (commit_time_step parameters pressure_at_top p))
  end.

(** The states [run()] goes through at the head of its [for]: the object as
    constructed with [timestep_number=1], and whatever a committed time step
    leaves. *)
Inductive reachable (parameters : AllParameters) : Heat_Pipe -> Prop :=
| reachable_start n_dofs hp :
    constructor parameters n_dofs = Ok hp ->
    reachable parameters (set_timestep_number hp 1)
| reachable_step hp fuel fe pressure_at_top hp' :
    reachable parameters hp ->
    (timestep_number hp <? timestep_number_max parameters)%Z = true ->
    time_step_once parameters fuel fe pressure_at_top hp = Some (Ok hp') ->
    reachable parameters hp'.

(** The phase as one value, and its order. *)
Inductive Phase : Type := Drying | Saturation | Transporting.

Definition phase_rank (ph : Phase) : nat :=
  match ph with Drying => 0 | Saturation => 1 | Transporting => 2 end.

Definition phase_of (hp : Heat_Pipe) : option Phase :=
  match transient_drying hp, transient_saturation hp, transient_transport hp with
  | true, false, false => Some Drying
  | false, true, false => Some Saturation
  | false, false, true => Some Transporting
  | _, _, _ => None
  end.

End Run.

(** ** The count of the cells at a point ([read_grid], lines 812-827, and
       [refine_grid], lines 979-995) and [calculate_mass_balance_ratio]
       (lines 598-778) *)

Module MassBalance.

Definition Point : Type := list float.

(** [operator<] of [std::vector<double>], which is
    [std::lexicographical_compare]. *)
Fixpoint vector_less (a b : Point) : bool :=
  match a, b with
  | _, [] => false
  | [], _ :: _ => true
  | x :: a', y :: b' =>
      if x <? y then true else if y <? x then false else vector_less a' b'
  end.

(** The keys that a [std::map] takes for one and the same: neither is less
    than the other. *)
Definition same_point (a b : Point) : bool :=
  negb (vector_less a b) && negb (vector_less b a).

(** [std::map<std::vector<double>,unsigned int>] by its entries.  The
    coordinates of a grid are numbers, for which [operator<] is the strict
    weak order that the map needs.  The code looks a point up, inserts it
    with the count 1 and increments a count; it never walks the map, so the
    order of the entries is not observed. *)
Definition Repeated_Points : Type := list (Point * Z).

Fixpoint find (repeated_points : Repeated_Points) (point_wrapper : Point) : option Z :=
  match repeated_points with
  | [] => None
  | (q, n) :: rest => if same_point q point_wrapper then Some n else find rest point_wrapper
  end.

(** Lines 821-826: [it->second++] for a point of the map,
    [repeated_points[point_wrapper]=1] for a new one. *)
Fixpoint count_point (repeated_points : Repeated_Points) (point_wrapper : Point)
  : Repeated_Points :=
  match repeated_points with
  | [] => [(point_wrapper, 1%Z)]
  | (q, n) :: rest =>
      if same_point q point_wrapper then (q, Run.uint_incr n) :: rest
      else (q, n) :: count_point rest point_wrapper
  end.

(** An active cell by its vertices, in the order of [cell->vertex(i)], each
    with its [local_dof_indices[i]] ([fe(1)]: one degree of freedom per
    vertex). *)
Record Vertex : Type := {
  vertex_point : Point;
  dof_index : nat
}.

Definition Active_Cell : Type := list Vertex.

Definition count_cell (repeated_points : Repeated_Points) (cell : Active_Cell)
  : Repeated_Points :=
  fold_left (fun m v => count_point m (vertex_point v)) cell repeated_points.

(** The loop over the active cells of [read_grid] (on the empty map of a new
    object) and of [refine_grid] (after [repeated_points.clear()]). *)
Definition count_points (cells : list Active_Cell) : Repeated_Points :=
  fold_left count_cell cells [].

(** deal.II's [Vector<double>]: [reinit(n)] fills with zeros; an index
    handed out by the [DoFHandler] is below [n_dofs()], and the model reads
    0 and writes nothing elsewhere. *)
Definition Vector : Type := list float.

Definition reinit (n : nat) : Vector := repeat 0 n.

Definition value_at (v : Vector) (i : nat) : float := nth i v 0.

Fixpoint add_at (i : nat) (x : float) (v : Vector) : Vector :=
  match v, i with
  | [], _ => []
  | y :: rest, O => (y + x) :: rest
  | y :: rest, S i' => y :: add_at i' x rest
  end.

(** The fields of [Parameters::AllParameters] that the function reads. *)
Record Parameters : Type := {
  hydraulic_properties : string;
  moisture_content_saturation : float;
  moisture_content_residual : float;
  saturated_hydraulic_conductivity : float;
  van_genuchten_alpha : float;
  van_genuchten_n : float;
  biomass_dry_density : float;
  relative_permeability_model : string;
  yield_coefficient : float;
  maximum_substrate_use_rate : float;
  half_velocity_constant : float;
  decay_rate : float
}.

(** The vectors of the object that the function reads. *)
Record Solutions : Type := {
  solution_flow_old_iteration : Vector;
  old_solution_flow : Vector;
  old_solution_transport : Vector;
  old_nodal_biomass_concentration : Vector
}.

(** The six vectors that it fills. *)
Record Nodal : Type := {
  new_nodal_biomass_concentration : Vector;
  new_nodal_biomass_fraction : Vector;
  new_nodal_hydraulic_conductivity : Vector;
  new_nodal_total_moisture_content : Vector;
  new_nodal_free_moisture_content : Vector;
  new_nodal_specific_moisture_capacity : Vector
}.

(** The entries [i] of the six cell vectors. *)
Record Local : Type := {
  cell_biomass_concentration : float;
  cell_biomass_fraction : float;
  cell_hydraulic_conductivity : float;
  cell_total_moisture_content : float;
  cell_free_moisture_content : float;
  cell_moisture_capacity : float
}.

Section Libm.

Variable pow : float -> float -> float.
Variable exp : float -> float.

Variable parameters : Parameters.
Variable transient_drying : bool.
Variable time_step : float.
Variable repeated_points : Repeated_Points.
Variable solutions : Solutions.

(** Lines 661-705: the properties of the cell, with [factor=1.]. *)
Definition cell_hydraulic_properties : Hydraulic.Hydraulic_Properties :=
  let factor := 1 in
  Hydraulic.make (hydraulic_properties parameters)
    (moisture_content_saturation parameters)
    (moisture_content_residual parameters)
    (saturated_hydraulic_conductivity parameters * factor)
    (van_genuchten_alpha parameters)
    (van_genuchten_n parameters).

(** Lines 725-746: the biomass grows on the substrate of the previous time
    step, a negative substrate counting as none; nothing grows while the
    column dries.  The cell vectors are 0 when the cell is entered. *)
Definition grown_biomass (weight : float) (v : Vertex) : result (float * float) :=
  if negb transient_drying then
    let old_transport_value := value_at (old_solution_transport solutions) (dof_index v) in
    let old_biomass_concentration :=
      value_at (old_nodal_biomass_concentration solutions) (dof_index v) in
    let old_substrate := if 0 <? old_transport_value then old_transport_value else 0 in
    effective_saturation_free <-
      Hydraulic.get_effective_free_saturation pow cell_hydraulic_properties
        (value_at (old_solution_flow solutions) (dof_index v))
        old_biomass_concentration (biomass_dry_density parameters) ;;
    let concentration :=
      0 + weight * old_biomass_concentration
          * exp ((yield_coefficient parameters * maximum_substrate_use_rate parameters
                  * effective_saturation_free * old_substrate
                  / (effective_saturation_free * old_substrate
                     + half_velocity_constant parameters / 1000)
                  - decay_rate parameters) * time_step) in
    Ok (concentration, 0 + weight * concentration / biomass_dry_density parameters)
  else Ok (0, 0).

(** Lines 706-765: one vertex of a cell. *)
Definition vertex_values (v : Vertex) : result Local :=
  match find repeated_points (vertex_point v) with
  | None => Throw (-1)
  | Some count =>
      let weight := 1 / Run.double_of_uint count in
      let pressure := value_at (solution_flow_old_iteration solutions) (dof_index v) in
      biomass <- grown_biomass weight v ;;
      conductivity <-
        Hydraulic.get_hydraulic_conductivity pow exp cell_hydraulic_properties pressure
          (fst biomass) (biomass_dry_density parameters)
          (relative_permeability_model parameters) ;;
      total <- Hydraulic.get_moisture_content_total pow cell_hydraulic_properties pressure ;;
      free <-
        Hydraulic.get_moisture_content_free pow cell_hydraulic_properties pressure
          (fst biomass) (biomass_dry_density parameters) ;;
      capacity <-
        Hydraulic.get_specific_moisture_capacity pow cell_hydraulic_properties pressure ;;
      Ok {| cell_biomass_concentration := fst biomass;
            cell_biomass_fraction := snd biomass;
            cell_hydraulic_conductivity := 0 + weight * conductivity;
            cell_total_moisture_content := 0 + weight * total;
            cell_free_moisture_content := 0 + weight * free;
            cell_moisture_capacity := 0 + weight * capacity |}
  end.

Fixpoint cell_values (cell : Active_Cell) : result (list Local) :=
  match cell with
  | [] => Ok []
  | v :: rest =>
      l <- vertex_values v ;;
      ls <- cell_values rest ;;
      Ok (l :: ls)
  end.

(** Lines 767-776: the cell vectors are added to the nodal ones. *)
Definition scatter_vertex (nodal : Nodal) (entry : Vertex * Local) : Nodal :=
  let '(v, l) := entry in
  let i := dof_index v in
  {| new_nodal_biomass_concentration :=
       add_at i (cell_biomass_concentration l) (new_nodal_biomass_concentration nodal);
     new_nodal_biomass_fraction :=
       add_at i (cell_biomass_fraction l) (new_nodal_biomass_fraction nodal);
     new_nodal_hydraulic_conductivity :=
       add_at i (cell_hydraulic_conductivity l) (new_nodal_hydraulic_conductivity nodal);
     new_nodal_total_moisture_content :=
       add_at i (cell_total_moisture_content l) (new_nodal_total_moisture_content nodal);
     new_nodal_free_moisture_content :=
       add_at i (cell_free_moisture_content l) (new_nodal_free_moisture_content nodal);
     new_nodal_specific_moisture_capacity :=
       add_at i (cell_moisture_capacity l)
         (new_nodal_specific_moisture_capacity nodal) |}.

Definition scatter (cell : Active_Cell) (locals : list Local) (nodal : Nodal) : Nodal :=
  fold_left scatter_vertex (combine cell locals) nodal.

(** The loop over the active cells. *)
Fixpoint mass_balance_cells (cells : list Active_Cell) (nodal : Nodal)
  : result Nodal :=
  match cells with
  | [] => Ok nodal
  | cell :: rest =>
      locals <- cell_values cell ;;
      mass_balance_cells rest (scatter cell locals nodal)
  end.

Definition calculate_mass_balance_ratio (n_dofs : nat) (cells : list Active_Cell)
  : result Nodal :=
  mass_balance_cells cells
    {| new_nodal_biomass_concentration := reinit n_dofs;
       new_nodal_biomass_fraction := reinit n_dofs;
       new_nodal_hydraulic_conductivity := reinit n_dofs;
       new_nodal_total_moisture_content := reinit n_dofs;
       new_nodal_free_moisture_content := reinit n_dofs;
       new_nodal_specific_moisture_capacity := reinit n_dofs |}.

End Libm.

End MassBalance.

(** ** [initial_condition] (lines 2206-2388) *)

Module InitialCondition.

Import MassBalance.

(** The vectors of the object that [initial_condition] sets; before it,
    [setup_system] has sized every one of them with [reinit(n_dofs)]. *)
Record State : Type := {
  old_solution_flow : Vector;
  solution_flow_new_iteration : Vector;
  solution_flow_old_iteration : Vector;
  old_solution_transport : Vector;
  solution_transport : Vector;
  old_nodal_biomass_concentration : Vector;
  old_nodal_biomass_fraction : Vector;
  old_nodal_total_moisture_content : Vector;
  old_nodal_free_moisture_content : Vector;
  old_nodal_hydraulic_conductivity : Vector;
  old_nodal_specific_moisture_capacity : Vector;
  new_nodal : Nodal
}.

Section Services.

Variable pow : float -> float -> float.
Variable exp : float -> float.

(** [std::ifstream] and [Vector::block_read]: the vector that the file of
    this name holds, when the file opens.  [file.close()] closes it, so
    [throw 3] is not reached. *)
Variable files : string -> option Vector.

(** [VectorTools::project] of a constant function onto the grid. *)
Variable project : float -> Vector.

Variable parameters : Parameters.
Variable initial_state : string.
Variable initial_condition_homogeneous_flow : float.
Variable initial_condition_homogeneous_transport : float.
Variable transient_drying : bool.
Variable time_step : float.
Variable repeated_points : Repeated_Points.
Variable n_dofs : nat.
Variable cells : list Active_Cell.

Definition block_read (filename : string) : result Vector :=
  match files filename with
  | Some v => Ok v
  | None => Throw 2
  end.

(** Lines 2248-2290, 2291-2333 and 2334-2376: the three files of a stored
    state. *)
Definition stored_state (name : string) : result State :=
  pressure <- block_read ("state_" ++ name ++ "_pressure.ph") ;;
  substrate <- block_read ("state_" ++ name ++ "_substrate.ph") ;;
  bacteria <- block_read ("state_" ++ name ++ "_bacteria.ph") ;;
  Ok {| old_solution_flow := pressure;
        solution_flow_new_iteration := pressure;
        solution_flow_old_iteration := pressure;
        old_solution_transport := substrate;
        solution_transport := substrate;
        old_nodal_biomass_concentration := bacteria;
        old_nodal_biomass_fraction := reinit n_dofs;
        old_nodal_total_moisture_content := reinit n_dofs;
        old_nodal_free_moisture_content := reinit n_dofs;
        old_nodal_hydraulic_conductivity := reinit n_dofs;
        old_nodal_specific_moisture_capacity := reinit n_dofs;
        new_nodal :=
          {| new_nodal_biomass_concentration := bacteria;
             new_nodal_biomass_fraction := reinit n_dofs;
             new_nodal_hydraulic_conductivity := reinit n_dofs;
             new_nodal_total_moisture_content := reinit n_dofs;
             new_nodal_free_moisture_content := reinit n_dofs;
             new_nodal_specific_moisture_capacity := reinit n_dofs |} |}.

(** Lines 2212-2247: a homogeneous head and substrate, no biomass, and the
    nodal vectors of [calculate_mass_balance_ratio]. *)
Definition homogeneous_state : result State :=
  let pressure := project initial_condition_homogeneous_flow in
  let substrate := project (initial_condition_homogeneous_transport / 1000) in
  let no_biomass := reinit n_dofs in
  nodal <-
    calculate_mass_balance_ratio pow exp parameters transient_drying time_step
      repeated_points
      {| MassBalance.solution_flow_old_iteration := pressure;
         MassBalance.old_solution_flow := pressure;
         MassBalance.old_solution_transport := substrate;
         MassBalance.old_nodal_biomass_concentration := no_biomass |}
      n_dofs cells ;;
  Ok {| old_solution_flow := pressure;
        solution_flow_new_iteration := pressure;
        solution_flow_old_iteration := pressure;
        old_solution_transport := substrate;
        solution_transport := substrate;
        old_nodal_biomass_concentration := no_biomass;
        old_nodal_biomass_fraction := new_nodal_biomass_fraction nodal;
        old_nodal_total_moisture_content := new_nodal_total_moisture_content nodal;
        old_nodal_free_moisture_content := new_nodal_free_moisture_content nodal;
        old_nodal_hydraulic_conductivity := new_nodal_hydraulic_conductivity nodal;
        old_nodal_specific_moisture_capacity :=
          new_nodal_specific_moisture_capacity nodal;
        new_nodal := nodal |}.

Definition initial_condition : result State :=
  if String.eqb initial_state "default" || String.eqb initial_state "no_drying"
  then homogeneous_state
  else if String.eqb initial_state "dry" then stored_state "dry"
  else if String.eqb initial_state "saturated" then stored_state "saturated"
  else if String.eqb initial_state "final" then stored_state "final"
  else Throw 1.

End Services.

End InitialCondition.

(** ** The [for] of [run()] (lines 2397-2778) *)

Module RunLoop.

Import Run.




End RunLoop.

(** ** The effective hydraulic conductivity that [run()] reports (lines
       2644-2656) *)

Module Report.

(** The sum of [1./(K[i]*K.size())] over the nodes. *)
Definition inverse_conductivity_sum (new_nodal_hydraulic_conductivity : list float) : float :=
  fold_left
    (fun effective_hydraulic_conductivity k =>
       effective_hydraulic_conductivity
       + 1 / (k * Run.double_of_uint
                    (Z.of_nat (List.length new_nodal_hydraulic_conductivity))))
    new_nodal_hydraulic_conductivity 0.

(** The row that a time step with output adds to
    [average_hydraulic_conductivity_vector]:
    its number, the hours since the milestone and the harmonic mean of the
    nodal conductivities. *)
Definition average_hydraulic_conductivity_vector_row (hp : Run.Heat_Pipe)
  (new_nodal_hydraulic_conductivity : list float) : list float :=
  [ Run.double_of_uint (Run.timestep_number hp);
    (Run.time hp - Run.milestone_time hp) / 3600;
    1 / inverse_conductivity_sum new_nodal_hydraulic_conductivity ].

End Report.

(** ** Binary64 arithmetic

    The primitive operations are specified by [SpecFloat]'s functions on
    [spec_float] ([FloatAxioms]).  What the proofs below need from them is
    the sign and the magnitude of a rounded quotient and of a rounded
    difference; the magnitude of [m * 2^e] is its number of binary digits
    plus [e]. *)

Module Binary64.

Local Open Scope Z_scope.

Lemma digits2_pos_size p : digits2_pos p = Pos.size p.
Proof. induction p; simpl; congruence. Qed.

Lemma Zdigits2_bounds p :
  2 ^ (Zpos (digits2_pos p) - 1) <= Zpos p < 2 ^ Zpos (digits2_pos p).
Proof.
  rewrite digits2_pos_size. split.
  - pose proof (Pos.size_le p) as H.
    assert (2 ^ Z.pos (Pos.size p) <= Z.pos p~0).
    { rewrite <- Pos2Z.inj_pow. exact H. }
    replace (Z.pos (Pos.size p)) with (Z.succ (Z.pos (Pos.size p) - 1)) in H0 by lia.
    rewrite Z.pow_succ_r in H0 by lia. lia.
  - pose proof (Pos.size_gt p) as H. rewrite <- Pos2Z.inj_pow. exact H.
Qed.

(** *** The number of binary digits *)

Lemma Zdigits2_nonneg m : 0 <= Zdigits2 m.
Proof. destruct m; simpl; lia. Qed.

Lemma Zdigits2_pos_bounds m : 0 < m -> 2 ^ (Zdigits2 m - 1) <= m < 2 ^ Zdigits2 m.
Proof. destruct m; try lia. intros _. apply Zdigits2_bounds. Qed.

Lemma Zdigits2_unique m d : 0 < d -> 2 ^ (d - 1) <= m < 2 ^ d -> Zdigits2 m = d.
Proof.
  intros Hd [Hl Hu].
  assert (0 < m) by (pose proof (Z.pow_pos_nonneg 2 (d-1)); lia).
  destruct (Zdigits2_pos_bounds _ H) as [Hl' Hu'].
  pose proof (Zdigits2_nonneg m).
  destruct (Z.lt_trichotomy (Zdigits2 m) d) as [Hlt|[Heq|Hgt]]; trivial.
  - assert (2 ^ Zdigits2 m <= 2 ^ (d - 1)) by (apply Z.pow_le_mono_r; lia). lia.
  - assert (2 ^ d <= 2 ^ (Zdigits2 m - 1)) by (apply Z.pow_le_mono_r; lia). lia.
Qed.

Lemma Zdigits2_le m k : 0 <= m -> 0 <= k -> m < 2 ^ k -> Zdigits2 m <= k.
Proof.
  intros Hm0 Hk Hm. destruct (Z_lt_le_dec 0 m) as [Hp|Hn].
  - destruct (Zdigits2_pos_bounds _ Hp) as [Hl _].
    destruct (Z_le_gt_dec (Zdigits2 m) k); trivial.
    assert (2 ^ k <= 2 ^ (Zdigits2 m - 1)) by (apply Z.pow_le_mono_r; lia). lia.
  - assert (m = 0) by lia. subst m. simpl. lia.
Qed.

Lemma Zdigits2_ge m k : 0 <= k -> 2 ^ k <= m -> k + 1 <= Zdigits2 m.
Proof.
  intros Hk Hm.
  assert (0 < m) by (pose proof (Z.pow_pos_nonneg 2 k); lia).
  destruct (Zdigits2_pos_bounds _ H) as [_ Hu].
  destruct (Z_le_gt_dec (k + 1) (Zdigits2 m)); trivial.
  assert (2 ^ Zdigits2 m <= 2 ^ k) by (apply Z.pow_le_mono_r; pose proof (Zdigits2_nonneg m); lia). lia.
Qed.

Lemma Zdigits2_mono m m' : 0 <= m <= m' -> Zdigits2 m <= Zdigits2 m'.
Proof.
  intros [H0 Hle]. destruct (Z.eq_dec m 0) as [->|Hn]; [apply Zdigits2_nonneg|].
  assert (Hm : 0 < m) by lia. assert (Hm' : 0 < m') by lia.
  destruct (Zdigits2_pos_bounds _ Hm) as [Hl _].
  assert (0 < Zdigits2 m) by (destruct m; simpl; lia).
  pose proof (Zdigits2_ge m' (Zdigits2 m - 1)). lia.
Qed.

(** *** Shifting right *)

Lemma Zdigits2_div_pow2 m k : 0 <= m -> 0 <= k ->
  Zdigits2 (m / 2 ^ k) = Z.max 0 (Zdigits2 m - k).
Proof.
  intros Hm Hk. destruct (Z.eq_dec m 0) as [->|Hn].
  { rewrite Z.div_0_l by (apply Z.pow_nonzero; lia). simpl. lia. }
  assert (Hp : 0 < m) by lia.
  destruct (Zdigits2_pos_bounds _ Hp) as [Hl Hu].
  assert (Hd : 0 < Zdigits2 m) by (destruct m; simpl; lia).
  assert (H2k : 0 < 2 ^ k) by (apply Z.pow_pos_nonneg; lia).
  destruct (Z_lt_le_dec k (Zdigits2 m)) as [Hlt|Hge].
  - rewrite Z.max_r by lia. apply Zdigits2_unique; [lia|]. split.
    + apply Z.div_le_lower_bound; [lia|].
      rewrite <- Z.pow_add_r by lia. replace (k + (Zdigits2 m - k - 1)) with (Zdigits2 m - 1) by lia. exact Hl.
    + apply Z.div_lt_upper_bound; [lia|].
      rewrite <- Z.pow_add_r by lia. replace (k + (Zdigits2 m - k)) with (Zdigits2 m) by lia. exact Hu.
  - rewrite Z.max_l by lia.
    rewrite Z.div_small; [reflexivity|]. split; [lia|].
    assert (2 ^ Zdigits2 m <= 2 ^ k) by (apply Z.pow_le_mono_r; lia). lia.
Qed.

Abbreviation fexp64 := (fexp prec emax).

Lemma fexp64_eq z : fexp64 z = Z.max (z - 53) (-1074).
Proof. reflexivity. Qed.

Lemma shr_1_m r : 0 <= shr_m r -> shr_m (shr_1 r) = shr_m r / 2.
Proof.
  destruct r as [m rb sb]. simpl. intros Hm.
  destruct m as [|[p|p|]|p]; simpl; try reflexivity; try lia.
  - rewrite Pos2Z.inj_xI. apply Z.div_unique with (r := 1); lia.
  - rewrite Pos2Z.inj_xO. apply Z.div_unique with (r := 0); lia.
Qed.

Lemma iter_shr_1_m p : forall r, 0 <= shr_m r ->
  shr_m (iter_pos shr_1 p r) = shr_m r / 2 ^ Zpos p.
Proof.
  induction p as [p IH|p IH|]; intros r Hr; simpl iter_pos.
  - assert (H1 : 0 <= shr_m (shr_1 r)) by (rewrite shr_1_m by trivial; apply Z.div_pos; lia).
    assert (H2 : 0 <= shr_m (iter_pos shr_1 p (shr_1 r))).
    { rewrite IH by trivial. apply Z.div_pos; [trivial|]. apply Z.pow_pos_nonneg; lia. }
    rewrite IH by trivial. rewrite IH by trivial. rewrite shr_1_m by trivial.
    rewrite !Z.div_div by (try apply Z.pow_pos_nonneg; lia).
    f_equal. rewrite Pos2Z.inj_xI.
    replace (2 * Z.pos p + 1) with (1 + Z.pos p + Z.pos p) by lia.
    rewrite !Z.pow_add_r by lia. rewrite Z.pow_1_r. ring.
  - assert (H2 : 0 <= shr_m (iter_pos shr_1 p r)).
    { rewrite IH by trivial. apply Z.div_pos; [trivial|]. apply Z.pow_pos_nonneg; lia. }
    rewrite IH by trivial. rewrite IH by trivial.
    rewrite !Z.div_div by (try apply Z.pow_pos_nonneg; lia).
    f_equal. rewrite (Pos2Z.inj_xO p).
    replace (2 * Z.pos p) with (Z.pos p + Z.pos p) by lia.
    rewrite Z.pow_add_r by lia. ring.
  - rewrite shr_1_m by trivial. reflexivity.
Qed.

Lemma shr_record_of_loc_m m l : shr_m (shr_record_of_loc m l) = m.
Proof. destruct l as [|[| |]]; reflexivity. Qed.

(** The mantissa and exponent that [shr_fexp] leaves. *)
Definition shift_of (m e : Z) : Z := Z.max 0 (fexp64 (Zdigits2 m + e) - e).

Lemma shr_fexp_spec m e l : 0 <= m ->
  shr_m (fst (shr_fexp prec emax m e l)) = m / 2 ^ shift_of m e
  /\ snd (shr_fexp prec emax m e l) = e + shift_of m e.
Proof.
  intros Hm. unfold shr_fexp, shr, shift_of.
  destruct (fexp64 (Zdigits2 m + e) - e) as [|n|n] eqn:E; simpl fst; simpl snd.
  - rewrite shr_record_of_loc_m, Z.max_l by lia. rewrite Z.pow_0_r, Z.div_1_r. lia.
  - rewrite iter_shr_1_m by (rewrite shr_record_of_loc_m; trivial).
    rewrite shr_record_of_loc_m, Z.max_r by lia. lia.
  - rewrite shr_record_of_loc_m, Z.max_l by lia. rewrite Z.pow_0_r, Z.div_1_r. lia.
Qed.

Lemma round_nearest_even_bounds m l :
  m <= round_nearest_even m l <= m + 1.
Proof. destruct l as [|[| |]]; simpl; try lia. destruct (Z.even m); lia. Qed.

(** *** The round bit *)

Definition rounds_up (l : location) : bool :=
  match l with
  | loc_Inexact Eq | loc_Inexact Gt => true
  | _ => false
  end.

Lemma round_nearest_even_up m l :
  round_nearest_even m l = m + 1 -> rounds_up l = true.
Proof. destruct l as [|[| |]]; simpl; intros; try lia; trivial. Qed.

Lemma loc_of_shr_record_up r : rounds_up (loc_of_shr_record r) = shr_r r.
Proof. destruct r as [m [|] [|]]; reflexivity. Qed.

Lemma shr_record_of_loc_r m l : shr_r (shr_record_of_loc m l) = rounds_up l.
Proof. destruct l as [|[| |]]; reflexivity. Qed.

Lemma shr_1_r r : 0 <= shr_m r -> shr_r (shr_1 r) = Z.odd (shr_m r).
Proof.
  destruct r as [m rb sb]. simpl. intros Hm.
  destruct m as [|[p|p|]|p]; simpl; try reflexivity; lia.
Qed.

Lemma iter_shr_1_r p : forall r, 0 <= shr_m r ->
  shr_r (iter_pos shr_1 p r) = Z.odd (shr_m r / 2 ^ (Zpos p - 1)).
Proof.
  induction p as [p IH|p IH|]; intros r Hr; simpl iter_pos.
  - assert (H1 : 0 <= shr_m (shr_1 r)) by (rewrite shr_1_m by trivial; apply Z.div_pos; lia).
    assert (H2 : 0 <= shr_m (iter_pos shr_1 p (shr_1 r))).
    { rewrite iter_shr_1_m by trivial. apply Z.div_pos; [trivial|]. apply Z.pow_pos_nonneg; lia. }
    rewrite IH by trivial. rewrite iter_shr_1_m by trivial. rewrite shr_1_m by trivial.
    rewrite !Z.div_div by (try apply Z.pow_pos_nonneg; lia).
    f_equal. f_equal. rewrite Pos2Z.inj_xI.
    replace (2 * Z.pos p + 1 - 1) with (1 + Z.pos p + (Z.pos p - 1)) by lia.
    rewrite !Z.pow_add_r by lia. rewrite Z.pow_1_r. ring.
  - assert (H2 : 0 <= shr_m (iter_pos shr_1 p r)).
    { rewrite iter_shr_1_m by trivial. apply Z.div_pos; [trivial|]. apply Z.pow_pos_nonneg; lia. }
    rewrite IH by trivial. rewrite iter_shr_1_m by trivial.
    rewrite !Z.div_div by (try apply Z.pow_pos_nonneg; lia).
    f_equal. f_equal. rewrite (Pos2Z.inj_xO p).
    replace (2 * Z.pos p - 1) with (Z.pos p + (Z.pos p - 1)) by lia.
    rewrite Z.pow_add_r by lia. ring.
  - rewrite shr_1_r by trivial. change (2 ^ (1 - 1)) with 1. rewrite Z.div_1_r. reflexivity.
Qed.

(** The round bit that [shr_fexp] leaves. *)
Definition round_bit (m e : Z) (l : location) : bool :=
  if 0 <? shift_of m e then Z.odd (m / 2 ^ (shift_of m e - 1)) else rounds_up l.

Lemma shr_fexp_round_bit m e l : 0 <= m ->
  shr_r (fst (shr_fexp prec emax m e l)) = round_bit m e l.
Proof.
  intros Hm. unfold shr_fexp, shr, round_bit, shift_of.
  destruct (fexp64 (Zdigits2 m + e) - e) as [|n|n] eqn:E; simpl fst.
  - rewrite Z.max_l by lia. simpl. apply shr_record_of_loc_r.
  - rewrite iter_shr_1_r by (rewrite shr_record_of_loc_m; trivial).
    rewrite shr_record_of_loc_m, Z.max_r by lia. reflexivity.
  - rewrite Z.max_l by lia. simpl. apply shr_record_of_loc_r.
Qed.

(** [binary_round_aux] rounds up only when the round bit is set. *)
Lemma binary_round_aux_round s m e l : 0 <= m ->
  exists m1, m / 2 ^ shift_of m e <= m1 <= m / 2 ^ shift_of m e + 1 /\
  (m1 = m / 2 ^ shift_of m e + 1 -> round_bit m e l = true) /\
  let e0 := e + shift_of m e in
  let m2 := m1 / 2 ^ shift_of m1 e0 in
  let e2 := e0 + shift_of m1 e0 in
  binary_round_aux prec emax s m e l =
  match m2 with
  | Z0 => S754_zero s
  | Zpos p => if e2 <=? 971 then S754_finite s p e2 else S754_infinity s
  | Zneg _ => S754_nan
  end.
Proof.
  intros Hm. unfold binary_round_aux.
  destruct (shr_fexp_spec m e l Hm) as [H1 H2].
  pose proof (shr_fexp_round_bit m e l Hm) as Hr.
  destruct (shr_fexp prec emax m e l) as [mrs' e'] eqn:E1.
  simpl fst in H1, Hr. simpl snd in H2.
  set (m1 := round_nearest_even (shr_m mrs') (loc_of_shr_record mrs')).
  assert (Hb : shr_m mrs' <= m1 <= shr_m mrs' + 1) by apply round_nearest_even_bounds.
  exists m1. rewrite <- H1. split; [exact Hb|]. split.
  { intros Hup. rewrite <- Hr, <- loc_of_shr_record_up.
    apply (round_nearest_even_up (shr_m mrs')). exact Hup. }
  assert (Hm1 : 0 <= m1).
  { rewrite H1 in Hb. assert (0 <= m / 2 ^ shift_of m e).
    { apply Z.div_pos; [trivial|]. apply Z.pow_pos_nonneg; unfold shift_of; lia. } lia. }
  destruct (shr_fexp_spec m1 e' loc_Exact Hm1) as [H3 H4].
  destruct (shr_fexp prec emax m1 e' loc_Exact) as [mrs'' e''] eqn:E2. simpl fst in H3. simpl snd in H4.
  cbv zeta. rewrite <- H2, <- H3, <- H4. reflexivity.
Qed.

(** [binary_round_aux] as a function of the rounded mantissa. *)
Lemma binary_round_aux_spec s m e l : 0 <= m ->
  exists m1, m / 2 ^ shift_of m e <= m1 <= m / 2 ^ shift_of m e + 1 /\
  let e0 := e + shift_of m e in
  let m2 := m1 / 2 ^ shift_of m1 e0 in
  let e2 := e0 + shift_of m1 e0 in
  binary_round_aux prec emax s m e l =
  match m2 with
  | Z0 => S754_zero s
  | Zpos p => if e2 <=? 971 then S754_finite s p e2 else S754_infinity s
  | Zneg _ => S754_nan
  end.
Proof.
  intros Hm. destruct (binary_round_aux_round s m e l Hm) as (m1 & Hb & _ & H).
  exists m1. split; [exact Hb|exact H].
Qed.

Lemma Zdigits2_zero_iff m : 0 <= m -> (Zdigits2 m = 0 <-> m = 0).
Proof. destruct m; simpl; intros; split; intros; try lia; try discriminate; reflexivity. Qed.

Lemma Zdigits2_mul_pow2 m k : 0 < m -> 0 <= k -> Zdigits2 (m * 2 ^ k) = Zdigits2 m + k.
Proof.
  intros Hm Hk. destruct (Zdigits2_pos_bounds m Hm) as [Hl Hu].
  assert (Hd : 0 < Zdigits2 m) by (destruct m; simpl; lia).
  assert (H2k : 0 < 2 ^ k) by (apply Z.pow_pos_nonneg; lia).
  apply Zdigits2_unique; [lia|]. split.
  - replace (Zdigits2 m + k - 1) with (Zdigits2 m - 1 + k) by lia.
    rewrite Z.pow_add_r by lia. apply Z.mul_le_mono_nonneg_r; lia.
  - rewrite Z.pow_add_r by lia. apply Z.mul_lt_mono_pos_r; lia.
Qed.

Lemma Zdigits2_succ m : 0 <= m ->
  Zdigits2 (m + 1) = Zdigits2 m
  \/ (Zdigits2 (m + 1) = Zdigits2 m + 1 /\ m + 1 = 2 ^ Zdigits2 m).
Proof.
  intros Hm. destruct (Z.eq_dec m 0) as [->|Hn]; [right; split; reflexivity|].
  assert (Hp : 0 < m) by lia.
  destruct (Zdigits2_pos_bounds m Hp) as [Hl Hu].
  assert (Hd : 0 < Zdigits2 m) by (destruct m; simpl; lia).
  destruct (Z.eq_dec (m + 1) (2 ^ Zdigits2 m)) as [He|Hne].
  - right. split; [|exact He]. apply Zdigits2_unique; [lia|].
    replace (Zdigits2 m + 1 - 1) with (Zdigits2 m) by lia. split; [lia|].
    rewrite Z.pow_add_r by lia. lia.
  - left. apply Zdigits2_unique; [lia|]. lia.
Qed.

(** The first shift keeps the magnitude unless the number underflows. *)
Lemma shift_of_nonneg m e : 0 <= shift_of m e.
Proof. unfold shift_of. lia. Qed.

Lemma shift_keeps m e : 0 < m -> -1073 <= Zdigits2 m + e ->
  0 < m / 2 ^ shift_of m e
  /\ Zdigits2 (m / 2 ^ shift_of m e) + (e + shift_of m e) = Zdigits2 m + e.
Proof.
  intros Hm HK.
  assert (Hd : 0 < Zdigits2 m) by (destruct m; simpl; lia).
  assert (Hs : shift_of m e < Zdigits2 m).
  { unfold shift_of. rewrite fexp64_eq. lia. }
  pose proof (shift_of_nonneg m e) as Hs0.
  pose proof (Zdigits2_div_pow2 m (shift_of m e) (Z.lt_le_incl _ _ Hm) Hs0) as Hdig.
  rewrite Z.max_r in Hdig by lia.
  split; [|lia].
  assert (Hq : 0 <= m / 2 ^ shift_of m e).
  { apply Z.div_pos; [lia|]. apply Z.pow_pos_nonneg; lia. }
  destruct (Z.eq_dec (m / 2 ^ shift_of m e) 0) as [E|E]; [|lia].
  rewrite E in Hdig. simpl in Hdig. lia.
Qed.

Lemma shift_positive m e : 0 <= m -> 0 < m / 2 ^ shift_of m e ->
  Zdigits2 (m / 2 ^ shift_of m e) + (e + shift_of m e) = Zdigits2 m + e
  /\ shift_of m e < Zdigits2 m.
Proof.
  intros Hm Hq. pose proof (shift_of_nonneg m e) as Hs0.
  pose proof (Zdigits2_div_pow2 m (shift_of m e) Hm Hs0) as Hdig.
  assert (0 < Zdigits2 (m / 2 ^ shift_of m e)).
  { destruct (m / 2 ^ shift_of m e); simpl; lia. }
  lia.
Qed.

Lemma shift_bound m e : 0 <= m ->
  Zdigits2 (m / 2 ^ shift_of m e) + (e + shift_of m e) <= Z.max (Zdigits2 m + e) (-1074).
Proof.
  intros Hm. pose proof (shift_of_nonneg m e) as Hs0.
  pose proof (Zdigits2_div_pow2 m (shift_of m e) Hm Hs0) as Hdig.
  pose proof (Zdigits2_nonneg m).
  unfold shift_of in *. rewrite fexp64_eq in *. lia.
Qed.

Definition mag (m : positive) (e : Z) : Z := Zpos (digits2_pos m) + e.

Definition pow2_mantissa (m : positive) : Prop := Zpos m = 2 ^ (Zpos (digits2_pos m) - 1).

(** The result of rounding a non-negative mantissa carries the sign given. *)
Lemma binary_round_aux_shape s m e l : 0 <= m ->
  binary_round_aux prec emax s m e l = S754_zero s
  \/ binary_round_aux prec emax s m e l = S754_infinity s
  \/ exists m2 e2, binary_round_aux prec emax s m e l = S754_finite s m2 e2.
Proof.
  intros Hm. destruct (binary_round_aux_spec s m e l Hm) as (m1 & Hb & ->).
  assert (H0 : 0 <= m / 2 ^ shift_of m e).
  { apply Z.div_pos; [lia|]. apply Z.pow_pos_nonneg; [lia|apply shift_of_nonneg]. }
  assert (H2 : 0 <= m1 / 2 ^ shift_of m1 (e + shift_of m e)).
  { apply Z.div_pos; [lia|]. apply Z.pow_pos_nonneg; [lia|apply shift_of_nonneg]. }
  destruct (m1 / 2 ^ shift_of m1 (e + shift_of m e)) as [|p|p]; [auto| |lia].
  destruct (_ <=? 971); eauto.
Qed.

(** Rounding never lowers the magnitude of a number that does not underflow. *)
Lemma binary_round_aux_lower s m e l : 0 < m -> -1073 <= Zdigits2 m + e ->
  binary_round_aux prec emax s m e l = S754_infinity s
  \/ exists m2 e2, binary_round_aux prec emax s m e l = S754_finite s m2 e2
                   /\ Zdigits2 m + e <= mag m2 e2.
Proof.
  intros Hm HK. destruct (binary_round_aux_spec s m e l (Z.lt_le_incl _ _ Hm)) as (m1 & Hb & ->).
  destruct (shift_keeps m e Hm HK) as [Hq0 Hmag0].
  set (m0 := m / 2 ^ shift_of m e) in *. set (e0 := e + shift_of m e) in *.
  assert (Hm1 : 0 < m1) by lia.
  assert (Hd1 : Zdigits2 m0 <= Zdigits2 m1) by (apply Zdigits2_mono; lia).
  destruct (shift_keeps m1 e0 Hm1 ltac:(lia)) as [Hq2 Hmag2].
  destruct (m1 / 2 ^ shift_of m1 e0) as [|p|p] eqn:E; try lia.
  destruct (_ <=? 971); [right|left; reflexivity].
  exists p, (e0 + shift_of m1 e0). split; [reflexivity|]. unfold mag.
  change (Zdigits2 (Z.pos p)) with (Z.pos (digits2_pos p)) in Hmag2. lia.
Qed.

(** A number below 1 rounds to at most 1, and to 1 only from the largest
    mantissa below 1, with the round bit set. *)
Lemma binary_round_aux_upper_round s m e l : 0 <= m -> Zdigits2 m + e <= 0 ->
  binary_round_aux prec emax s m e l = S754_zero s
  \/ exists m2 e2, binary_round_aux prec emax s m e l = S754_finite s m2 e2
                   /\ (mag m2 e2 <= 0
                       \/ (mag m2 e2 = 1 /\ pow2_mantissa m2
                           /\ round_bit m e l = true
                           /\ m / 2 ^ shift_of m e + 1 = 2 ^ (- (e + shift_of m e)))).
Proof.
  intros Hm HK.
  destruct (binary_round_aux_round s m e l Hm) as (m1 & Hb & Hup & ->).
  pose proof (shift_bound m e Hm) as HB0.
  set (m0 := m / 2 ^ shift_of m e) in *. set (e0 := e + shift_of m e) in *.
  assert (Hm0 : 0 <= m0).
  { apply Z.div_pos; [lia|]. apply Z.pow_pos_nonneg; [lia|apply shift_of_nonneg]. }
  assert (Hm1 : 0 <= m1) by lia.
  assert (Hd1 : Zdigits2 m1 = Zdigits2 m0
                \/ (Zdigits2 m1 = Zdigits2 m0 + 1 /\ m1 = 2 ^ Zdigits2 m0 /\ m1 = m0 + 1)).
  { destruct (Z.eq_dec m1 m0) as [->|Hne]; [left; reflexivity|].
    assert (E1 : m1 = m0 + 1) by lia. rewrite E1.
    destruct (Zdigits2_succ m0 Hm0) as [H|[H H']]; [left; exact H|right].
    split; [exact H|]. split; [exact H'|reflexivity]. }
  assert (Hq2 : 0 <= m1 / 2 ^ shift_of m1 e0).
  { apply Z.div_pos; [lia|]. apply Z.pow_pos_nonneg; [lia|apply shift_of_nonneg]. }
  destruct (m1 / 2 ^ shift_of m1 e0) as [|p|p] eqn:E; [left; reflexivity| |lia].
  destruct (shift_positive m1 e0 Hm1 ltac:(lia)) as [Hmag2 Hs2].
  rewrite E in Hmag2. change (Zdigits2 (Z.pos p)) with (Z.pos (digits2_pos p)) in Hmag2.
  assert (He2 : (e0 + shift_of m1 e0 <=? 971) = true) by (apply Z.leb_le; lia).
  rewrite He2. right. exists p, (e0 + shift_of m1 e0). split; [reflexivity|].
  unfold mag, pow2_mantissa.
  destruct Hd1 as [Hd1|(Hd1 & Hp & Hs)]; [left; lia|].
  destruct (Z_le_gt_dec (Z.pos (digits2_pos p) + (e0 + shift_of m1 e0)) 0) as [Hle|Hgt];
    [left; exact Hle|right].
  pose proof (Zdigits2_nonneg m0) as Hd0.
  split; [lia|]. split; [|split; [apply Hup; exact Hs|]].
  - pose proof (shift_of_nonneg m1 e0).
    remember (shift_of m1 e0) as sh. rewrite <- E, Hp.
    rewrite <- Z.pow_sub_r by lia. f_equal. lia.
  - rewrite <- Hs, Hp. f_equal. lia.
Qed.

(** A number below 1 rounds to at most 1. *)
Lemma binary_round_aux_upper s m e l : 0 <= m -> Zdigits2 m + e <= 0 ->
  binary_round_aux prec emax s m e l = S754_zero s
  \/ exists m2 e2, binary_round_aux prec emax s m e l = S754_finite s m2 e2
                   /\ (mag m2 e2 <= 0 \/ (mag m2 e2 = 1 /\ pow2_mantissa m2)).
Proof.
  intros Hm HK.
  destruct (binary_round_aux_upper_round s m e l Hm HK) as [H|(m2 & e2 & H & Hmag)];
    [left; exact H|right].
  exists m2, e2. split; [exact H|].
  destruct Hmag as [Hle|(H1 & Hp & _)]; [left; exact Hle|right; split; assumption].
Qed.

(** It rounds below 1 when that one case is excluded. *)
Lemma binary_round_aux_below_one s m e l : 0 <= m -> Zdigits2 m + e <= 0 ->
  (round_bit m e l = true ->
   m / 2 ^ shift_of m e + 1 = 2 ^ (- (e + shift_of m e)) -> False) ->
  binary_round_aux prec emax s m e l = S754_zero s
  \/ exists m2 e2, binary_round_aux prec emax s m e l = S754_finite s m2 e2
                   /\ mag m2 e2 <= 0.
Proof.
  intros Hm HK Hno.
  destruct (binary_round_aux_upper_round s m e l Hm HK) as [H|(m2 & e2 & H & Hmag)];
    [left; exact H|right].
  exists m2, e2. split; [exact H|].
  destruct Hmag as [Hle|(_ & _ & Hr & Htop)]; [exact Hle|].
  destruct (Hno Hr Htop).
Qed.

Lemma Zdigits2_div_lower a b : 0 < a -> 0 < b ->
  Zdigits2 a - Zdigits2 b <= Zdigits2 (a / b).
Proof.
  intros Ha Hb. pose proof (Zdigits2_nonneg (a / b)).
  destruct (Z_le_gt_dec (Zdigits2 a - Zdigits2 b) 0) as [Hle|Hgt]; [lia|].
  destruct (Zdigits2_pos_bounds a Ha) as [Hal _].
  destruct (Zdigits2_pos_bounds b Hb) as [_ Hbu].
  assert (Hdb : 0 < Zdigits2 b) by (destruct b; simpl; lia).
  set (k := Zdigits2 a - Zdigits2 b - 1).
  assert (Hk : 0 <= k) by (unfold k; lia).
  assert (H2k : 0 < 2 ^ k) by (apply Z.pow_pos_nonneg; lia).
  assert (Hq : 2 ^ k <= a / b).
  { apply Z.div_le_lower_bound; [lia|].
    replace (Zdigits2 a - 1) with (Zdigits2 b + k) in Hal by (unfold k; lia).
    rewrite Z.pow_add_r in Hal by lia.
    assert (b * 2 ^ k <= 2 ^ Zdigits2 b * 2 ^ k) by (apply Z.mul_le_mono_nonneg_r; lia).
    lia. }
  pose proof (Zdigits2_ge (a / b) k Hk Hq). unfold k in *. lia.
Qed.

(** The quotient, the exponent and the location that [SFdiv_core_binary]
    hands to the rounding. *)
Definition div_exponent (mx : positive) (ex : Z) (my : positive) (ey : Z) : Z :=
  Z.min (fexp64 (mag mx ex - mag my ey)) (ex - ey).

Definition div_quotient (mx : positive) (ex : Z) (my : positive) (ey : Z) : Z :=
  Zpos mx * 2 ^ (ex - ey - div_exponent mx ex my ey) / Zpos my.

Definition div_location (mx : positive) (ex : Z) (my : positive) (ey : Z) : location :=
  new_location (Zpos my)
    ((Zpos mx * 2 ^ (ex - ey - div_exponent mx ex my ey)) mod Zpos my).

Lemma SFdiv_core_binary_location mx ex my ey :
  SFdiv_core_binary prec emax (Zpos mx) ex (Zpos my) ey
  = (div_quotient mx ex my ey, div_exponent mx ex my ey, div_location mx ex my ey).
Proof.
  unfold SFdiv_core_binary, div_quotient, div_location.
  change (Z.min (fexp64 (Zdigits2 (Z.pos mx) + ex - (Zdigits2 (Z.pos my) + ey))) (ex - ey))
    with (div_exponent mx ex my ey).
  set (e' := div_exponent mx ex my ey).
  assert (Hs : 0 <= ex - ey - e') by (unfold e', div_exponent; lia).
  set (m' := match ex - ey - e' with
             | 0 => Z.pos mx
             | Z.pos _ => Z.shiftl (Z.pos mx) (ex - ey - e')
             | Z.neg _ => 0
             end).
  assert (Hm' : m' = Z.pos mx * 2 ^ (ex - ey - e')).
  { unfold m'. destruct (ex - ey - e') as [|p|p] eqn:E.
    - rewrite Z.pow_0_r. lia.
    - apply Z.shiftl_mul_pow2. lia.
    - lia. }
  rewrite <- Hm'. unfold Z.div, Z.modulo.
  destruct (Z.div_eucl m' (Z.pos my)) as [q r]. reflexivity.
Qed.

Lemma div_quotient_nonneg mx ex my ey : 0 <= div_quotient mx ex my ey.
Proof.
  unfold div_quotient. apply Z.div_pos; [|lia].
  apply Z.mul_nonneg_nonneg; [lia|]. apply Z.pow_nonneg. lia.
Qed.

Lemma div_exponent_le mx ex my ey : 0 <= ex - ey - div_exponent mx ex my ey.
Proof. unfold div_exponent. lia. Qed.

Lemma SFdiv_finite_location sx mx ex sy my ey :
  SFdiv prec emax (S754_finite sx mx ex) (S754_finite sy my ey)
  = binary_round_aux prec emax (xorb sx sy) (div_quotient mx ex my ey)
      (div_exponent mx ex my ey) (div_location mx ex my ey).
Proof. unfold SFdiv. rewrite SFdiv_core_binary_location. reflexivity. Qed.

Lemma new_location_up nb k : rounds_up (new_location nb k) = true -> nb <= 2 * k.
Proof.
  unfold new_location, new_location_even, new_location_odd.
  destruct (Z.even nb); destruct (k =? 0); try discriminate.
  - destruct (Z.compare_spec (2 * k) nb); intros; try discriminate; lia.
  - destruct (Z.compare_spec (2 * k + 1) nb); intros; try discriminate; lia.
Qed.

Lemma SFdiv_finite sx mx ex sy my ey :
  exists l, SFdiv prec emax (S754_finite sx mx ex) (S754_finite sy my ey)
  = binary_round_aux prec emax (xorb sx sy) (div_quotient mx ex my ey)
      (div_exponent mx ex my ey) l.
Proof. exists (div_location mx ex my ey). apply SFdiv_finite_location. Qed.

(** Dividing by a number of smaller magnitude yields a magnitude of at least
    the difference. *)
Lemma div_quotient_mag mx ex my ey :
  mag mx ex - mag my ey
  <= Zdigits2 (div_quotient mx ex my ey) + div_exponent mx ex my ey.
Proof.
  pose proof (div_exponent_le mx ex my ey) as Hs.
  unfold div_quotient.
  pose proof (Zdigits2_div_lower (Z.pos mx * 2 ^ (ex - ey - div_exponent mx ex my ey))
                (Z.pos my)) as H.
  rewrite Zdigits2_mul_pow2 in H by lia.
  assert (0 < Z.pos mx * 2 ^ (ex - ey - div_exponent mx ex my ey)).
  { apply Z.mul_pos_pos; [lia|]. apply Z.pow_pos_nonneg; lia. }
  specialize (H H0 ltac:(lia)). unfold mag.
  change (Zdigits2 (Z.pos mx)) with (Z.pos (digits2_pos mx)) in H.
  change (Zdigits2 (Z.pos my)) with (Z.pos (digits2_pos my)) in H. lia.
Qed.

Lemma div_quotient_mag_pow2 mx ex my ey : pow2_mantissa my ->
  mag mx ex - mag my ey + 1
  <= Zdigits2 (div_quotient mx ex my ey) + div_exponent mx ex my ey.
Proof.
  intros Hp. pose proof (div_exponent_le mx ex my ey) as Hs.
  unfold div_quotient. unfold pow2_mantissa in Hp. rewrite Hp.
  assert (0 < Z.pos mx * 2 ^ (ex - ey - div_exponent mx ex my ey)).
  { apply Z.mul_pos_pos; [lia|]. apply Z.pow_pos_nonneg; lia. }
  rewrite Zdigits2_div_pow2 by lia.
  rewrite Zdigits2_mul_pow2 by lia. unfold mag.
  change (Zdigits2 (Z.pos mx)) with (Z.pos (digits2_pos mx)). lia.
Qed.

Lemma SFdiv_ge1 mx ex my ey :
  1 <= mag mx ex ->
  mag my ey <= 0 \/ (mag my ey = 1 /\ pow2_mantissa my) ->
  SFdiv prec emax (S754_finite false mx ex) (S754_finite false my ey) = S754_infinity false
  \/ exists m e, SFdiv prec emax (S754_finite false mx ex) (S754_finite false my ey)
                 = S754_finite false m e /\ 1 <= mag m e.
Proof.
  intros Hx Hy. destruct (SFdiv_finite false mx ex false my ey) as [l ->]. simpl xorb.
  assert (HK : 1 <= Zdigits2 (div_quotient mx ex my ey) + div_exponent mx ex my ey).
  { destruct Hy as [Hy|[Hy Hp]].
    - pose proof (div_quotient_mag mx ex my ey). lia.
    - pose proof (div_quotient_mag_pow2 mx ex my ey Hp). lia. }
  assert (HQ : 0 < div_quotient mx ex my ey).
  { pose proof (div_quotient_nonneg mx ex my ey).
    destruct (Z.eq_dec (div_quotient mx ex my ey) 0) as [E|E]; [|lia].
    rewrite E in HK. simpl in HK.
    assert (div_exponent mx ex my ey <= fexp64 (mag mx ex - mag my ey))
      by (unfold div_exponent; lia).
    rewrite fexp64_eq in H0.
    destruct Hy as [Hy|[Hy Hp]].
    + pose proof (div_quotient_mag mx ex my ey) as H1. rewrite E in H1. simpl in H1. lia.
    + pose proof (div_quotient_mag_pow2 mx ex my ey Hp) as H1. rewrite E in H1. simpl in H1. lia. }
  assert (HK' : -1073 <= Zdigits2 (div_quotient mx ex my ey) + div_exponent mx ex my ey) by lia.
  destruct (binary_round_aux_lower false _ _ l HQ HK') as [H|(m & e & H & Hm)];
    [left; exact H|right]. exists m, e. split; [exact H|lia].
Qed.

Lemma aligned_mag_le mx ex my ey :
  Zpos mx * 2 ^ (ex - Z.min ex ey) <= Zpos my * 2 ^ (ey - Z.min ex ey) ->
  mag mx ex <= mag my ey.
Proof.
  intros Hle. set (ez := Z.min ex ey) in *.
  assert (Zdigits2 (Z.pos mx * 2 ^ (ex - ez)) <= Zdigits2 (Z.pos my * 2 ^ (ey - ez))).
  { apply Zdigits2_mono. split; [|lia].
    apply Z.mul_nonneg_nonneg; [lia|]. apply Z.pow_nonneg; lia. }
  rewrite !Zdigits2_mul_pow2 in H by (unfold ez; lia). unfold mag.
  change (Zdigits2 (Z.pos mx)) with (Z.pos (digits2_pos mx)) in H.
  change (Zdigits2 (Z.pos my)) with (Z.pos (digits2_pos my)) in H. lia.
Qed.

Lemma div_quotient_below mx ex my ey :
  Zpos mx * 2 ^ (ex - Z.min ex ey) < Zpos my * 2 ^ (ey - Z.min ex ey) ->
  div_exponent mx ex my ey <= -53
  /\ div_quotient mx ex my ey < 2 ^ (- div_exponent mx ex my ey).
Proof.
  intros Hlt. pose proof (aligned_mag_le mx ex my ey (Z.lt_le_incl _ _ Hlt)) as Hmag.
  pose proof (div_exponent_le mx ex my ey) as Hs.
  set (ez := Z.min ex ey) in *. set (e' := div_exponent mx ex my ey) in *.
  assert (He' : e' <= -53).
  { assert (e' <= fexp64 (mag mx ex - mag my ey)) by (unfold e', div_exponent; lia).
    rewrite fexp64_eq in H. lia. }
  split; [exact He'|].
  unfold div_quotient. fold e'. apply Z.div_lt_upper_bound; [lia|].
  assert (H1 : 0 <= ex - ez) by (unfold ez; lia).
  assert (H2 : 0 <= ey - ez) by (unfold ez; lia).
  assert (H3 : 0 < 2 ^ (ey - ez)) by (apply Z.pow_pos_nonneg; lia).
  apply Z.mul_lt_mono_pos_r with (p := 2 ^ (ey - ez)); [exact H3|].
  replace (Z.pos mx * 2 ^ (ex - ey - e') * 2 ^ (ey - ez))
    with (Z.pos mx * 2 ^ (ex - ez) * 2 ^ (- e')).
  2:{ rewrite <- !Z.mul_assoc. f_equal. rewrite <- !Z.pow_add_r by lia. f_equal. lia. }
  replace (Z.pos my * 2 ^ (- e') * 2 ^ (ey - ez))
    with (Z.pos my * 2 ^ (ey - ez) * 2 ^ (- e')) by ring.
  apply Z.mul_lt_mono_pos_r; [apply Z.pow_pos_nonneg; lia|exact Hlt].
Qed.

Lemma SFdiv_le1 mx ex my ey :
  Zpos mx * 2 ^ (ex - Z.min ex ey) < Zpos my * 2 ^ (ey - Z.min ex ey) ->
  SFdiv prec emax (S754_finite false mx ex) (S754_finite false my ey) = S754_zero false
  \/ exists m e, SFdiv prec emax (S754_finite false mx ex) (S754_finite false my ey)
                 = S754_finite false m e
                 /\ (mag m e <= 0 \/ (mag m e = 1 /\ pow2_mantissa m)).
Proof.
  intros Hlt. rewrite SFdiv_finite_location. simpl xorb.
  destruct (div_quotient_below mx ex my ey Hlt) as [He' HQ].
  pose proof (div_quotient_nonneg mx ex my ey) as HQ0.
  apply binary_round_aux_upper; [exact HQ0|].
  pose proof (Zdigits2_le _ (- div_exponent mx ex my ey) HQ0 ltac:(lia) HQ). lia.
Qed.

Lemma shl_align_spec mx ex ex' :
  snd (shl_align mx ex ex') = Z.min ex ex'
  /\ Zpos (fst (shl_align mx ex ex')) = Zpos mx * 2 ^ (ex - Z.min ex ex').
Proof.
  unfold shl_align. destruct (ex' - ex) as [|d|d] eqn:E; simpl fst; simpl snd.
  - rewrite Z.min_l by lia. rewrite Z.sub_diag, Z.pow_0_r. lia.
  - rewrite Z.min_l by lia. rewrite Z.sub_diag, Z.pow_0_r. lia.
  - rewrite Z.min_r by lia. split; [reflexivity|].
    change (Pos.iter xO mx d) with (shift_pos d mx). rewrite shift_pos_correct.
    replace (ex - ex') with (Z.pos d) by lia. change (Z.pow_pos 2 d) with (2 ^ Z.pos d). lia.
Qed.

Lemma binary_round_spec s m e :
  exists mz ez, binary_round prec emax s m e
                = binary_round_aux prec emax s (Zpos mz) ez loc_Exact
                /\ Zdigits2 (Zpos mz) + ez = mag m e.
Proof.
  unfold binary_round.
  destruct (shl_align_spec m e (fexp64 (Z.pos (digits2_pos m) + e))) as [H1 H2].
  destruct (shl_align m e (fexp64 (Z.pos (digits2_pos m) + e))) as [mz ez].
  simpl fst in H2. simpl snd in H1. exists mz, ez. split; [reflexivity|].
  rewrite H2, Zdigits2_mul_pow2 by lia. unfold mag.
  change (Zdigits2 (Z.pos m)) with (Z.pos (digits2_pos m)). lia.
Qed.

Lemma binary_round_shape s m e :
  binary_round prec emax s m e = S754_zero s
  \/ binary_round prec emax s m e = S754_infinity s
  \/ exists m2 e2, binary_round prec emax s m e = S754_finite s m2 e2.
Proof.
  destruct (binary_round_spec s m e) as (mz & ez & -> & _).
  apply binary_round_aux_shape. lia.
Qed.

Lemma binary_round_lower s m e : -1073 <= mag m e ->
  binary_round prec emax s m e = S754_infinity s
  \/ exists m2 e2, binary_round prec emax s m e = S754_finite s m2 e2
                   /\ mag m e <= mag m2 e2.
Proof.
  intros HK. destruct (binary_round_spec s m e) as (mz & ez & -> & Hmag).
  rewrite <- Hmag in *. apply binary_round_aux_lower; lia.
Qed.

Lemma binary_round_upper s m e : mag m e <= 0 ->
  binary_round prec emax s m e = S754_zero s
  \/ exists m2 e2, binary_round prec emax s m e = S754_finite s m2 e2
                   /\ (mag m2 e2 <= 0 \/ (mag m2 e2 = 1 /\ pow2_mantissa m2)).
Proof.
  intros HK. destruct (binary_round_spec s m e) as (mz & ez & -> & Hmag).
  rewrite <- Hmag in *. apply binary_round_aux_upper; lia.
Qed.

(** The number 1. *)
Definition SF_one : spec_float := S754_finite false 4503599627370496 (-52).

Lemma Prim2SF_one : Prim2SF 1 = SF_one.
Proof. reflexivity. Qed.

Lemma Prim2SF_zero : Prim2SF 0 = S754_zero false.
Proof. reflexivity. Qed.

(** A positive number at most 1, by magnitude. *)
Definition at_most_one (m : positive) (e : Z) : Prop :=
  mag m e <= 0 \/ (mag m e = 1 /\ pow2_mantissa m).

(** The aligned integers whose difference [SFsub] rounds. *)
Lemma aligned_below_one m e : mag m e <= 0 ->
  Zpos m * 2 ^ (e - Z.min (-52) e) < 4503599627370496 * 2 ^ (-52 - Z.min (-52) e).
Proof.
  intros Hmag. unfold mag in Hmag.
  destruct (Zdigits2_bounds m) as [_ Hu].
  set (ez := Z.min (-52) e).
  change 4503599627370496 with (2 ^ 52). rewrite <- Z.pow_add_r by (unfold ez; lia).
  assert (Z.pos m * 2 ^ (e - ez) < 2 ^ Z.pos (digits2_pos m) * 2 ^ (e - ez)).
  { apply Z.mul_lt_mono_pos_r; [apply Z.pow_pos_nonneg; unfold ez; lia|exact Hu]. }
  rewrite <- Z.pow_add_r in H by (unfold ez; lia).
  assert (2 ^ (Z.pos (digits2_pos m) + (e - ez)) <= 2 ^ (52 + (-52 - ez)))
    by (apply Z.pow_le_mono_r; unfold ez; lia).
  lia.
Qed.

Lemma aligned_one m e : mag m e = 1 -> pow2_mantissa m ->
  Zpos m * 2 ^ (e - Z.min (-52) e) = 4503599627370496 * 2 ^ (-52 - Z.min (-52) e).
Proof.
  intros Hmag Hp. unfold mag in Hmag. unfold pow2_mantissa in Hp. rewrite Hp.
  set (ez := Z.min (-52) e).
  change 4503599627370496 with (2 ^ 52).
  rewrite <- !Z.pow_add_r by (unfold ez; lia). f_equal. lia.
Qed.

Lemma SFsub_finite sx mx ex sy my ey :
  SFsub prec emax (S754_finite sx mx ex) (S754_finite sy my ey)
  = binary_normalize prec emax
      (cond_Zopp sx (Zpos mx * 2 ^ (ex - Z.min ex ey))
       - cond_Zopp sy (Zpos my * 2 ^ (ey - Z.min ex ey)))
      (Z.min ex ey) false.
Proof.
  unfold SFsub.
  destruct (shl_align_spec mx ex (Z.min ex ey)) as [_ H1].
  destruct (shl_align_spec my ey (Z.min ex ey)) as [_ H2].
  rewrite H1, H2.
  replace (Z.min ex (Z.min ex ey)) with (Z.min ex ey) by lia.
  replace (Z.min ey (Z.min ex ey)) with (Z.min ex ey) by lia.
  reflexivity.
Qed.

(** 1 - q for a positive q below 1: positive, finite, at most 1. *)
Lemma SFsub_one_below m e : -1074 <= e -> mag m e <= 0 ->
  exists m' e', SFsub prec emax SF_one (S754_finite false m e) = S754_finite false m' e'
                /\ at_most_one m' e'.
Proof.
  intros He Hmag. unfold SF_one. rewrite SFsub_finite. cbv beta iota delta [cond_Zopp].
  pose proof (aligned_below_one m e Hmag) as Hlt.
  set (ez := Z.min (-52) e) in *.
  set (a := 4503599627370496 * 2 ^ (-52 - ez)) in *.
  set (b := Z.pos m * 2 ^ (e - ez)) in *.
  assert (Hb : 0 < b).
  { unfold b. apply Z.mul_pos_pos; [lia|]. apply Z.pow_pos_nonneg; unfold ez; lia. }
  assert (Ha : a = 2 ^ (- ez)).
  { unfold a. change 4503599627370496 with (2 ^ 52).
    rewrite <- Z.pow_add_r by (unfold ez; lia). f_equal. lia. }
  destruct (a - b) as [|D|D] eqn:ED; try lia.
  unfold binary_normalize.
  assert (HmagD : mag D ez <= 0).
  { unfold mag. assert (Zdigits2 (Z.pos D) <= - ez).
    { apply Zdigits2_le; [lia|unfold ez; lia|]. rewrite <- Ha. lia. }
    change (Zdigits2 (Z.pos D)) with (Z.pos (digits2_pos D)) in H. lia. }
  assert (HmagD' : -1073 <= mag D ez) by (unfold mag, ez; lia).
  destruct (binary_round_lower false D ez HmagD') as [H|(m2 & e2 & H & Hm)];
    destruct (binary_round_upper false D ez HmagD) as [H'|(m3 & e3 & H' & Hm')];
    try congruence.
  exists m3, e3. split; [exact H'|exact Hm'].
Qed.

Lemma SFsub_one_one m e : mag m e = 1 -> pow2_mantissa m ->
  SFsub prec emax SF_one (S754_finite false m e) = S754_zero false.
Proof.
  intros Hmag Hp. unfold SF_one. rewrite SFsub_finite. cbv beta iota delta [cond_Zopp].
  rewrite (aligned_one m e Hmag Hp). rewrite Z.sub_diag. reflexivity.
Qed.

(** t - 1 for a t of at most 1: never positive. *)
Definition SFle0 (f : spec_float) : bool :=
  match f with
  | S754_zero _ | S754_infinity true | S754_finite true _ _ => true
  | _ => false
  end.

Lemma SFsub_below_one m e : at_most_one m e ->
  SFle0 (SFsub prec emax (S754_finite false m e) SF_one) = true.
Proof.
  intros Hle. unfold SF_one. rewrite SFsub_finite. cbv beta iota delta [cond_Zopp].
  replace (Z.min e (-52)) with (Z.min (-52) e) by lia.
  destruct Hle as [Hmag|[Hmag Hp]].
  - pose proof (aligned_below_one m e Hmag) as Hlt.
    set (a := Z.pos m * 2 ^ (e - Z.min (-52) e)) in *.
    set (b := 4503599627370496 * 2 ^ (-52 - Z.min (-52) e)) in *.
    destruct (a - b) as [|D|D] eqn:ED; try lia. unfold binary_normalize.
    destruct (binary_round_shape true D (Z.min (-52) e)) as [->|[->|(m2 & e2 & ->)]]; reflexivity.
  - rewrite (aligned_one m e Hmag Hp). rewrite Z.sub_diag. reflexivity.
Qed.

Lemma SFsub_negative_one m e :
  SFle0 (SFsub prec emax (S754_finite true m e) SF_one) = true.
Proof.
  unfold SF_one. rewrite SFsub_finite. cbv beta iota delta [cond_Zopp].
  assert (0 < Z.pos m * 2 ^ (e - Z.min e (-52))).
  { apply Z.mul_pos_pos; [lia|]. apply Z.pow_pos_nonneg; lia. }
  assert (0 < 4503599627370496 * 2 ^ (-52 - Z.min e (-52))).
  { apply Z.mul_pos_pos; [lia|]. apply Z.pow_pos_nonneg; lia. }
  set (a := Z.pos m * 2 ^ (e - Z.min e (-52))) in *.
  set (b := 4503599627370496 * 2 ^ (-52 - Z.min e (-52))) in *.
  destruct (- a - b) as [|D|D] eqn:ED; try lia. unfold binary_normalize.
  destruct (binary_round_shape true D (Z.min e (-52))) as [->|[->|(m2 & e2 & ->)]]; reflexivity.
Qed.

Lemma SFcompare_antisym (x y : spec_float) :
  SFcompare y x = option_map CompOpp (SFcompare x y).
Proof.
  destruct x as [sx|sx| |sx mx ex], y as [sy|sy| |sy my ey]; simpl;
    try reflexivity;
    try (destruct sx; reflexivity); try (destruct sy; reflexivity);
    try (destruct sx, sy; reflexivity).
  assert (Hm : Pos.compare_cont Eq my mx = CompOpp (Pos.compare_cont Eq mx my))
    by (symmetry; apply (Pos.compare_cont_antisym mx my Eq)).
  destruct sx, sy; simpl; try reflexivity;
    rewrite (Z.compare_antisym ex ey);
    destruct (ex ?= ey)%Z; simpl; try reflexivity;
    rewrite Hm; destruct (Pos.compare_cont Eq mx my); reflexivity.
Qed.

Lemma SFcompare_refl (x : spec_float) :
  SFcompare x x = match x with S754_nan => None | _ => Some Eq end.
Proof.
  destruct x as [s|s| |s m e]; simpl; try (destruct s; reflexivity); try reflexivity.
  destruct s; rewrite Z.compare_refl, Pos.compare_cont_refl; reflexivity.
Qed.

Lemma valid_finite s m e : valid_binary (S754_finite s m e) = true ->
  fexp64 (mag m e) = e /\ e <= 971.
Proof.
  unfold SpecFloat.valid_binary, bounded, canonical_mantissa. intros H.
  apply andb_true_iff in H. destruct H as [H1 H2].
  apply Z.eqb_eq in H1. apply Z.leb_le in H2. unfold mag. split; [exact H1|exact H2].
Qed.

Lemma pos_compare_cont_Eq a b : Pos.compare_cont Eq a b = Z.compare (Zpos a) (Zpos b).
Proof. reflexivity. Qed.

(** Comparison with 1 and the magnitude of a valid number. *)
Lemma compare_one_ge m e : valid_binary (S754_finite false m e) = true ->
  1 <= mag m e ->
  SFcompare SF_one (S754_finite false m e) = Some Lt
  \/ (SFcompare SF_one (S754_finite false m e) = Some Eq /\ S754_finite false m e = SF_one).
Proof.
  intros Hv Hmag. destruct (valid_finite _ _ _ Hv) as [Hc _]. rewrite fexp64_eq in Hc.
  unfold SF_one, SFcompare. destruct (Z.compare_spec (-52) e) as [E|E|E]; [|left; reflexivity|lia].
  subst e. rewrite pos_compare_cont_Eq.
  destruct (Zdigits2_bounds m) as [Hl Hu]. unfold mag in *.
  assert (Z.pos (digits2_pos m) = 53) by lia. rewrite H in Hl. change (2 ^ (53 - 1)) with 4503599627370496 in Hl.
  destruct (Z.compare_spec 4503599627370496 (Z.pos m)) as [E|E|E]; [right|left; reflexivity|lia].
  split; [reflexivity|]. f_equal. lia.
Qed.

Lemma compare_one_le m e : valid_binary (S754_finite false m e) = true ->
  SFleb (S754_finite false m e) SF_one = true -> at_most_one m e.
Proof.
  intros Hv. destruct (valid_finite _ _ _ Hv) as [Hc _]. rewrite fexp64_eq in Hc.
  unfold SFleb, SF_one, SFcompare, at_most_one.
  destruct (Z.compare_spec e (-52)) as [E|E|E]; [| |discriminate].
  - subst e. rewrite pos_compare_cont_Eq.
    destruct (Zdigits2_bounds m) as [Hl Hu]. unfold mag in *.
    destruct (Z.compare_spec (Z.pos m) 4503599627370496) as [E|E|E]; [| |discriminate]; intros _.
    + right. split; [|unfold pow2_mantissa]; injection E as ->; [reflexivity|reflexivity].
    + left. assert (Zdigits2 (Z.pos m) <= 52) by (apply Zdigits2_le; lia).
      change (Zdigits2 (Z.pos m)) with (Z.pos (digits2_pos m)) in H. lia.
  - intros _. left. unfold mag in *. lia.
Qed.

Lemma compare_one_lt m e : valid_binary (S754_finite false m e) = true ->
  SFltb (S754_finite false m e) SF_one = true -> mag m e <= 0.
Proof.
  intros Hv. destruct (valid_finite _ _ _ Hv) as [Hc _]. rewrite fexp64_eq in Hc.
  unfold SFltb, SF_one, SFcompare.
  destruct (Z.compare_spec e (-52)) as [E|E|E]; [| |discriminate].
  - subst e. rewrite pos_compare_cont_Eq.
    destruct (Z.compare_spec (Z.pos m) 4503599627370496) as [E|E|E]; try discriminate; intros _.
    assert (Zdigits2 (Z.pos m) <= 52) by (apply Zdigits2_le; lia).
    change (Zdigits2 (Z.pos m)) with (Z.pos (digits2_pos m)) in H. unfold mag. lia.
  - intros _. unfold mag in *. lia.
Qed.

Lemma at_most_one_leb m e : valid_binary (S754_finite false m e) = true ->
  at_most_one m e -> SFleb (S754_finite false m e) SF_one = true.
Proof.
  intros Hv Hle. destruct (valid_finite _ _ _ Hv) as [Hc _]. rewrite fexp64_eq in Hc.
  unfold SFleb, SF_one, SFcompare. unfold at_most_one, pow2_mantissa in Hle. unfold mag in *.
  destruct (Z.compare_spec e (-52)) as [E|E|E]; [|reflexivity|].
  - subst e. rewrite pos_compare_cont_Eq.
    destruct (Zdigits2_bounds m) as [Hl Hu].
    destruct Hle as [H|[H Hp]].
    + assert (2 ^ Z.pos (digits2_pos m) <= 2 ^ 52) by (apply Z.pow_le_mono_r; lia).
      destruct (Z.compare_spec (Z.pos m) 4503599627370496) as [E|E|E]; try reflexivity.
      change (2 ^ 52) with 4503599627370496 in H0. lia.
    + replace (Z.pos (digits2_pos m) - 1) with 52 in Hp by lia.
      rewrite Hp. reflexivity.
  - exfalso. destruct Hle as [H|[H _]]; lia.
Qed.

(** The order of two valid positive numbers, on their aligned mantissas. *)
Lemma compare_lt_aligned mx ex my ey :
  valid_binary (S754_finite false mx ex) = true ->
  valid_binary (S754_finite false my ey) = true ->
  SFltb (S754_finite false mx ex) (S754_finite false my ey) = true ->
  Zpos mx * 2 ^ (ex - Z.min ex ey) < Zpos my * 2 ^ (ey - Z.min ex ey).
Proof.
  intros Hx Hy. destruct (valid_finite _ _ _ Hx) as [Hcx _]. destruct (valid_finite _ _ _ Hy) as [Hcy _].
  rewrite fexp64_eq in Hcx, Hcy. unfold mag in *.
  unfold SFltb, SFcompare.
  destruct (Z.compare_spec ex ey) as [E|E|E]; [| |discriminate].
  - subst ey. rewrite pos_compare_cont_Eq.
    destruct (Z.compare_spec (Z.pos mx) (Z.pos my)) as [E|E|E]; try discriminate; intros _.
    rewrite Z.min_id, Z.sub_diag, Z.pow_0_r. lia.
  - intros _. rewrite Z.min_l by lia. rewrite Z.sub_diag, Z.pow_0_r, Z.mul_1_r.
    destruct (Zdigits2_bounds mx) as [_ Hxu]. destruct (Zdigits2_bounds my) as [Hyl _].
    assert (Hdy : Z.pos (digits2_pos my) = 53) by lia.
    assert (Hdx : Z.pos (digits2_pos mx) <= 53) by lia.
    rewrite Hdy in Hyl.
    assert (2 ^ Z.pos (digits2_pos mx) <= 2 ^ 53) by (apply Z.pow_le_mono_r; lia).
    assert (2 ^ 1 <= 2 ^ (ey - ex)) by (apply Z.pow_le_mono_r; lia).
    change (2 ^ 1) with 2 in H0. change (2 ^ (53 - 1)) with 4503599627370496 in Hyl.
    change (2 ^ 53) with 9007199254740992 in H. nia.
Qed.

Lemma compare_le_aligned mx ex my ey :
  valid_binary (S754_finite false mx ex) = true ->
  valid_binary (S754_finite false my ey) = true ->
  SFleb (S754_finite false mx ex) (S754_finite false my ey) = true ->
  Zpos mx * 2 ^ (ex - Z.min ex ey) <= Zpos my * 2 ^ (ey - Z.min ex ey).
Proof.
  intros Hx Hy Hle. unfold SFleb in Hle.
  destruct (SFcompare (S754_finite false mx ex) (S754_finite false my ey))
    as [[| |]|] eqn:E; try discriminate.
  - unfold SFcompare in E.
    destruct (Z.compare_spec ex ey) as [E1|E1|E1]; try discriminate.
    rewrite pos_compare_cont_Eq in E.
    destruct (Z.compare_spec (Z.pos mx) (Z.pos my)) as [E2|E2|E2]; try discriminate.
    subst ey. rewrite E2. lia.
  - apply Z.lt_le_incl. apply compare_lt_aligned; trivial.
    unfold SFltb. rewrite E. reflexivity.
Qed.

(** Dividing by a smaller positive number gives at least 1. *)
Lemma SFdiv_ge1_aligned mx ex my ey :
  Zpos my * 2 ^ (ey - Z.min ex ey) <= Zpos mx * 2 ^ (ex - Z.min ex ey) ->
  SFdiv prec emax (S754_finite false mx ex) (S754_finite false my ey) = S754_infinity false
  \/ exists m e, SFdiv prec emax (S754_finite false mx ex) (S754_finite false my ey)
                 = S754_finite false m e /\ 1 <= mag m e.
Proof.
  intros Hle. destruct (SFdiv_finite false mx ex false my ey) as [l ->]. simpl xorb.
  assert (Hmag : mag my ey <= mag mx ex).
  { apply aligned_mag_le. rewrite (Z.min_comm ey ex). exact Hle. }
  set (ez := Z.min ex ey) in *.
  pose proof (div_exponent_le mx ex my ey) as Hs.
  pose proof (div_quotient_mag mx ex my ey) as Hq.
  pose proof (div_quotient_nonneg mx ex my ey) as Hq0.
  assert (He' : div_exponent mx ex my ey <= mag mx ex - mag my ey - 53).
  { assert (div_exponent mx ex my ey <= fexp64 (mag mx ex - mag my ey))
      by (unfold div_exponent; lia).
    rewrite fexp64_eq in H. lia. }
  set (e' := div_exponent mx ex my ey) in *.
  assert (HK : 1 <= Zdigits2 (div_quotient mx ex my ey) + e').
  { destruct (Z_le_gt_dec 0 e') as [Hpos|Hneg]; [lia|].
    assert (HQ : 2 ^ (- e') <= div_quotient mx ex my ey).
    { unfold div_quotient. fold e'. apply Z.div_le_lower_bound; [lia|].
      assert (H2 : 0 < 2 ^ (ey - ez)) by (apply Z.pow_pos_nonneg; unfold ez; lia).
      apply Z.mul_le_mono_pos_r with (p := 2 ^ (ey - ez)); [exact H2|].
      replace (Z.pos mx * 2 ^ (ex - ey - e') * 2 ^ (ey - ez))
        with (Z.pos mx * 2 ^ (ex - ez) * 2 ^ (- e')).
      2:{ rewrite <- !Z.mul_assoc. f_equal. rewrite <- !Z.pow_add_r by (unfold ez; lia).
          f_equal. lia. }
      replace (Z.pos my * 2 ^ (- e') * 2 ^ (ey - ez))
        with (Z.pos my * 2 ^ (ey - ez) * 2 ^ (- e')) by ring.
      apply Z.mul_le_mono_nonneg_r; [apply Z.pow_nonneg; lia|exact Hle]. }
    pose proof (Zdigits2_ge _ (- e') ltac:(lia) HQ). lia. }
  assert (HQ0 : 0 < div_quotient mx ex my ey).
  { destruct (Z.eq_dec (div_quotient mx ex my ey) 0) as [E|E]; [|lia].
    rewrite E in HK, Hq. simpl in HK, Hq. lia. }
  assert (HK' : -1073 <= Zdigits2 (div_quotient mx ex my ey) + e') by lia.
  destruct (binary_round_aux_lower false _ _ l HQ0 HK') as [H|(m & e & H & Hm)];
    [left; exact H|right]. exists m, e. split; [exact H|lia].
Qed.

(** Two valid positive numbers in strict order are a relative gap of at
    least [2^-53] apart. *)
Lemma aligned_gap mx ex my ey :
  valid_binary (S754_finite false mx ex) = true ->
  valid_binary (S754_finite false my ey) = true ->
  Zpos mx * 2 ^ (ex - Z.min ex ey) < Zpos my * 2 ^ (ey - Z.min ex ey) ->
  Zpos mx * 2 ^ (ex - Z.min ex ey) * 2 ^ 53
  <= Zpos my * 2 ^ (ey - Z.min ex ey) * (2 ^ 53 - 1).
Proof.
  intros Hx Hy Hlt.
  destruct (valid_finite _ _ _ Hx) as [Hcx _]. destruct (valid_finite _ _ _ Hy) as [Hcy _].
  rewrite fexp64_eq in Hcx, Hcy. unfold mag in *.
  destruct (Zdigits2_bounds mx) as [_ Hxu]. destruct (Zdigits2_bounds my) as [Hyl Hyu].
  assert (Hx53 : Z.pos mx < 2 ^ 53).
  { assert (2 ^ Z.pos (digits2_pos mx) <= 2 ^ 53) by (apply Z.pow_le_mono_r; lia). lia. }
  assert (Hy53 : Z.pos my < 2 ^ 53).
  { assert (2 ^ Z.pos (digits2_pos my) <= 2 ^ 53) by (apply Z.pow_le_mono_r; lia). lia. }
  change (2 ^ 53) with 9007199254740992 in *.
  destruct (Z_le_gt_dec ey ex) as [Hle|Hgt].
  - rewrite Z.min_r in * by lia. rewrite Z.sub_diag, Z.pow_0_r, Z.mul_1_r in *. lia.
  - rewrite Z.min_l in * by lia. rewrite Z.sub_diag, Z.pow_0_r, Z.mul_1_r in *.
    assert (Hdy : Z.pos (digits2_pos my) = 53) by lia.
    rewrite Hdy in Hyl. change (2 ^ (53 - 1)) with 4503599627370496 in Hyl.
    assert (2 ^ 1 <= 2 ^ (ey - ex)) by (apply Z.pow_le_mono_r; lia).
    change (2 ^ 1) with 2 in H. nia.
Qed.

(** The quotient of two valid positive numbers in strict order is below 1:
    the exact quotient is at most [1 - 2^-53], which is a number, so the
    rounding does not go up from there. *)
Lemma SFdiv_lt1 mx ex my ey :
  valid_binary (S754_finite false mx ex) = true ->
  valid_binary (S754_finite false my ey) = true ->
  Zpos mx * 2 ^ (ex - Z.min ex ey) < Zpos my * 2 ^ (ey - Z.min ex ey) ->
  SFdiv prec emax (S754_finite false mx ex) (S754_finite false my ey) = S754_zero false
  \/ exists m e, SFdiv prec emax (S754_finite false mx ex) (S754_finite false my ey)
                 = S754_finite false m e /\ mag m e <= 0.
Proof.
  intros Hx Hy Hlt. rewrite SFdiv_finite_location. simpl xorb.
  pose proof (aligned_mag_le mx ex my ey (Z.lt_le_incl _ _ Hlt)) as Hmag.
  destruct (div_quotient_below mx ex my ey Hlt) as [He' HQ].
  pose proof (div_quotient_nonneg mx ex my ey) as HQ0.
  pose proof (div_exponent_le mx ex my ey) as Hs.
  pose proof (aligned_gap mx ex my ey Hx Hy Hlt) as Hgap.
  assert (HQm : div_quotient mx ex my ey * Zpos my
                <= Zpos mx * 2 ^ (ex - ey - div_exponent mx ex my ey)).
  { unfold div_quotient. rewrite Z.mul_comm. apply Z.mul_div_le. lia. }
  assert (HQr : Zpos mx * 2 ^ (ex - ey - div_exponent mx ex my ey)
                = Zpos my * div_quotient mx ex my ey
                  + (Zpos mx * 2 ^ (ex - ey - div_exponent mx ex my ey)) mod Zpos my).
  { unfold div_quotient. apply Z.div_mod. lia. }
  pose proof (Zdigits2_le _ (- div_exponent mx ex my ey) HQ0 ltac:(lia) HQ) as HK.
  unfold div_location.
  set (Q := div_quotient mx ex my ey) in *. set (e' := div_exponent mx ex my ey) in *.
  set (m' := Zpos mx * 2 ^ (ex - ey - e')) in *.
  apply binary_round_aux_below_one; [exact HQ0|lia|].
  intros Hrb Htop. unfold round_bit in Hrb.
  pose proof (shift_of_nonneg Q e') as Hn0.
  assert (Hn : shift_of Q e' = Z.max 0 (fexp64 (Zdigits2 Q + e') - e')) by reflexivity.
  set (n := shift_of Q e') in *.
  assert (He0 : e' + n < 0) by (rewrite fexp64_eq in Hn; lia).
  assert (Hhalf : 2 ^ (- (e' + n)) = 2 * 2 ^ (- (e' + n) - 1)).
  { rewrite <- Z.pow_succ_r by lia. f_equal. lia. }
  assert (Hhp : 0 < 2 ^ (- (e' + n) - 1)) by (apply Z.pow_pos_nonneg; lia).
  assert (Hm0 : 0 < Q / 2 ^ n) by lia.
  destruct (shift_positive Q e' HQ0 Hm0) as [Hmag0 _]. fold n in Hmag0.
  assert (Hd0 : Zdigits2 (Q / 2 ^ n) = - (e' + n)).
  { apply Zdigits2_unique; [lia|]. lia. }
  assert (HK0 : Zdigits2 Q + e' = 0) by lia.
  rewrite HK0, fexp64_eq in Hn.
  assert (Hn' : n = -53 - e') by lia.
  replace (- (e' + n)) with 53 in Htop by lia.
  set (ez := Z.min ex ey) in *.
  assert (H1 : 0 <= ex - ez) by (unfold ez; lia).
  assert (H2 : 0 <= ey - ez) by (unfold ez; lia).
  assert (H3 : 0 < 2 ^ (ey - ez)) by (apply Z.pow_pos_nonneg; lia).
  assert (Hm' : m' <= Zpos my * (2 ^ 53 - 1) * 2 ^ n).
  { apply Z.mul_le_mono_pos_r with (p := 2 ^ (ey - ez)); [exact H3|].
    assert (Hp : 2 ^ (ex - ey - e') * 2 ^ (ey - ez) = 2 ^ (ex - ez) * 2 ^ 53 * 2 ^ n).
    { rewrite <- !Z.pow_add_r by lia. f_equal. lia. }
    unfold m'. rewrite <- Z.mul_assoc, Hp.
    replace (Z.pos my * (2 ^ 53 - 1) * 2 ^ n * 2 ^ (ey - ez))
      with (Z.pos my * 2 ^ (ey - ez) * (2 ^ 53 - 1) * 2 ^ n) by ring.
    rewrite !Z.mul_assoc.
    apply Z.mul_le_mono_nonneg_r; [apply Z.pow_nonneg; lia|exact Hgap]. }
  change (2 ^ 53) with 9007199254740992 in *.
  destruct (Z.ltb_spec 0 n) as [Hpos|Hzero].
  - set (q1 := Q / 2 ^ (n - 1)) in *.
    assert (Hp : 0 < 2 ^ (n - 1)) by (apply Z.pow_pos_nonneg; lia).
    assert (H2n : 2 ^ n = 2 ^ (n - 1) * 2).
    { rewrite Z.mul_comm, <- Z.pow_succ_r by lia. f_equal. lia. }
    assert (Hq1 : q1 / 2 = Q / 2 ^ n).
    { unfold q1. rewrite Z.div_div by lia. rewrite <- H2n. reflexivity. }
    assert (Hodd : q1 = 2 * (q1 / 2) + 1).
    { rewrite (Z.div_mod q1 2) at 1 by lia. rewrite Zmod_odd, Hrb. reflexivity. }
    assert (HQ1 : 2 ^ (n - 1) * q1 <= Q) by (unfold q1; apply Z.mul_div_le; exact Hp).
    assert (HQ2 : 2 ^ (n - 1) * q1 * Zpos my <= Q * Zpos my)
      by (apply Z.mul_le_mono_nonneg_r; lia).
    rewrite H2n in Hm'. rewrite Hq1 in Hodd.
    assert (Hq : q1 = 18014398509481983) by lia.
    rewrite Hq in HQ2. nia.
  - assert (Hz : n = 0) by lia.
    apply new_location_up in Hrb. fold m' in Hrb.
    rewrite Hz in Htop, Hm'. rewrite Z.pow_0_r, Z.div_1_r in Htop. rewrite Z.pow_0_r in Hm'.
    fold m' in HQr. nia.
Qed.

Lemma below_one_ltb m e : valid_binary (S754_finite false m e) = true ->
  mag m e <= 0 -> SFltb (S754_finite false m e) SF_one = true.
Proof.
  intros Hv Hle. destruct (valid_finite _ _ _ Hv) as [Hc _]. rewrite fexp64_eq in Hc.
  unfold SFltb, SF_one, SFcompare.
  destruct (Z.compare_spec e (-52)) as [E|E|E]; [lia|reflexivity|lia].
Qed.

End Binary64.

(** ** The same facts on primitive floats *)

Module IEEE.

Import Binary64.

Lemma is_nan_Prim2SF (x : float) :
  is_nan x = match Prim2SF x with S754_nan => true | _ => false end.
Proof.
  unfold is_nan. rewrite eqb_spec. unfold SFeqb. rewrite SFcompare_refl.
  destruct (Prim2SF x); reflexivity.
Qed.

Lemma compare_some (x y : float) :
  is_nan x = false -> is_nan y = false ->
  exists c, SFcompare (Prim2SF x) (Prim2SF y) = Some c.
Proof.
  rewrite !is_nan_Prim2SF.
  destruct (Prim2SF x) as [sx|sx| |sx mx ex], (Prim2SF y) as [sy|sy| |sy my ey];
    simpl; intros; try discriminate; eauto.
Qed.

Lemma ltb_false_leb (x y : float) :
  is_nan x = false -> is_nan y = false -> (x <? y) = false -> (y <=? x) = true.
Proof.
  intros Hx Hy. rewrite ltb_spec, leb_spec. unfold SFltb, SFleb.
  rewrite (SFcompare_antisym (Prim2SF x) (Prim2SF y)).
  destruct (compare_some x y Hx Hy) as [c ->]. destruct c; simpl; congruence.
Qed.

Lemma leb_is_nan_l (x y : float) : (x <=? y) = true -> is_nan x = false.
Proof.
  rewrite leb_spec, is_nan_Prim2SF. unfold SFleb.
  destruct (Prim2SF x); simpl; try reflexivity. discriminate.
Qed.

Lemma leb_is_nan_r (x y : float) : (x <=? y) = true -> is_nan y = false.
Proof.
  rewrite leb_spec, is_nan_Prim2SF. unfold SFleb.
  destruct (Prim2SF x), (Prim2SF y); simpl; try reflexivity; discriminate.
Qed.

Definition SFgt0 (f : spec_float) : bool :=
  match f with
  | S754_finite false _ _ | S754_infinity false => true
  | _ => false
  end.

Definition SFge0 (f : spec_float) : bool :=
  match f with
  | S754_zero _ | S754_finite false _ _ | S754_infinity false => true
  | _ => false
  end.

Lemma ltb_0_l x : (0 <? x) = SFgt0 (Prim2SF x).
Proof.
  rewrite ltb_spec, Prim2SF_zero. unfold SFltb.
  destruct (Prim2SF x) as [s|s| |s m e]; try destruct s; reflexivity.
Qed.

Lemma leb_0_l x : (0 <=? x) = SFge0 (Prim2SF x).
Proof.
  rewrite leb_spec, Prim2SF_zero. unfold SFleb.
  destruct (Prim2SF x) as [s|s| |s m e]; try destruct s; reflexivity.
Qed.

Lemma leb_0_r x : (x <=? 0) = SFle0 (Prim2SF x).
Proof.
  rewrite leb_spec, Prim2SF_zero. unfold SFleb.
  destruct (Prim2SF x) as [s|s| |s m e]; try destruct s; reflexivity.
Qed.

Lemma is_infinity_Prim2SF x :
  is_infinity x = match Prim2SF x with S754_infinity _ => true | _ => false end.
Proof.
  unfold is_infinity. rewrite eqb_spec, abs_spec.
  change (Prim2SF infinity) with (S754_infinity false). unfold SFeqb.
  destruct (Prim2SF x) as [s|s| |s m e]; reflexivity.
Qed.

(** a / b for 0 < a < b: a number in [+0, 1]. *)
Definition SFunit (f : spec_float) : Prop :=
  f = S754_zero false \/ exists m e, f = S754_finite false m e /\ at_most_one m e.

Lemma div_lt_unit a b : (0 <? a) = true -> (a <? b) = true -> SFunit (Prim2SF (a / b)).
Proof.
  intros Ha Hab. rewrite ltb_0_l in Ha. rewrite ltb_spec in Hab.
  rewrite div_spec. pose proof (Prim2SF_valid a) as Va. pose proof (Prim2SF_valid b) as Vb.
  destruct (Prim2SF a) as [sa|sa| |sa ma ea]; try discriminate; destruct sa; try discriminate.
  - destruct (Prim2SF b) as [sb|sb| |sb mb eb]; try destruct sb; discriminate.
  - destruct (Prim2SF b) as [sb|sb| |sb mb eb]; try destruct sb; try discriminate.
    + left. reflexivity.
    + pose proof (compare_lt_aligned _ _ _ _ Va Vb Hab) as Hlt.
      destruct (SFdiv_le1 _ _ _ _ Hlt) as [H|(m & e & H & Hm)]; [left; exact H|right].
      exists m, e. split; assumption.
Qed.

(** a / b for 0 <= a < b: a number in [0, 1). *)
Lemma div_lt_one a b : (0 <=? a) = true -> (a <? b) = true ->
  (0 <=? a / b) = true /\ (a / b <? 1) = true.
Proof.
  intros Ha Hab. rewrite leb_0_l in *. rewrite ltb_spec in *. rewrite Prim2SF_one.
  pose proof (Prim2SF_valid a) as Va. pose proof (Prim2SF_valid b) as Vb.
  pose proof (Prim2SF_valid (a / b)) as Vq. rewrite div_spec in *.
  destruct (Prim2SF a) as [sa|sa| |sa ma ea]; try discriminate.
  - destruct (Prim2SF b) as [sb|sb| |sb mb eb]; try destruct sb; try discriminate;
      destruct sa; split; reflexivity.
  - destruct sa; [discriminate|].
    destruct (Prim2SF b) as [sb|sb| |sb mb eb]; try destruct sb; discriminate.
  - destruct sa; [discriminate|].
    destruct (Prim2SF b) as [sb|sb| |sb mb eb]; try destruct sb; try discriminate.
    + split; reflexivity.
    + pose proof (compare_lt_aligned _ _ _ _ Va Vb Hab) as Hlt.
      destruct (SFdiv_lt1 _ _ _ _ Va Vb Hlt) as [H|(m & e & H & Hm)];
        unfold SF64div in *; rewrite H in *; split; try reflexivity.
      apply below_one_ltb; assumption.
Qed.

(** 1 - q for q in [+0, 1]: again in [+0, 1]. *)
Lemma sub_one_unit q : SFunit (Prim2SF q) -> SFunit (Prim2SF (1 - q)).
Proof.
  intros Hq. rewrite sub_spec, Prim2SF_one. pose proof (Prim2SF_valid q) as Vq.
  destruct Hq as [Hq|(m & e & Hq & Hm)]; rewrite Hq in *.
  - right. exists 4503599627370496%positive, (-52)%Z. split; [reflexivity|].
    right. split; reflexivity.
  - destruct (valid_finite _ _ _ Vq) as [Hc _]. rewrite fexp64_eq in Hc.
    destruct Hm as [Hm|[Hm Hp]].
    + destruct (SFsub_one_below m e ltac:(lia) Hm) as (m' & e' & H & Hm').
      right. exists m', e'. split; assumption.
    + left. apply SFsub_one_one; assumption.
Qed.

(** 1 - q for q in [+0, 1): positive and finite. *)
Lemma sub_one_pos q : (0 <=? q) = true -> (q <? 1) = true ->
  exists m e, Prim2SF (1 - q) = S754_finite false m e.
Proof.
  intros H0 H1. rewrite leb_0_l in H0. rewrite ltb_spec, Prim2SF_one in H1.
  rewrite sub_spec, Prim2SF_one. pose proof (Prim2SF_valid q) as Vq.
  destruct (Prim2SF q) as [s|s| |s m e]; try discriminate.
  - exists 4503599627370496%positive, (-52)%Z. reflexivity.
  - destruct s; discriminate.
  - destruct s; try discriminate.
    destruct (valid_finite _ _ _ Vq) as [Hc _]. rewrite fexp64_eq in Hc.
    pose proof (compare_one_lt m e Vq H1) as Hm.
    destruct (SFsub_one_below m e ltac:(lia) Hm) as (m' & e' & H & _). eauto.
Qed.

(** r / d for r >= 1 and d in [+0, 1]: at least 1. *)
Lemma div_ge_one r d : (1 <=? r) = true -> SFunit (Prim2SF d) -> (1 <=? r / d) = true.
Proof.
  intros Hr Hd. rewrite leb_spec, Prim2SF_one in Hr.
  pose proof (Prim2SF_valid r) as Vr. pose proof (Prim2SF_valid (r / d)) as Vq.
  rewrite leb_spec, Prim2SF_one. rewrite div_spec in *.
  assert (Hr' : Prim2SF r = S754_infinity false
                \/ exists m e, Prim2SF r = S754_finite false m e /\ (1 <= mag m e)%Z).
  { destruct (Prim2SF r) as [s|s| |s m e]; try discriminate; destruct s; try discriminate.
    - left. reflexivity.
    - right. exists m, e. split; [reflexivity|].
      destruct (valid_finite _ _ _ Vr) as [Hc _]. rewrite fexp64_eq in Hc.
      unfold SFleb, SF_one, SFcompare in Hr. unfold mag in *.
      destruct (Z.compare_spec (-52) e) as [E|E|E]; try discriminate; [|lia].
      subst e. rewrite pos_compare_cont_Eq in Hr.
      assert (4503599627370496 <= Z.pos m)%Z
        by (destruct (Z.compare_spec 4503599627370496 (Z.pos m)); try discriminate; lia).
      assert (53 <= Zdigits2 (Z.pos m))%Z
        by (apply (Zdigits2_ge (Z.pos m) 52); [lia|change (2 ^ 52)%Z with 4503599627370496%Z; lia]).
      change (Zdigits2 (Z.pos m)) with (Z.pos (digits2_pos m)) in H0. lia. }
  assert (Hq : SF64div (Prim2SF r) (Prim2SF d) = S754_infinity false
               \/ exists m e, SF64div (Prim2SF r) (Prim2SF d) = S754_finite false m e
                              /\ (1 <= mag m e)%Z).
  { destruct Hr' as [Er|(mr & er & Er & Hmr)]; destruct Hd as [Ed|(md & ed & Ed & Hmd)];
      rewrite Er, Ed.
    - left; reflexivity.
    - left; reflexivity.
    - left; reflexivity.
    - apply SFdiv_ge1; assumption. }
  destruct Hq as [Hq|(m & e & Hq & Hm)]; rewrite Hq in *; [reflexivity|].
  destruct (compare_one_ge m e Vq Hm) as [H|[H _]]; unfold SFleb; rewrite H; reflexivity.
Qed.

Lemma ltb_leb (x y : float) : (x <? y) = true -> (x <=? y) = true.
Proof.
  rewrite ltb_spec, leb_spec. unfold SFltb, SFleb.
  destruct (SFcompare (Prim2SF x) (Prim2SF y)) as [[| |]|]; congruence.
Qed.

(** The upper clamp at 1 of a number that is at least 1. *)
Lemma clamp_ge_one e : (1 <=? e) = true -> (if 1 <? e then 1 else e) = 1.
Proof.
  intros He. destruct (1 <? e) eqn:Hlt; [reflexivity|].
  rewrite leb_spec in He. rewrite ltb_spec in Hlt. apply Prim2SF_inj.
  unfold SFleb in He. unfold SFltb in Hlt.
  destruct (SFcompare (Prim2SF 1) (Prim2SF e)) as [[| |]|] eqn:E; try discriminate.
  rewrite Prim2SF_one in *. pose proof (Prim2SF_valid e) as Ve.
  destruct (Prim2SF e) as [s|s| |s m x]; try destruct s; try discriminate.
  unfold SF_one, SFcompare in E.
  destruct (Z.compare_spec (-52) x) as [E1|E1|E1]; try discriminate.
  rewrite pos_compare_cont_Eq in E.
  destruct (Z.compare_spec 4503599627370496 (Z.pos m)) as [E2|E2|E2]; try discriminate.
  subst x. injection E2 as <-. reflexivity.
Qed.

(** t - 1 for t <= 1: not positive. *)
Lemma sub_one_le0 t : (t <=? 1) = true -> (t - 1 <=? 0) = true.
Proof.
  intros Ht. rewrite leb_0_r, sub_spec, Prim2SF_one. rewrite leb_spec, Prim2SF_one in Ht.
  pose proof (Prim2SF_valid t) as Vt.
  destruct (Prim2SF t) as [s|s| |s m e]; try discriminate.
  - reflexivity.
  - destruct s; [reflexivity|discriminate].
  - destruct s.
    + apply SFsub_negative_one.
    + apply SFsub_below_one. apply compare_one_le; assumption.
Qed.

(** The sign of a quotient of a non-negative finite number by a positive one. *)
Lemma div_nonneg r d :
  (0 <=? r) = true -> (exists m e, Prim2SF d = S754_finite false m e) ->
  (0 <=? r / d) = true.
Proof.
  intros Hr (md & ed & Hd). rewrite leb_0_l in *. rewrite div_spec, Hd.
  destruct (Prim2SF r) as [s|s| |s m e]; try discriminate.
  - reflexivity.
  - destruct s; [discriminate|reflexivity].
  - destruct s; [discriminate|].
    unfold SF64div. destruct (SFdiv_finite false m e false md ed) as [l ->]. simpl xorb.
    destruct (binary_round_aux_shape false _ (div_exponent m e md ed) l
                (div_quotient_nonneg m e md ed)) as [->|[->|(m2 & e2 & ->)]]; reflexivity.
Qed.

Lemma div_nonneg_pos a b :
  (0 <=? a) = true -> is_infinity a = false -> (0 <? b) = true ->
  (0 <=? a / b) = true.
Proof.
  intros Ha Hfin Hb. rewrite leb_0_l in *. rewrite ltb_0_l in Hb.
  rewrite is_infinity_Prim2SF in Hfin. rewrite div_spec.
  destruct (Prim2SF a) as [sa|sa| |sa ma ea]; try discriminate;
    destruct (Prim2SF b) as [sb|sb| |sb mb eb]; try discriminate;
    try destruct sa; try destruct sb; try discriminate; try reflexivity.
  unfold SF64div. destruct (SFdiv_finite false ma ea false mb eb) as [l ->]. simpl xorb.
  destruct (binary_round_aux_shape false _ (div_exponent ma ea mb eb) l
              (div_quotient_nonneg ma ea mb eb)) as [->|[->|(m2 & e2 & ->)]]; reflexivity.
Qed.

Lemma ltb_0_r x :
  (x <? 0) = match Prim2SF x with
             | S754_finite true _ _ | S754_infinity true => true
             | _ => false
             end.
Proof.
  rewrite ltb_spec, Prim2SF_zero. unfold SFltb.
  destruct (Prim2SF x) as [s|s| |s m e]; try destruct s; reflexivity.
Qed.

(** a / b for a finite b with 0 < b <= a: at least 1. *)
Lemma ratio_ge_one a b :
  (0 <? b) = true -> is_infinity b = false -> (b <=? a) = true -> (1 <=? a / b) = true.
Proof.
  intros Hb Hfin Hba. rewrite ltb_0_l in Hb. rewrite is_infinity_Prim2SF in Hfin.
  rewrite leb_spec in Hba.
  pose proof (Prim2SF_valid a) as Va. pose proof (Prim2SF_valid b) as Vb.
  pose proof (Prim2SF_valid (a / b)) as Vq.
  rewrite leb_spec, Prim2SF_one. rewrite div_spec in *.
  destruct (Prim2SF b) as [sb|sb| |sb mb eb]; try discriminate; destruct sb; try discriminate.
  destruct (Prim2SF a) as [sa|sa| |sa ma ea]; try discriminate; destruct sa; try discriminate.
  - reflexivity.
  - pose proof (compare_le_aligned _ _ _ _ Vb Va Hba) as Hle.
    replace (Z.min eb ea) with (Z.min ea eb) in Hle by lia.
    destruct (SFdiv_ge1_aligned _ _ _ _ Hle) as [H|(m & e & H & Hm)];
      unfold SF64div in *; rewrite H in *; [reflexivity|].
    destruct (compare_one_ge m e Vq Hm) as [H'|[H' _]]; unfold SFleb; rewrite H'; reflexivity.
Qed.

(** 1 / p for p >= 1: at most 1. *)
Lemma inv_ge_one p : (1 <=? p) = true -> (1 / p <=? 1) = true.
Proof.
  intros Hp. destruct (1 <? p) eqn:Hlt.
  - rewrite ltb_spec, Prim2SF_one in Hlt.
    pose proof (Prim2SF_valid p) as Vp. pose proof (Prim2SF_valid (1 / p)) as Vq.
    rewrite leb_spec, Prim2SF_one. rewrite div_spec, Prim2SF_one in *.
    destruct (Prim2SF p) as [s|s| |s m e]; try discriminate; destruct s; try discriminate.
    + reflexivity.
    + assert (Vone : valid_binary SF_one = true) by reflexivity.
      pose proof (compare_lt_aligned _ _ _ _ Vone Vp Hlt) as Hal.
      destruct (SFdiv_le1 _ _ _ _ Hal) as [H|(m' & e' & H & Hm)];
        unfold SF64div, SF_one in *; rewrite H in *; [reflexivity|].
      apply at_most_one_leb; assumption.
  - pose proof (clamp_ge_one p Hp) as H. rewrite Hlt in H. subst p. reflexivity.
Qed.

(** A square root is never negative. *)
Lemma sqrt_not_negative x : (sqrt x <? 0) = false.
Proof.
  rewrite ltb_0_r, sqrt_spec. unfold SF64sqrt, SFsqrt.
  destruct (Prim2SF x) as [s|s| |s m e]; try destruct s; try reflexivity.
  destruct (SFsqrt_core_binary prec emax (Z.pos m) e) as [[mz ez] lz].
  unfold binary_round_aux.
  destruct (shr_fexp prec emax mz ez lz) as [mrs' e'].
  destruct (shr_fexp prec emax _ e' loc_Exact) as [mrs'' e''].
  destruct (shr_m mrs''); try reflexivity.
  destruct (e'' <=? emax - prec)%Z; reflexivity.
Qed.

(** A number that is not negative and is below a bound is finite. *)
Lemma below_is_finite y t :
  (y <? 0) = false -> (y <? t) = true -> is_nan y = false /\ is_infinity y = false.
Proof.
  rewrite !ltb_spec, is_nan_Prim2SF, is_infinity_Prim2SF, Prim2SF_zero.
  destruct (Prim2SF y) as [s|s| |s m e]; try (intros; split; reflexivity).
  - destruct s; [discriminate|].
    destruct (Prim2SF t) as [s'|s'| |s' m' e']; try destruct s'; discriminate.
  - discriminate.
Qed.



End IEEE.

(** * The claims on the hydraulic properties *)

Module HydraulicSpec.

Import Hydraulic IEEE.

(** A [pow] for the examples that never reach [pow], and an [exp] likewise. *)
Definition pow_not_called (x y : float) : float := nan.
Definition exp_not_called (x : float) : float := nan.

Lemma free_saturation_other_family pow hp h bc bd :
  String.eqb (type_of_hydraulic_properties hp) van_genuchten_1980 = false ->
  get_effective_free_saturation pow hp h bc bd = Throw (-1).
Proof.
  intros H. unfold get_effective_free_saturation, get_effective_total_saturation.
  cbv zeta. rewrite H. reflexivity.
Qed.

Lemma total_saturation_van_genuchten pow hp h :
  String.eqb (type_of_hydraulic_properties hp) van_genuchten_1980 = true ->
  get_effective_total_saturation pow hp h
  = Ok (if 0 <=? h then 1
        else 1 / pow (1 + pow (van_genuchten_alpha hp * abs h) (van_genuchten_n hp))
                   (van_genuchten_m hp)).
Proof.
  intros H. unfold get_effective_total_saturation. cbv zeta. rewrite H. reflexivity.
Qed.

(** The clamp of [get_effective_biomass_saturation] holds on every input. *)
Lemma biomass_saturation_never_above_one hp bc bd :
  (1 <? get_effective_biomass_saturation hp bc bd) = false.
Proof.
  unfold get_effective_biomass_saturation. cbv zeta.
  set (e := bc / bd / _). destruct (1 <? e) eqn:E; [reflexivity|exact E].
Qed.

Lemma saturated_biomass hp bc bd :
  (0 <? moisture_content_residual hp) = true ->
  (moisture_content_residual hp <? moisture_content_saturation hp) = true ->
  (1 <=? bc / bd) = true ->
  get_effective_biomass_saturation hp bc bd = 1.
Proof.
  intros Hr Hrs Hratio. unfold get_effective_biomass_saturation. cbv zeta.
  apply clamp_ge_one. apply div_ge_one; [exact Hratio|].
  apply sub_one_unit. apply div_lt_unit; assumption.
Qed.

Lemma free_saturation_of_saturated_biomass pow hp h bc bd t :
  get_effective_biomass_saturation hp bc bd = 1 ->
  get_effective_total_saturation pow hp h = Ok t ->
  (t <=? 1) = true ->
  get_effective_free_saturation pow hp h bc bd = Ok 0.
Proof.
  intros Hb Ht Hle. unfold get_effective_free_saturation. rewrite Ht. simpl bind.
  rewrite Hb. rewrite (sub_one_le0 t Hle). reflexivity.
Qed.

(** C6 (as amended).  With a residual moisture content strictly between 0
    and the saturated one and a biomass ratio of at least 1,
    [get_effective_biomass_saturation] returns exactly 1.0; and
    [get_effective_free_saturation] returns exactly 0.0 at every pressure
    head whose effective total saturation is at most 1, which under the
    van Genuchten family covers every head >= 0 and every negative head
    where [pow] gives 1 + (alpha |h|)^n to the m at least 1.  Under any
    other family [get_effective_free_saturation] throws. *)
Theorem saturated_biomass_leaves_no_free_water pow hp bc bd :
  (0 <? moisture_content_residual hp) = true ->
  (moisture_content_residual hp <? moisture_content_saturation hp) = true ->
  (1 <=? bc / bd) = true ->
  get_effective_biomass_saturation hp bc bd = 1
  /\ (forall h t, get_effective_total_saturation pow hp h = Ok t -> (t <=? 1) = true ->
                  get_effective_free_saturation pow hp h bc bd = Ok 0)
  /\ (type_of_hydraulic_properties hp = van_genuchten_1980 ->
      forall h,
        (0 <=? h) = true
        \/ (1 <=? pow (1 + pow (van_genuchten_alpha hp * abs h) (van_genuchten_n hp))
                    (van_genuchten_m hp)) = true ->
        get_effective_free_saturation pow hp h bc bd = Ok 0)
  /\ (type_of_hydraulic_properties hp <> van_genuchten_1980 ->
      forall h, get_effective_free_saturation pow hp h bc bd = Throw (-1)).
Proof.
  intros Hr Hrs Hratio.
  pose proof (saturated_biomass hp bc bd Hr Hrs Hratio) as Hb.
  split; [exact Hb|]. split; [|split].
  - intros h t. apply free_saturation_of_saturated_biomass. exact Hb.
  - intros Hvg h Hh.
    assert (E : String.eqb (type_of_hydraulic_properties hp) van_genuchten_1980 = true)
      by (apply String.eqb_eq; exact Hvg).
    eapply free_saturation_of_saturated_biomass;
      [exact Hb|apply total_saturation_van_genuchten; exact E|].
    destruct (0 <=? h) eqn:E0; [reflexivity|].
    destruct Hh as [Hh|Hh]; [discriminate|]. apply inv_ge_one. exact Hh.
  - intros Hnvg h. apply free_saturation_other_family.
    apply String.eqb_neq. exact Hnvg.
Qed.

Definition sand_van_genuchten : Hydraulic_Properties :=
  make van_genuchten_1980 0.4 0.1 0.01 0.05 2.

Definition sand_haverkamp : Hydraulic_Properties :=
  make haverkamp_et_al_1977 0.4 0.1 0.01 0.05 2.

Lemma saturated_biomass_leaves_no_free_water_witness :
  get_effective_biomass_saturation sand_van_genuchten 3 2 = 1
  /\ get_effective_free_saturation pow_not_called sand_van_genuchten 5 3 2 = Ok 0.
Proof.
  pose proof (saturated_biomass_leaves_no_free_water pow_not_called sand_van_genuchten 3 2
                eq_refl eq_refl eq_refl) as (H1 & _ & H3 & _).
  split; [exact H1|]. apply H3; [reflexivity|left; reflexivity].
Defined.

(** C6 as it is stated fails: under the empirical family, with the residual
    moisture content between 0 and the saturated one and a ratio of 1.5,
    [get_effective_free_saturation] throws instead of returning 0.0. *)
Lemma free_saturation_throws_under_haverkamp :
  (0 <? moisture_content_residual sand_haverkamp) = true
  /\ (moisture_content_residual sand_haverkamp
      <? moisture_content_saturation sand_haverkamp) = true
  /\ (1 <=? 3 / 2) = true
  /\ get_effective_free_saturation pow_not_called sand_haverkamp 5 3 2 = Throw (-1).
Proof. repeat split. Qed.

(** C7 (as amended).  For a finite non-negative biomass concentration, a
    positive dry density and a residual moisture content that is not
    negative and below the saturated one,
    [get_effective_biomass_saturation] returns a value in [0,1]. *)
Theorem biomass_saturation_in_unit_interval hp bc bd :
  (0 <=? bc) = true -> is_infinity bc = false ->
  (0 <? bd) = true ->
  (0 <=? moisture_content_residual hp) = true ->
  (moisture_content_residual hp <? moisture_content_saturation hp) = true ->
  (0 <=? get_effective_biomass_saturation hp bc bd) = true
  /\ (get_effective_biomass_saturation hp bc bd <=? 1) = true.
Proof.
  intros Hbc Hfin Hbd Hr Hrs.
  destruct (div_lt_one _ _ Hr Hrs) as [Hq0 Hq1].
  assert (He : (0 <=? bc / bd
                      / (1 - moisture_content_residual hp / moisture_content_saturation hp))
               = true).
  { apply div_nonneg; [apply div_nonneg_pos; assumption|apply sub_one_pos; assumption]. }
  unfold get_effective_biomass_saturation. cbv zeta.
  set (e := bc / bd / _) in *. destruct (1 <? e) eqn:E; [split; reflexivity|].
  split; [exact He|]. apply ltb_false_leb; [reflexivity| |exact E].
  apply (leb_is_nan_r _ _ He).
Qed.

Lemma biomass_saturation_in_unit_interval_witness :
  (0 <=? get_effective_biomass_saturation sand_van_genuchten 1 2) = true
  /\ (get_effective_biomass_saturation sand_van_genuchten 1 2 <=? 1) = true.
Proof.
  apply (biomass_saturation_in_unit_interval sand_van_genuchten 1 2); reflexivity.
Defined.

(** C7 as it is stated fails: there is no clamp from below, so a negative
    biomass concentration, with a positive dry density, gives a negative
    saturation. *)
Lemma biomass_saturation_negative :
  (0 <? 1) = true
  /\ (get_effective_biomass_saturation sand_van_genuchten (-1) 1 <? 0) = true
  /\ (0 <=? get_effective_biomass_saturation sand_van_genuchten (-1) 1) = false.
Proof. repeat split. Qed.

(** Under the empirical family the conductivity reads the pressure head
    only. *)
Lemma haverkamp_conductivity pow exp hp h bc bd model :
  type_of_hydraulic_properties hp = haverkamp_et_al_1977 ->
  get_hydraulic_conductivity pow exp hp h bc bd model
  = Ok (hydraulic_conductivity_saturated hp * 1.175E6 / (1.175E6 + pow (abs h) 4.74)).
Proof.
  intros H. unfold get_hydraulic_conductivity. cbv zeta.
  rewrite H, String.eqb_refl. reflexivity.
Qed.

(** C8.  Under the empirical family the conductivity at a pressure head of
    -100 is Ks*A/(A + 100^4.74) with A = 1.175e6, whatever the biomass
    concentration, the dry density and the name of the permeability model. *)
Theorem haverkamp_conductivity_at_minus_100 pow exp hp bc bd model :
  type_of_hydraulic_properties hp = haverkamp_et_al_1977 ->
  get_hydraulic_conductivity pow exp hp (-100) bc bd model
  = Ok (hydraulic_conductivity_saturated hp * 1.175E6 / (1.175E6 + pow 100 4.74)).
Proof.
  intros H. rewrite (haverkamp_conductivity pow exp hp (-100) bc bd model H).
  change (abs (-100)) with 100. reflexivity.
Qed.

Lemma haverkamp_conductivity_at_minus_100_witness :
  get_hydraulic_conductivity (fun x y => x * y) exp_not_called sand_haverkamp (-100) 7 3
    "no_such_model"
  = Ok (0.01 * 1.175E6 / (1.175E6 + 100 * 4.74)).
Proof.
  exact (haverkamp_conductivity_at_minus_100 (fun x y => x * y) exp_not_called
           sand_haverkamp 7 3 "no_such_model" eq_refl).
Defined.

(** C9.  A family name other than the two implemented makes
    [get_specific_moisture_capacity], [get_effective_total_saturation] and
    [get_hydraulic_conductivity] throw; and under the van Genuchten family
    [get_hydraulic_conductivity] throws for every permeability model other
    than the four implemented. *)
Theorem unsupported_models_throw pow exp hp :
  (type_of_hydraulic_properties hp <> haverkamp_et_al_1977 ->
   type_of_hydraulic_properties hp <> van_genuchten_1980 ->
   (forall h, get_specific_moisture_capacity pow hp h = Throw (-1))
   /\ (forall h, get_effective_total_saturation pow hp h = Throw (-1))
   /\ (forall h bc bd model, get_hydraulic_conductivity pow exp hp h bc bd model = Throw (-1)))
  /\ (type_of_hydraulic_properties hp = van_genuchten_1980 ->
      forall model,
        ~ In model ["soleimani"; "clement"; "okubo_and_matsumoto"; "vandevivere"]%string ->
        forall h bc bd, get_hydraulic_conductivity pow exp hp h bc bd model = Throw (-1)).
Proof.
  split.
  - intros H1 H2. apply String.eqb_neq in H1, H2.
    unfold get_specific_moisture_capacity, get_effective_total_saturation,
      get_hydraulic_conductivity. cbv zeta. rewrite H1, H2. repeat split.
  - intros Hvg model Hm h bc bd.
    unfold get_hydraulic_conductivity, get_effective_total_saturation. cbv zeta.
    rewrite Hvg. change (String.eqb van_genuchten_1980 haverkamp_et_al_1977) with false.
    rewrite String.eqb_refl. cbv iota. simpl bind.
    unfold relative_permeability.
    assert (E1 : String.eqb model "soleimani" = false)
      by (apply String.eqb_neq; intros ->; apply Hm; simpl; auto).
    assert (E2 : String.eqb model "clement" = false)
      by (apply String.eqb_neq; intros ->; apply Hm; simpl; auto).
    assert (E3 : String.eqb model "okubo_and_matsumoto" = false)
      by (apply String.eqb_neq; intros ->; apply Hm; simpl; auto).
    assert (E4 : String.eqb model "vandevivere" = false)
      by (apply String.eqb_neq; intros ->; apply Hm; simpl; auto).
    rewrite E1, E2, E3, E4. reflexivity.
Qed.

Definition brooks_corey : Hydraulic_Properties :=
  make "brooks_corey_1964" 0.4 0.1 0.01 0.05 2.

Lemma unsupported_models_throw_witness :
  get_specific_moisture_capacity pow_not_called brooks_corey (-100) = Throw (-1)
  /\ get_effective_total_saturation pow_not_called brooks_corey (-100) = Throw (-1)
  /\ get_hydraulic_conductivity pow_not_called exp_not_called brooks_corey (-100) 0 1
       "soleimani" = Throw (-1)
  /\ get_hydraulic_conductivity pow_not_called exp_not_called sand_van_genuchten 5 0 1
       "kozeny_carman" = Throw (-1).
Proof.
  destruct (unsupported_models_throw pow_not_called exp_not_called brooks_corey) as [H _].
  destruct (unsupported_models_throw pow_not_called exp_not_called sand_van_genuchten)
    as [_ H'].
  assert (N1 : type_of_hydraulic_properties brooks_corey <> haverkamp_et_al_1977)
    by discriminate.
  assert (N2 : type_of_hydraulic_properties brooks_corey <> van_genuchten_1980)
    by discriminate.
  destruct (H N1 N2) as (H1 & H2 & H3).
  split; [apply H1|]. split; [apply H2|]. split; [apply H3|].
  apply H'; [reflexivity|].
  intros [E|[E|[E|[E|[]]]]]; discriminate.
Defined.

(** ** Further properties of the saturations *)

(** Whatever the arguments, a free saturation that
    [get_effective_free_saturation] returns is not negative. *)
Theorem free_saturation_never_negative pow hp h bc bd f :
  get_effective_free_saturation pow hp h bc bd = Ok f -> (f <? 0) = false.
Proof.
  unfold get_effective_free_saturation.
  destruct (get_effective_total_saturation pow hp h) as [t|c]; simpl bind; [|discriminate].
  intros H. injection H as <-.
  destruct (t - get_effective_biomass_saturation hp bc bd <=? 0) eqn:E; [reflexivity|].
  destruct (t - get_effective_biomass_saturation hp bc bd <? 0) eqn:E'; [|reflexivity].
  rewrite (ltb_leb _ _ E') in E. discriminate.
Qed.

Lemma free_saturation_never_negative_witness :
  get_effective_free_saturation pow_not_called sand_van_genuchten 5 1 2 = Ok 0.33333333333333337
  /\ (0.33333333333333337 <? 0) = false.
Proof.
  split; [reflexivity|].
  apply (free_saturation_never_negative pow_not_called sand_van_genuchten 5 1 2).
  reflexivity.
Defined.

Lemma mul_zero_finite x :
  is_nan x = false -> is_infinity x = false -> (x * 0 =? 0) = true.
Proof.
  rewrite is_nan_Prim2SF, is_infinity_Prim2SF, eqb_spec, mul_spec, Binary64.Prim2SF_zero.
  destruct (Prim2SF x) as [s|s| |s m e]; try discriminate; intros _ _;
    destruct s; reflexivity.
Qed.

(** A pore space that the biomass fills conducts nothing: under the van
    Genuchten family with the clement, okubo_and_matsumoto or vandevivere
    model, a biomass concentration that is not below the dry density gives a
    conductivity of zero, for a finite saturated conductivity. *)
Theorem clogged_pores_conduct_nothing pow exp hp h bc bd model :
  type_of_hydraulic_properties hp = van_genuchten_1980 ->
  In model ["clement"; "okubo_and_matsumoto"; "vandevivere"] ->
  (bc / bd <? 1) = false ->
  is_nan (hydraulic_conductivity_saturated hp) = false ->
  is_infinity (hydraulic_conductivity_saturated hp) = false ->
  exists k, get_hydraulic_conductivity pow exp hp h bc bd model = Ok k
            /\ (k =? 0) = true.
Proof.
  intros Hvg Hm Hratio Hn Hi.
  unfold get_hydraulic_conductivity, get_effective_total_saturation. cbv zeta.
  rewrite Hvg. change (String.eqb van_genuchten_1980 haverkamp_et_al_1977) with false.
  rewrite String.eqb_refl. cbv iota. simpl bind. unfold relative_permeability.
  destruct Hm as [<-|[<-|[<-|[]]]]; cbn [String.eqb Ascii.eqb Bool.eqb];
    rewrite Hratio; simpl bind;
    (eexists; split; [reflexivity|apply mul_zero_finite; assumption]).
Qed.

Lemma clogged_pores_conduct_nothing_witness :
  exists k,
    get_hydraulic_conductivity pow_not_called exp_not_called sand_van_genuchten 5 3 2
      "clement" = Ok k
    /\ (k =? 0) = true.
Proof.
  exact (clogged_pores_conduct_nothing pow_not_called exp_not_called sand_van_genuchten
           5 3 2 "clement" eq_refl (or_introl eq_refl) eq_refl eq_refl eq_refl).
Defined.

End HydraulicSpec.

(** * The claim on the transport assembly *)

Module TransportSpec.

Import Transport IEEE.

Section Guards.

Variable tanh : float -> float.
Variables dispersivity_longitudinal effective_diffusion_coefficient : float.

Local Abbreviation stabilization :=
  (cell_stabilization tanh dispersivity_longitudinal effective_diffusion_coefficient).
Local Abbreviation parameters_of :=
  (supg tanh dispersivity_longitudinal effective_diffusion_coefficient).
Local Abbreviation is_degenerate :=
  (cell_degenerate tanh dispersivity_longitudinal effective_diffusion_coefficient).
Local Abbreviation assemble :=
  (assemble_system_transport tanh dispersivity_longitudinal
     effective_diffusion_coefficient).

Lemma norm_not_negative v : (norm v <? 0) = false.
Proof. apply sqrt_not_negative. Qed.

Lemma norm_square_tensor_zero v : norm_square (tensor_zero v) = 0.
Proof.
  unfold norm_square, tensor_zero. induction v as [|x v IH]; [reflexivity|].
  simpl. change (0 + 0 * 0) with 0. exact IH.
Qed.

Lemma norm_tensor_zero v : norm (tensor_zero v) = 0.
Proof. unfold norm. rewrite norm_square_tensor_zero. reflexivity. Qed.

Lemma small_norm_not_degenerate v :
  (norm v <? 1E-6) = true -> degenerate (norm v) = false.
Proof.
  intros H. unfold degenerate.
  destruct (below_is_finite _ _ (norm_not_negative v) H) as [-> ->].
  rewrite norm_not_negative. reflexivity.
Qed.

(** The velocities that the guards read are degenerate exactly when the new
    average is, or the old one next to a new velocity that is not below the
    threshold of the adjustment. *)
Lemma cell_degenerate_average c :
  is_degenerate c
  = moving_average_degenerate tanh dispersivity_longitudinal
      effective_diffusion_coefficient c.
Proof.
  unfold cell_degenerate, moving_average_degenerate.
  destruct (supg tanh dispersivity_longitudinal effective_diffusion_coefficient c)
    as [[P b] t].
  unfold cell_velocities.
  set (nv := new_velocity_average c). set (ov := old_velocity_average c).
  destruct (norm nv <? 1E-6) eqn:Hn; cbn [fst snd negb andb].
  - rewrite !norm_tensor_zero.
    change (1E-6 <=? 0) with false. cbn [andb fst snd].
    rewrite !norm_tensor_zero.
    rewrite (small_norm_not_degenerate nv Hn). reflexivity.
  - destruct ((1E-6 <=? norm nv) && (norm ov <? 1E-6)) eqn:Ho; cbn [fst snd].
    + apply andb_true_iff in Ho. destruct Ho as [_ Ho].
      rewrite (small_norm_not_degenerate ov Ho).
      destruct (degenerate (norm nv)); reflexivity.
    + reflexivity.
Qed.

Ltac case_guard b :=
  destruct b eqn:?; cbn [orb andb negb] in *; try reflexivity; try discriminate.

(** A cell throws exactly when one of its five quantities is degenerate. *)
Lemma cell_stabilization_throws c :
  is_degenerate c = true -> stabilization c = Throw (-1).
Proof.
  unfold cell_degenerate, cell_stabilization, degenerate, is_finite.
  rewrite !norm_not_negative.
  set (nv := norm (fst (cell_velocities c))). set (ov := norm (snd (cell_velocities c))).
  destruct (supg tanh dispersivity_longitudinal effective_diffusion_coefficient c)
    as [[P b] t].
  intros H.
  case_guard (is_nan nv). case_guard (is_nan ov).
  case_guard (is_infinity nv). case_guard (is_infinity ov).
  case_guard (P <? 0). case_guard (b <? 0). case_guard (t <? 0).
  case_guard (is_nan P). case_guard (is_nan b). case_guard (is_nan t).
  case_guard (is_infinity P). case_guard (is_infinity b). case_guard (is_infinity t).
Qed.

Lemma cell_stabilization_returns c :
  is_degenerate c = false ->
  exists s, stabilization c = Ok s
            /\ parameters_of c = (Peclet s, beta s, tau s)
            /\ new_velocity s = fst (cell_velocities c)
            /\ old_velocity s = snd (cell_velocities c)
            /\ finite_nonneg (Peclet s) = true
            /\ finite_nonneg (beta s) = true
            /\ finite_nonneg (tau s) = true.
Proof.
  unfold cell_degenerate, cell_stabilization, degenerate, finite_nonneg, is_finite.
  rewrite !norm_not_negative.
  set (nv := norm (fst (cell_velocities c))). set (ov := norm (snd (cell_velocities c))).
  destruct (supg tanh dispersivity_longitudinal effective_diffusion_coefficient c)
    as [[P b] t].
  intros H.
  destruct (is_nan nv) eqn:?; cbn [orb andb negb] in *; try discriminate.
  destruct (is_infinity nv) eqn:?; cbn [orb andb negb] in *; try discriminate.
  destruct (is_nan ov) eqn:?; cbn [orb andb negb] in *; try discriminate.
  destruct (is_infinity ov) eqn:?; cbn [orb andb negb] in *; try discriminate.
  destruct (is_nan P) eqn:HP; cbn [orb andb negb] in *; try discriminate.
  destruct (is_infinity P) eqn:HPi; cbn [orb andb negb] in *; try discriminate.
  destruct (P <? 0) eqn:HP0; cbn [orb andb negb] in *; try discriminate.
  destruct (is_nan b) eqn:Hb; cbn [orb andb negb] in *; try discriminate.
  destruct (is_infinity b) eqn:Hbi; cbn [orb andb negb] in *; try discriminate.
  destruct (b <? 0) eqn:Hb0; cbn [orb andb negb] in *; try discriminate.
  destruct (is_nan t) eqn:Ht; cbn [orb andb negb] in *; try discriminate.
  destruct (is_infinity t) eqn:Hti; cbn [orb andb negb] in *; try discriminate.
  destruct (t <? 0) eqn:Ht0; cbn [orb andb negb] in *; try discriminate.
  eexists. split; [reflexivity|]. cbn [Peclet beta tau new_velocity old_velocity].
  repeat (split; [reflexivity|]).
  assert (Z0 : is_nan 0 = false) by reflexivity.
  rewrite (ltb_false_leb P 0 HP Z0 HP0), (ltb_false_leb b 0 Hb Z0 Hb0),
    (ltb_false_leb t 0 Ht Z0 Ht0).
  rewrite HP, HPi, Hb, Hbi, Ht, Hti. repeat split.
Qed.

Lemma cell_stabilization_cases c :
  (is_degenerate c = true /\ stabilization c = Throw (-1))
  \/ (is_degenerate c = false /\ exists s, stabilization c = Ok s).
Proof.
  destruct (is_degenerate c) eqn:E.
  - left. split; [reflexivity|]. apply cell_stabilization_throws. exact E.
  - right. split; [reflexivity|].
    destruct (cell_stabilization_returns c E) as (s & Hs & _). eauto.
Qed.

(** The assembly throws as soon as a cell is degenerate in what the guards
    read, it throws in no other case, and when it returns, the Peclet
    number, beta and tau of every cell are finite and not negative. *)
Lemma assembly_guards cells :
  (forall c,
     In c cells ->
     cell_degenerate tanh dispersivity_longitudinal effective_diffusion_coefficient c
     = true ->
     assemble_system_transport tanh dispersivity_longitudinal
       effective_diffusion_coefficient cells = Throw (-1))
  /\ (forall stabs,
        assemble_system_transport tanh dispersivity_longitudinal
          effective_diffusion_coefficient cells = Ok stabs ->
        Forall2
          (fun c s =>
             supg tanh dispersivity_longitudinal effective_diffusion_coefficient c
             = (Peclet s, beta s, tau s)
             /\ finite_nonneg (Peclet s) = true
             /\ finite_nonneg (beta s) = true
             /\ finite_nonneg (tau s) = true) cells stabs)
  /\ (forall code,
        assemble_system_transport tanh dispersivity_longitudinal
          effective_diffusion_coefficient cells = Throw code ->
        code = (-1)%Z
        /\ exists c,
             In c cells
             /\ cell_degenerate tanh dispersivity_longitudinal
                  effective_diffusion_coefficient c = true).
Proof.
  induction cells as [|c rest IH]; simpl assemble_system_transport.
  - split; [intros c []|]. split; [intros stabs H; injection H as <-; constructor|].
    intros code H; discriminate.
  - destruct IH as (IH1 & IH2 & IH3).
    destruct (cell_stabilization_cases c) as [[Hd Hs]|[Hd (s & Hs)]]; rewrite Hs; simpl bind.
    + split; [reflexivity|]. split; [intros stabs H; discriminate|].
      intros code H. injection H as <-. split; [reflexivity|].
      exists c. split; [left; reflexivity|exact Hd].
    + destruct (cell_stabilization_returns c Hd) as (s' & Hs' & Hp & _ & _ & H1 & H2 & H3).
      rewrite Hs in Hs'. injection Hs' as <-.
      destruct (assemble_system_transport tanh dispersivity_longitudinal
                  effective_diffusion_coefficient rest) as [l|code'] eqn:E; simpl bind.
      * split; [|split].
        -- intros c' [<-|Hin] Hdeg; [congruence|].
           specialize (IH1 c' Hin Hdeg). discriminate.
        -- intros stabs H. injection H as <-. constructor; [auto|]. apply IH2. reflexivity.
        -- intros code H. discriminate.
      * split; [|split].
        -- intros c' _ _. destruct (IH3 code' eq_refl) as [-> _]. reflexivity.
        -- intros stabs H. discriminate.
        -- intros code H. injection H as <-. destruct (IH3 code' eq_refl) as [-> (c' & Hin & Hdeg)].
           split; [reflexivity|]. exists c'. split; [right; exact Hin|exact Hdeg].
Qed.

(** C5 (as amended).  The assembly throws as soon as, in some cell, the
    new cell-averaged velocity norm, the old one next to a new velocity norm
    that is not below 1e-6, the Peclet number, beta or tau is not finite or
    is negative; it throws in no other case; and when it returns, the Peclet
    number, beta and tau of every cell are finite and not negative. *)
Theorem transport_assembly_guards cells :
  (forall c,
     In c cells ->
     moving_average_degenerate tanh dispersivity_longitudinal
       effective_diffusion_coefficient c = true ->
     assemble_system_transport tanh dispersivity_longitudinal
       effective_diffusion_coefficient cells = Throw (-1))
  /\ (forall stabs,
        assemble_system_transport tanh dispersivity_longitudinal
          effective_diffusion_coefficient cells = Ok stabs ->
        Forall2
          (fun c s =>
             supg tanh dispersivity_longitudinal effective_diffusion_coefficient c
             = (Peclet s, beta s, tau s)
             /\ finite_nonneg (Peclet s) = true
             /\ finite_nonneg (beta s) = true
             /\ finite_nonneg (tau s) = true) cells stabs)
  /\ (forall code,
        assemble_system_transport tanh dispersivity_longitudinal
          effective_diffusion_coefficient cells = Throw code ->
        code = (-1)%Z
        /\ exists c,
             In c cells
             /\ moving_average_degenerate tanh dispersivity_longitudinal
                  effective_diffusion_coefficient c = true).
Proof.
  destruct (assembly_guards cells) as (H1 & H2 & H3).
  split; [|split].
  - intros c Hin Hd. apply (H1 c Hin). rewrite cell_degenerate_average. exact Hd.
  - exact H2.
  - intros code H. destruct (H3 code H) as (Hc & c & Hin & Hd).
    split; [exact Hc|]. exists c. split; [exact Hin|].
    rewrite <- cell_degenerate_average. exact Hd.
Qed.

End Guards.

(** Two cells at rest assemble; a cell whose volume is 0 does not. *)
Definition tanh_not_called (x : float) : float := nan.

Definition cell_at_rest : Cell :=
  {| new_velocity_sum := [0; 0]; old_velocity_sum := [0; 0]; dV := 1; diameter := 0.5 |}.

Definition cell_without_volume : Cell :=
  {| new_velocity_sum := [0; 0]; old_velocity_sum := [0; 0]; dV := 0; diameter := 0.5 |}.

Example assembly_of_cells_at_rest :
  assemble_system_transport tanh_not_called 0.1 1E-5 [cell_at_rest; cell_at_rest]
  = Ok [ {| new_velocity := [0; 0]; old_velocity := [0; 0];
            Peclet := 0; beta := 0; tau := 0 |};
         {| new_velocity := [0; 0]; old_velocity := [0; 0];
            Peclet := 0; beta := 0; tau := 0 |} ].
Proof. reflexivity. Qed.

Example assembly_of_cell_without_volume :
  cell_degenerate tanh_not_called 0.1 1E-5 cell_without_volume = true
  /\ assemble_system_transport tanh_not_called 0.1 1E-5 [cell_at_rest; cell_without_volume]
     = Throw (-1).
Proof. split; reflexivity. Qed.

Definition cell_at_rest_with_stale_velocity : Cell :=
  {| new_velocity_sum := [0; 0]; old_velocity_sum := [nan; 0]; dV := 1; diameter := 0.5 |}.

(** C5 as it is stated fails: next to a new velocity below 1e-6 the old
    velocity is set to zero before it is tested, so a cell whose old
    cell-averaged velocity norm is not a number assembles. *)
Lemma stale_old_velocity_does_not_throw :
  is_nan (norm (old_velocity_average cell_at_rest_with_stale_velocity)) = true
  /\ average_degenerate tanh_not_called 0.1 1E-5 cell_at_rest_with_stale_velocity = true
  /\ assemble_system_transport tanh_not_called 0.1 1E-5 [cell_at_rest_with_stale_velocity]
     = Ok [ {| new_velocity := [0; 0]; old_velocity := [0; 0];
               Peclet := 0; beta := 0; tau := 0 |} ].
Proof. repeat split. Qed.

(** A cell at rest assembles without stabilisation: when the norm of the new
    cell-averaged velocity is below 1e-6, both velocities are taken as zero
    and the Peclet number, beta and tau are 0, whatever the old velocity,
    the diameter and the diffusion parameters. *)
Theorem cell_at_rest_assembles tanh a D c :
  (norm (new_velocity_average c) <? 1E-6) = true ->
  cell_stabilization tanh a D c
  = Ok {| new_velocity := tensor_zero (new_velocity_average c);
          old_velocity := tensor_zero (old_velocity_average c);
          Peclet := 0; beta := 0; tau := 0 |}.
Proof.
  intros Hn.
  assert (Hv : cell_velocities c
               = (tensor_zero (new_velocity_average c),
                  tensor_zero (old_velocity_average c))).
  { unfold cell_velocities. rewrite Hn. cbn [fst snd].
    rewrite (norm_tensor_zero (new_velocity_average c)). reflexivity. }
  unfold cell_stabilization, supg, new_diffusion_value, old_diffusion_value.
  rewrite Hv. cbn [fst snd]. rewrite !norm_tensor_zero. reflexivity.
Qed.

Lemma cell_at_rest_assembles_witness :
  cell_stabilization tanh_not_called 0.1 1E-5 cell_at_rest_with_stale_velocity
  = Ok {| new_velocity := [0; 0]; old_velocity := [0; 0];
          Peclet := 0; beta := 0; tau := 0 |}.
Proof.
  exact (cell_at_rest_assembles tanh_not_called 0.1 1E-5 cell_at_rest_with_stale_velocity
           eq_refl).
Defined.

End TransportSpec.

(** * The claims on the Picard loop and on the controller *)

Module RunSpec.

Import Run IEEE.

(** ** What a pass and the rest of a time step leave untouched *)

Definition controls (hp : Heat_Pipe) : bool * bool * bool * bool * bool * bool * bool :=
  (solve_flow hp, transient_drying hp, transient_saturation hp, transient_transport hp,
   test_transport hp, coupled_transport hp, redefine_time_step hp).

Lemma controls_inv hp hp' :
  controls hp = controls hp' ->
  solve_flow hp = solve_flow hp'
  /\ transient_drying hp = transient_drying hp'
  /\ transient_saturation hp = transient_saturation hp'
  /\ transient_transport hp = transient_transport hp'
  /\ test_transport hp = test_transport hp'
  /\ coupled_transport hp = coupled_transport hp'
  /\ redefine_time_step hp = redefine_time_step hp'.
Proof. unfold controls. intros H. injection H. intros. repeat split; assumption. Qed.

Lemma restart_controls p : controls (this (restart p)) = controls (this p).
Proof. unfold restart. destruct (stalled p); reflexivity. Qed.

Lemma restart_step p : step (restart p) = step p.
Proof. unfold restart. destruct (stalled p); reflexivity. Qed.

Lemma restart_remain p : remain_in_loop (restart p) = remain_in_loop p.
Proof. unfold restart. destruct (stalled p); reflexivity. Qed.

Lemma restart_old_norm_transport p : old_norm_transport (restart p) = old_norm_transport p.
Proof. unfold restart. destruct (stalled p); reflexivity. Qed.

Lemma picard_body_controls fe p p' :
  picard_body fe p = Ok p' -> controls (this p') = controls (this p).
Proof.
  unfold picard_body. destruct (fe _ _) as [s|c]; simpl bind; [|discriminate].
  intros H. injection H as <-. cbn [this]. rewrite <- (restart_controls p). reflexivity.
Qed.

Lemma picard_loop_controls fuel fe : forall p p',
  picard_loop fuel fe p = Some (Ok p') -> controls (this p') = controls (this p).
Proof.
  induction fuel as [|fuel IH]; intros p p'; simpl; [discriminate|].
  destruct (picard_body fe p) as [q|c] eqn:E; [|discriminate].
  pose proof (picard_body_controls fe p q E) as Hq.
  destruct (remain_in_loop q).
  - intros H. rewrite (IH _ _ H). exact Hq.
  - intros H. injection H as <-. exact Hq.
Qed.

(** ** C1: the exit of the Picard loop *)

(** The passes the loop of one time step goes through, from the locals as
    initialised. *)
Inductive in_loop (fe : Solver) (hp0 : Heat_Pipe) : Picard -> Prop :=
| in_loop_first : in_loop fe hp0 (picard_init hp0)
| in_loop_next p p' :
    in_loop fe hp0 p -> picard_body fe p = Ok p' -> remain_in_loop p' = true ->
    in_loop fe hp0 p'.

Lemma in_loop_invariant fe hp0 p :
  in_loop fe hp0 p ->
  controls (this p) = controls hp0
  /\ remain_in_loop p = true
  /\ (transport_is_solved hp0 = false -> relative_error_transport p = 0).
Proof.
  induction 1 as [|p p' Hin (IHc & IHr & IHt) Hbody Hrem].
  - repeat split.
  - pose proof (picard_body_controls fe p p' Hbody) as Hc.
    split; [congruence|]. split; [exact Hrem|].
    intros Hoff. specialize (IHt Hoff).
    unfold picard_body in Hbody. destruct (fe _ _) as [s|c]; simpl bind in Hbody; [|discriminate].
    injection Hbody as <-. cbn [relative_error_transport].
    assert (E : transport_is_solved (this (restart p)) = false).
    { destruct (controls_inv _ _ (restart_controls p)) as (_ & _ & _ & R1 & R2 & R3 & _).
      destruct (controls_inv _ _ IHc) as (_ & _ & _ & I1 & I2 & I3 & _).
      unfold transport_is_solved in *. rewrite R1, R2, R3, I1, I2, I3. exact Hoff. }
    rewrite E. unfold restart. destruct (stalled p); [reflexivity|exact IHt].
Qed.





(** A column that starts drying, and the solver of a time step whose every
    pass returns the same iterate. *)
Definition column : AllParameters :=
  {| initial_state := "default";
     param_time_step := 1;
     timestep_number_max := 100;
     test_function_transport := false;
     param_coupled_transport := true;
     richards_bottom_fixed_value := 150;
     domain_size := 100;
     richards_fixed_at_top := false;
     output_frequency_transport := 60;
     initial_condition_homogeneous_bacteria := 0.5;
     biomass_dry_density := 3 |}.

Definition steady : Solve :=
  {| flow_old_norm_sqr := 4;
     flow_new_norm_sqr := 4;
     transport_norm_sqr := 1;
     solved_flow_at_top := 0.5;
     solved_flow_at_bottom := -0.25;
     solved_nutrient_flow_at_top := 0;
     solved_nutrient_flow_at_bottom := 0;
     solved_nutrients_in_domain := 0 |}.

Definition steady_solver : Solver := fun _ _ => Ok steady.

Definition drying_column : Heat_Pipe :=
  set_timestep_number (constructed column 3 (true, false, false)) 1.


(** The loop of that time step ends with its second pass. *)
Example picard_loop_of_steady_solver :
  option_map (fun r => match r with Ok p => Some (step p, iteration p) | Throw _ => None end)
    (picard_loop 5 steady_solver (picard_init drying_column))
  = Some (Some (2%Z, 2%Z)).
Proof. reflexivity. Qed.

(** ** The step size that the update leaves *)



Lemma update_timestep_controls st hp :
  transient_drying (update_timestep st hp) = transient_drying hp
  /\ transient_saturation (update_timestep st hp) = transient_saturation hp
  /\ transient_transport (update_timestep st hp) = transient_transport hp
  /\ test_transport (update_timestep st hp) = test_transport hp
  /\ coupled_transport (update_timestep st hp) = coupled_transport hp.
Proof. unfold update_timestep. destruct (negb _); repeat split. Qed.

Lemma output_solution_controls prm hp :
  transient_drying (output_solution prm hp) = transient_drying hp
  /\ transient_saturation (output_solution prm hp) = transient_saturation hp
  /\ transient_transport (output_solution prm hp) = transient_transport hp
  /\ test_transport (output_solution prm hp) = test_transport hp
  /\ coupled_transport (output_solution prm hp) = coupled_transport hp
  /\ redefine_time_step (output_solution prm hp) = redefine_time_step hp
  /\ time_step (output_solution prm hp) = time_step hp
  /\ time (output_solution prm hp) = time hp
  /\ milestone_time (output_solution prm hp) = milestone_time hp
  /\ time_for_dry_conditions (output_solution prm hp) = time_for_dry_conditions hp.
Proof. unfold output_solution. destruct (output_is_due prm hp); repeat split. Qed.

(** The state in which [update_timestep] finds the object. *)
Definition before_update (prm : AllParameters) (pressure_at_top : float) (p : Picard)
  : Heat_Pipe :=
  output_solution prm (choose_period prm pressure_at_top (advance_time (this p))).

Lemma commit_time_step_eq prm pressure_at_top p :
  commit_time_step prm pressure_at_top p
  = set_timestep_number
      (update_timestep (step p) (before_update prm pressure_at_top p))
      (uint_incr (timestep_number
                    (update_timestep (step p) (before_update prm pressure_at_top p)))).
Proof. reflexivity. Qed.

Lemma begin_saturation_test pressure_at_top prm hp :
  test_transport (begin_saturation prm pressure_at_top hp) = test_transport hp
  /\ coupled_transport (begin_saturation prm pressure_at_top hp) = coupled_transport hp
  /\ transient_transport (begin_saturation prm pressure_at_top hp) = transient_transport hp
  /\ time (begin_saturation prm pressure_at_top hp) = time hp
  /\ time_step (begin_saturation prm pressure_at_top hp) = time_step hp.
Proof. unfold begin_saturation. destruct (_ && _); repeat split. Qed.

Lemma begin_transport_test prm hp :
  test_transport (begin_transport prm hp) = test_transport hp
  /\ coupled_transport (begin_transport prm hp) = coupled_transport hp
  /\ transient_drying (begin_transport prm hp) = transient_drying hp
  /\ time (begin_transport prm hp) = time hp
  /\ time_step (begin_transport prm hp) = time_step hp
  /\ time_for_dry_conditions (begin_transport prm hp) = time_for_dry_conditions hp.
Proof. unfold begin_transport. destruct (_ && _ && _); repeat split. Qed.

(** Whether one of the two transitions fires, on the state after
    [advance_time]. *)
Definition saturation_begins (prm : AllParameters) (pressure_at_top : float)
  (hp : Heat_Pipe) : bool :=
  negb (test_transport hp) && transient_drying hp
  && dry_conditions_reached prm pressure_at_top.

Definition transport_begins (prm : AllParameters) (pressure_at_top : float)
  (hp : Heat_Pipe) : bool :=
  negb (test_transport hp)
  && (transient_saturation hp || saturation_begins prm pressure_at_top hp)
  && coupled_transport hp
  && saturated_conditions_reached prm hp.

Lemma saturated_conditions_reached_begin_saturation prm pressure_at_top hp :
  saturated_conditions_reached prm (begin_saturation prm pressure_at_top hp)
  = saturated_conditions_reached prm hp.
Proof. unfold begin_saturation. destruct (_ && _); reflexivity. Qed.

Lemma choose_period_flags prm pressure_at_top hp :
  let hp' := choose_period prm pressure_at_top hp in
  transient_drying hp'
  = (if saturation_begins prm pressure_at_top hp then false else transient_drying hp)
  /\ transient_saturation hp'
     = (if transport_begins prm pressure_at_top hp then false
        else if saturation_begins prm pressure_at_top hp then true
             else transient_saturation hp)
  /\ transient_transport hp'
     = (if transport_begins prm pressure_at_top hp then true else transient_transport hp)
  /\ redefine_time_step hp'
     = (if saturation_begins prm pressure_at_top hp
           || transport_begins prm pressure_at_top hp
        then true else redefine_time_step hp)
  /\ test_transport hp' = test_transport hp
  /\ coupled_transport hp' = coupled_transport hp
  /\ time hp' = time hp
  /\ time_step hp' = time_step hp.
Proof.
  cbv zeta. unfold choose_period, transport_begins, saturation_begins.
  destruct (test_transport hp) eqn:Htest; cbn [negb andb orb].
  - rewrite Htest. repeat split.
  - unfold begin_transport.
    rewrite saturated_conditions_reached_begin_saturation.
    unfold begin_saturation.
    destruct (transient_drying hp) eqn:Hd; cbn [andb orb];
      destruct (dry_conditions_reached prm pressure_at_top) eqn:Hdry;
      cbn [andb orb transient_saturation coupled_transport];
      destruct (transient_saturation hp) eqn:Hs; cbn [andb orb];
      destruct (coupled_transport hp) eqn:Hc; cbn [andb orb];
      destruct (saturated_conditions_reached prm hp) eqn:Hsat; cbn [andb orb];
      cbn [transient_drying transient_saturation transient_transport redefine_time_step
           test_transport coupled_transport time time_step];
      rewrite ?Hd, ?Hs, ?Hc, ?Htest; repeat split.
Qed.


(** ** C3: one phase at a time, and only forward *)

Lemma phase_of_count hp ph :
  phase_of hp = Some ph ->
  (Nat.b2n (transient_drying hp) + Nat.b2n (transient_saturation hp)
   + Nat.b2n (transient_transport hp) = 1)%nat.
Proof.
  unfold phase_of.
  destruct (transient_drying hp), (transient_saturation hp), (transient_transport hp);
    intros H; try discriminate; reflexivity.
Qed.

Lemma constructor_phase prm n_dofs hp :
  constructor prm n_dofs = Ok hp -> exists ph, phase_of hp = Some ph.
Proof.
  unfold constructor, initial_phase.
  destruct (_ || _); [|destruct (String.eqb _ "dry");
                        [|destruct (String.eqb _ "saturated");
                           [|destruct (String.eqb _ "no_drying")]]];
    simpl bind; intros H; try discriminate; injection H as <-;
    unfold phase_of; cbn; eauto.
Qed.

Lemma time_step_once_flags prm fuel fe pressure_at_top hp hp' :
  time_step_once prm fuel fe pressure_at_top hp = Some (Ok hp') ->
  exists p,
    picard_loop fuel fe (picard_init hp) = Some (Ok p)
    /\ hp' = commit_time_step prm pressure_at_top p
    /\ controls (this p) = controls hp.
Proof.
  unfold time_step_once.
  destruct (picard_loop fuel fe (picard_init hp)) as [[p|c]|] eqn:E; try discriminate.
  intros H. injection H as <-. exists p. split; [reflexivity|]. split; [reflexivity|].
  apply (picard_loop_controls fuel fe _ _ E).
Qed.

Lemma commit_time_step_flags prm pressure_at_top p :
  transient_drying (commit_time_step prm pressure_at_top p)
  = (if saturation_begins prm pressure_at_top (this p) then false
     else transient_drying (this p))
  /\ transient_saturation (commit_time_step prm pressure_at_top p)
     = (if transport_begins prm pressure_at_top (this p) then false
        else if saturation_begins prm pressure_at_top (this p) then true
             else transient_saturation (this p))
  /\ transient_transport (commit_time_step prm pressure_at_top p)
     = (if transport_begins prm pressure_at_top (this p) then true
        else transient_transport (this p)).
Proof.
  pose proof (choose_period_flags prm pressure_at_top (advance_time (this p))) as Hcp.
  cbv zeta in Hcp. destruct Hcp as (Cd & Cs & Ct & _).
  destruct (output_solution_controls prm
              (choose_period prm pressure_at_top (advance_time (this p))))
    as (Od & Os & Ot & _).
  rewrite commit_time_step_eq. unfold before_update.
  cbn [set_timestep_number transient_drying transient_saturation transient_transport].
  destruct (update_timestep_controls (step p)
              (output_solution prm
                 (choose_period prm pressure_at_top (advance_time (this p)))))
    as (U1 & U2 & U3 & _).
  rewrite U1, U2, U3, Od, Os, Ot, Cd, Cs, Ct. repeat split.
Qed.

Lemma commit_time_step_phase prm pressure_at_top p ph :
  phase_of (this p) = Some ph ->
  exists ph', phase_of (commit_time_step prm pressure_at_top p) = Some ph'
              /\ (phase_rank ph <= phase_rank ph')%nat.
Proof.
  destruct (commit_time_step_flags prm pressure_at_top p) as (Fd & Fs & Ft).
  unfold phase_of. rewrite Fd, Fs, Ft.
  unfold transport_begins, saturation_begins.
  destruct (transient_drying (this p)), (transient_saturation (this p)),
    (transient_transport (this p)); intros H; try discriminate; injection H as <-;
    destruct (negb (test_transport (this p))), (dry_conditions_reached prm pressure_at_top),
      (coupled_transport (this p)), (saturated_conditions_reached prm (this p));
    cbn; eexists; (split; [reflexivity|cbn; lia]).
Qed.

Lemma phase_of_controls hp hp' :
  controls hp = controls hp' -> phase_of hp = phase_of hp'.
Proof.
  intros H. destruct (controls_inv _ _ H) as (_ & H1 & H2 & H3 & _).
  unfold phase_of. rewrite H1, H2, H3. reflexivity.
Qed.

Lemma time_step_once_phase prm fuel fe pressure_at_top hp hp' ph :
  phase_of hp = Some ph ->
  time_step_once prm fuel fe pressure_at_top hp = Some (Ok hp') ->
  exists ph', phase_of hp' = Some ph' /\ (phase_rank ph <= phase_rank ph')%nat.
Proof.
  intros Hph Hstep.
  destruct (time_step_once_flags prm fuel fe pressure_at_top hp hp' Hstep)
    as (p & _ & -> & Hc).
  apply commit_time_step_phase. rewrite (phase_of_controls _ _ Hc). exact Hph.
Qed.

Lemma reachable_phase prm hp :
  reachable prm hp -> exists ph, phase_of hp = Some ph.
Proof.
  induction 1 as [n hp Hc|hp fuel fe q hp' Hr [ph IH] _ Hstep].
  - destruct (constructor_phase prm n hp Hc) as [ph Hph]. exists ph. exact Hph.
  - destruct (time_step_once_phase prm fuel fe q hp hp' ph IH Hstep) as (ph' & H' & _).
    eauto.
Qed.

(** C3.  In every state [run()] reaches, exactly one of the three phase
    flags is true, and a committed time step leaves the phase where it was
    or moves it forward in the order drying, saturation, transport. *)
Theorem phase_is_one_way prm hp :
  reachable prm hp ->
  (Nat.b2n (transient_drying hp) + Nat.b2n (transient_saturation hp)
   + Nat.b2n (transient_transport hp) = 1)%nat
  /\ exists ph,
       phase_of hp = Some ph
       /\ forall fuel fe pressure_at_top hp',
            time_step_once prm fuel fe pressure_at_top hp = Some (Ok hp') ->
            exists ph', phase_of hp' = Some ph'
                        /\ (phase_rank ph <= phase_rank ph')%nat.
Proof.
  intros Hr. destruct (reachable_phase prm hp Hr) as [ph Hph].
  split; [apply (phase_of_count hp ph Hph)|].
  exists ph. split; [exact Hph|].
  intros fuel fe q hp'. apply time_step_once_phase. exact Hph.
Qed.

Definition after_first_step : Heat_Pipe :=
  match time_step_once column 5 steady_solver 50 drying_column with
  | Some (Ok hp) => hp
  | _ => drying_column
  end.

Lemma phase_is_one_way_witness :
  (Nat.b2n (transient_drying drying_column) + Nat.b2n (transient_saturation drying_column)
   + Nat.b2n (transient_transport drying_column) = 1)%nat
  /\ exists ph ph',
       phase_of drying_column = Some ph
       /\ phase_of after_first_step = Some ph'
       /\ (phase_rank ph <= phase_rank ph')%nat.
Proof.
  destruct (phase_is_one_way column drying_column
              (reachable_start column 3 (constructed column 3 (true, false, false))
                 eq_refl))
    as (H & ph & Hph & Hstep).
  split; [exact H|].
  destruct (Hstep 5%nat steady_solver 50 after_first_step eq_refl) as (ph' & H1 & H2).
  exists ph, ph'. auto.
Defined.

(** ** C2: the step size of the states [run()] reaches *)









(** ** C4: the end of the drying phase *)

Lemma commit_time_step_time prm pressure_at_top p :
  time (commit_time_step prm pressure_at_top p) = time (this p) + time_step (this p).
Proof.
  pose proof (choose_period_flags prm pressure_at_top (advance_time (this p))) as Hcp.
  cbv zeta in Hcp. destruct Hcp as (_ & _ & _ & _ & _ & _ & Cti & _).
  destruct (output_solution_controls prm
              (choose_period prm pressure_at_top (advance_time (this p))))
    as (_ & _ & _ & _ & _ & _ & _ & Oti & _).
  rewrite commit_time_step_eq. unfold before_update. cbn [set_timestep_number time].
  unfold update_timestep. destruct (negb _); cbn [time]; rewrite Oti, Cti; reflexivity.
Qed.

Lemma update_timestep_clock st hp :
  time (update_timestep st hp) = time hp
  /\ milestone_time (update_timestep st hp) = milestone_time hp
  /\ time_for_dry_conditions (update_timestep st hp) = time_for_dry_conditions hp.
Proof. unfold update_timestep. destruct (negb _); repeat split. Qed.

Lemma begin_transport_milestone prm hp :
  milestone_time (begin_transport prm hp) = milestone_time hp
  \/ milestone_time (begin_transport prm hp) = time hp.
Proof. unfold begin_transport. destruct (_ && _ && _); [right|left]; reflexivity. Qed.

Lemma begin_saturation_fires prm pressure_at_top hp :
  transient_drying hp = true -> dry_conditions_reached prm pressure_at_top = true ->
  transient_saturation (begin_saturation prm pressure_at_top hp) = true
  /\ figure_count (begin_saturation prm pressure_at_top hp) = 0%Z
  /\ time_for_dry_conditions (begin_saturation prm pressure_at_top hp) = time hp
  /\ milestone_time (begin_saturation prm pressure_at_top hp) = time hp.
Proof. intros Hd Hdry. unfold begin_saturation. rewrite Hd, Hdry. repeat split. Qed.

Lemma commit_time_step_milestones prm pressure_at_top p :
  test_transport (this p) = false -> transient_drying (this p) = true ->
  dry_conditions_reached prm pressure_at_top = true ->
  time_for_dry_conditions (commit_time_step prm pressure_at_top p)
  = time (this p) + time_step (this p)
  /\ milestone_time (commit_time_step prm pressure_at_top p)
     = time (this p) + time_step (this p).
Proof.
  intros Htest Hd Hdry.
  rewrite commit_time_step_eq. unfold before_update.
  cbn [set_timestep_number time_for_dry_conditions milestone_time].
  set (hc := choose_period prm pressure_at_top (advance_time (this p))).
  destruct (update_timestep_clock (step p) (output_solution prm hc)) as (_ & -> & ->).
  destruct (output_solution_controls prm hc) as (_ & _ & _ & _ & _ & _ & _ & _ & -> & ->).
  unfold hc, choose_period. cbn [advance_time test_transport]. rewrite Htest. cbn [negb].
  set (hs := begin_saturation prm pressure_at_top (advance_time (this p))).
  destruct (begin_saturation_fires prm pressure_at_top (advance_time (this p)) Hd Hdry)
    as (_ & _ & S1 & S2).
  fold hs in S1, S2.
  destruct (begin_transport_test prm hs) as (_ & _ & _ & _ & _ & ->).
  destruct (begin_saturation_test pressure_at_top prm (advance_time (this p)))
    as (_ & _ & _ & St & _).
  fold hs in St.
  split; [exact S1|].
  destruct (begin_transport_milestone prm hs) as [->| ->]; [exact S2|exact St].
Qed.

(** C4 (as amended).  With the transport test mode off, a committed time
    step ends an active drying phase exactly when the ratio of the top
    pressure to the fixed bottom pressure less the domain size is within
    3.1e-4 of 1; the transition then sets the figure counter to 0, records
    the current time as the time for dry conditions and as the milestone
    time, begins the saturation phase, and the time step is committed with a
    step size of 1. *)
Theorem drying_ends_at_equilibrium prm pressure_at_top p :
  test_transport (this p) = false -> transient_drying (this p) = true ->
  dry_conditions_reached prm pressure_at_top
  = (abs (1 - pressure_at_top / (richards_bottom_fixed_value prm - domain_size prm))
     <? 3.1E-4)
  /\ transient_drying (commit_time_step prm pressure_at_top p)
     = negb (dry_conditions_reached prm pressure_at_top)
  /\ (dry_conditions_reached prm pressure_at_top = true ->
      transient_saturation (begin_saturation prm pressure_at_top (advance_time (this p)))
      = true
      /\ figure_count (begin_saturation prm pressure_at_top (advance_time (this p))) = 0%Z
      /\ time (commit_time_step prm pressure_at_top p)
         = time (this p) + time_step (this p)
      /\ time_for_dry_conditions (commit_time_step prm pressure_at_top p)
         = time (commit_time_step prm pressure_at_top p)
      /\ milestone_time (commit_time_step prm pressure_at_top p)
         = time (commit_time_step prm pressure_at_top p)
      /\ time_step (commit_time_step prm pressure_at_top p) = 1).
Proof.
  intros Htest Hd. split; [reflexivity|].
  destruct (commit_time_step_flags prm pressure_at_top p) as (Fd & _ & _).
  assert (Hsb : saturation_begins prm pressure_at_top (this p)
                = dry_conditions_reached prm pressure_at_top).
  { unfold saturation_begins. rewrite Htest, Hd. reflexivity. }
  split.
  - rewrite Fd, Hsb, Hd. destruct (dry_conditions_reached prm pressure_at_top); reflexivity.
  - intros Hdry.
    destruct (commit_time_step_milestones prm pressure_at_top p Htest Hd Hdry) as (M1 & M2).
    rewrite commit_time_step_time, M1, M2.
    unfold begin_saturation. cbn [advance_time transient_drying]. rewrite Hd, Hdry.
    cbn [andb transient_saturation figure_count].
    repeat (split; [reflexivity|]).
    (* the step size: the transition redefines it *)
    rewrite commit_time_step_eq. cbn [set_timestep_number time_step].
    pose proof (choose_period_flags prm pressure_at_top (advance_time (this p))) as Hcp.
    cbv zeta in Hcp. destruct Hcp as (_ & _ & _ & Cr & Cte & _).
    destruct (output_solution_controls prm
                (choose_period prm pressure_at_top (advance_time (this p))))
      as (_ & _ & _ & Ote & _ & Or & _).
    fold (before_update prm pressure_at_top p) in Ote, Or.
    unfold update_timestep. rewrite Ote, Cte. cbn [advance_time test_transport].
    rewrite Htest. cbn [negb time_step]. unfold adapted_time_step. rewrite Or, Cr.
    change (saturation_begins prm pressure_at_top (advance_time (this p)))
      with (saturation_begins prm pressure_at_top (this p)).
    rewrite Hsb, Hdry. cbn [orb]. unfold clamped_time_step.
    change (1 <? 1) with false. change (60 <? 1) with false. reflexivity.
Qed.

Lemma drying_ends_at_equilibrium_witness :
  dry_conditions_reached column 50 = true
  /\ transient_drying (commit_time_step column 50 (picard_init drying_column)) = false
  /\ time_step (commit_time_step column 50 (picard_init drying_column)) = 1.
Proof.
  destruct (drying_ends_at_equilibrium column 50 (picard_init drying_column)
              eq_refl eq_refl) as (_ & H2 & H3).
  split; [reflexivity|]. split; [exact H2|]. apply H3. reflexivity.
Defined.

(** The same column in the transport test mode. *)
Definition test_column : AllParameters :=
  {| initial_state := "default";
     param_time_step := 1;
     timestep_number_max := 100;
     test_function_transport := true;
     param_coupled_transport := true;
     richards_bottom_fixed_value := 150;
     domain_size := 100;
     richards_fixed_at_top := false;
     output_frequency_transport := 60;
     initial_condition_homogeneous_bacteria := 0.5;
     biomass_dry_density := 3 |}.

Definition drying_test_column : Heat_Pipe :=
  set_timestep_number (constructed test_column 3 (true, false, false)) 1.

(** C4 as it is stated fails: in the transport test mode the drying phase
    stays active although the top pressure is at its equilibrium value. *)
Lemma drying_never_ends_in_test_mode :
  constructor test_column 3 = Ok (constructed test_column 3 (true, false, false))
  /\ transient_drying drying_test_column = true
  /\ dry_conditions_reached test_column 50 = true
  /\ transient_drying (commit_time_step test_column 50 (picard_init drying_test_column))
     = true
  /\ transient_saturation (commit_time_step test_column 50 (picard_init drying_test_column))
     = false.
Proof. repeat split. Qed.

(** ** C10: the end of the saturation phase without a fixed top pressure *)

(** C10 (as amended).  With the transport test mode off, coupled transport
    on and a top boundary that is not of fixed pressure, both saturation
    error measures are 0 whatever the flows, and a time step that is
    committed with the saturation phase active, or that begins it, ends in
    the transport phase. *)
Theorem saturation_ends_at_once prm pressure_at_top p :
  test_transport (this p) = false -> coupled_transport (this p) = true ->
  richards_fixed_at_top prm = false ->
  transient_saturation (this p) = true
  \/ (transient_drying (this p) = true
      /\ dry_conditions_reached prm pressure_at_top = true) ->
  (forall hp, relative_error_saturation prm hp = 0
              /\ absolute_error_saturation prm hp = 0
              /\ saturated_conditions_reached prm hp = true)
  /\ transient_saturation (commit_time_step prm pressure_at_top p) = false
  /\ transient_transport (commit_time_step prm pressure_at_top p) = true.
Proof.
  intros Htest Hc Hfix Hph.
  assert (Herr : forall hp, relative_error_saturation prm hp = 0
                            /\ absolute_error_saturation prm hp = 0
                            /\ saturated_conditions_reached prm hp = true).
  { intros hp. unfold saturated_conditions_reached, relative_error_saturation,
      absolute_error_saturation. rewrite Hfix. repeat split. }
  split; [exact Herr|].
  destruct (commit_time_step_flags prm pressure_at_top p) as (_ & Fs & Ft).
  assert (Htb : transport_begins prm pressure_at_top (this p) = true).
  { unfold transport_begins, saturation_begins. rewrite Htest, Hc.
    destruct (Herr (this p)) as (_ & _ & ->). cbn [negb andb].
    destruct Hph as [->|[-> ->]]; [reflexivity|].
    destruct (transient_saturation (this p)); reflexivity. }
  rewrite Fs, Ft, Htb. split; reflexivity.
Qed.

Definition dry_column : AllParameters :=
  {| initial_state := "dry";
     param_time_step := 1;
     timestep_number_max := 100;
     test_function_transport := false;
     param_coupled_transport := true;
     richards_bottom_fixed_value := 150;
     domain_size := 100;
     richards_fixed_at_top := false;
     output_frequency_transport := 60;
     initial_condition_homogeneous_bacteria := 0.5;
     biomass_dry_density := 3 |}.

Definition saturating_column : Heat_Pipe :=
  set_timestep_number (constructed dry_column 3 (false, true, false)) 1.

Lemma saturation_ends_at_once_witness :
  transient_saturation (commit_time_step dry_column 30 (picard_init saturating_column))
  = false
  /\ transient_transport (commit_time_step dry_column 30 (picard_init saturating_column))
     = true.
Proof.
  destruct (saturation_ends_at_once dry_column 30 (picard_init saturating_column)
              eq_refl eq_refl eq_refl (or_introl eq_refl)) as (_ & H2 & H3).
  split; [exact H2|exact H3].
Defined.

Definition dry_test_column : AllParameters :=
  {| initial_state := "dry";
     param_time_step := 1;
     timestep_number_max := 100;
     test_function_transport := true;
     param_coupled_transport := true;
     richards_bottom_fixed_value := 150;
     domain_size := 100;
     richards_fixed_at_top := false;
     output_frequency_transport := 60;
     initial_condition_homogeneous_bacteria := 0.5;
     biomass_dry_density := 3 |}.

Definition saturating_test_column : Heat_Pipe :=
  set_timestep_number (constructed dry_test_column 3 (false, true, false)) 1.

(** C10 as it is stated fails: in the transport test mode the saturation
    phase stays active, with coupled transport on and no fixed pressure at
    the top. *)
Lemma saturation_never_ends_in_test_mode :
  constructor dry_test_column 3 = Ok (constructed dry_test_column 3 (false, true, false))
  /\ transient_saturation saturating_test_column = true
  /\ coupled_transport saturating_test_column = true
  /\ richards_fixed_at_top dry_test_column = false
  /\ transient_saturation
       (commit_time_step dry_test_column 30 (picard_init saturating_test_column)) = true
  /\ transient_transport
       (commit_time_step dry_test_column 30 (picard_init saturating_test_column)) = false.
Proof. repeat split. Qed.

(** ** Further properties of the controller *)

(** In the transport test mode a committed time step leaves the three phase
    flags as they are. *)
Theorem test_mode_keeps_phase prm pressure_at_top p :
  test_transport (this p) = true ->
  transient_drying (commit_time_step prm pressure_at_top p) = transient_drying (this p)
  /\ transient_saturation (commit_time_step prm pressure_at_top p)
     = transient_saturation (this p)
  /\ transient_transport (commit_time_step prm pressure_at_top p)
     = transient_transport (this p).
Proof.
  intros Ht. destruct (commit_time_step_flags prm pressure_at_top p) as (Fd & Fs & Ft).
  rewrite Fd, Fs, Ft. unfold transport_begins, saturation_begins. rewrite Ht.
  repeat split.
Qed.

Lemma test_mode_keeps_phase_witness :
  transient_drying (commit_time_step test_column 50 (picard_init drying_test_column)) = true
  /\ transient_saturation (commit_time_step test_column 50 (picard_init drying_test_column))
     = false
  /\ transient_transport (commit_time_step test_column 50 (picard_init drying_test_column))
     = false.
Proof.
  exact (test_mode_keeps_phase test_column 50 (picard_init drying_test_column) eq_refl).
Defined.

(** The constructor throws 1 on an initial state that is none of the five
    it knows. *)
Theorem constructor_rejects_initial_state prm n_dofs :
  initial_state prm <> "default" -> initial_state prm <> "final" ->
  initial_state prm <> "dry" -> initial_state prm <> "saturated" ->
  initial_state prm <> "no_drying" ->
  constructor prm n_dofs = Throw 1.
Proof.
  intros H1 H2 H3 H4 H5. unfold constructor, initial_phase.
  apply String.eqb_neq in H1, H2, H3, H4, H5.
  rewrite H1, H2, H3, H4, H5. reflexivity.
Qed.

Definition wet_column : AllParameters :=
  {| initial_state := "wet";
     param_time_step := 1;
     timestep_number_max := 100;
     test_function_transport := false;
     param_coupled_transport := true;
     richards_bottom_fixed_value := 150;
     domain_size := 100;
     richards_fixed_at_top := false;
     output_frequency_transport := 60;
     initial_condition_homogeneous_bacteria := 0.5;
     biomass_dry_density := 3 |}.

Lemma constructor_rejects_initial_state_witness : constructor wet_column 3 = Throw 1.
Proof.
  apply (constructor_rejects_initial_state wet_column 3); discriminate.
Defined.

(** With the transport test mode off no Picard loop ends with its first
    pass: one pass leaves the loop running, unless the solver throws. *)
Theorem first_pass_never_ends_the_loop fe hp :
  test_transport hp = false ->
  picard_loop 1 fe (picard_init hp) = None
  \/ exists code, picard_loop 1 fe (picard_init hp) = Some (Throw code).
Proof.
  intros Htest. cbn [picard_loop]. unfold picard_body.
  assert (R : restart (picard_init hp) = picard_init hp).
  { unfold restart, stalled. cbn [picard_init iteration this].
    rewrite andb_false_r. reflexivity. }
  rewrite R. cbn [picard_init this step].
  destruct (fe 0%Z (time_step hp)) as [s|code]; simpl bind; [left|right; eauto].
  cbn [remain_in_loop iteration]. unfold leaves_loop. rewrite Htest. cbn [negb Z.eqb].
  rewrite !andb_false_r. reflexivity.
Qed.

Lemma first_pass_never_ends_the_loop_witness :
  picard_loop 1 steady_solver (picard_init drying_column) = None
  \/ exists code, picard_loop 1 steady_solver (picard_init drying_column)
                  = Some (Throw code).
Proof. exact (first_pass_never_ends_the_loop steady_solver drying_column eq_refl). Defined.

(** In the transport test mode a pass solves no flow system, and it ends the
    loop exactly when the transport error is below 1.5e-7, whatever the
    number of the pass; without coupled transport that error stays 0, so
    that the first pass of every loop is its last. *)
Theorem picard_loop_exit_in_test_mode fe hp0 p fuel s :
  test_transport hp0 = true ->
  in_loop fe hp0 p ->
  fe (step p) (time_step (this (restart p))) = Ok s ->
  exists p',
    picard_body fe p = Ok p'
    /\ relative_error_flow p' = relative_error_flow (restart p)
    /\ flow_at_top (this p') = flow_at_top (this p)
    /\ relative_error_transport p'
       = (if coupled_transport hp0
          then 100 * abs (1 - abs (old_norm_transport p / transport_norm_sqr s))
          else 0)
    /\ remain_in_loop p' = negb (relative_error_transport p' <? 1.5E-7)
    /\ picard_loop (S fuel) fe p
       = (if relative_error_transport p' <? 1.5E-7
          then Some (Ok p') else picard_loop fuel fe p')
    /\ (coupled_transport hp0 = false -> picard_loop (S fuel) fe p = Some (Ok p')).
Proof.
  intros Htest Hin Hfe.
  destruct (in_loop_invariant fe hp0 p Hin) as (Hc & Hrem & Hoff).
  pose proof (restart_controls p) as Hrc.
  destruct (controls_inv _ _ Hrc) as (R0 & _ & _ & R1 & R2 & R3 & _).
  destruct (controls_inv _ _ Hc) as (I0 & _ & _ & I1 & I2 & I3 & _).
  assert (F2 : test_transport (this (restart p)) = true) by congruence.
  assert (F4 : coupled_transport (this (restart p)) = coupled_transport hp0) by congruence.
  assert (Hflow : flow_is_solved (this (restart p)) = false)
    by (unfold flow_is_solved; rewrite F2, andb_false_r; reflexivity).
  assert (Htr : transport_is_solved (this (restart p)) = coupled_transport hp0)
    by (unfold transport_is_solved; rewrite F2, F4, orb_true_r; reflexivity).
  assert (Hbody : exists p', picard_body fe p = Ok p').
  { unfold picard_body. rewrite restart_step, Hfe. simpl bind. eauto. }
  destruct Hbody as [p' Hbody]. exists p'. split; [exact Hbody|].
  pose proof Hbody as Hb.
  unfold picard_body in Hb. rewrite restart_step, Hfe in Hb. simpl bind in Hb.
  injection Hb as Hb.
  assert (E1 : relative_error_flow p' = relative_error_flow (restart p))
    by (rewrite <- Hb; cbn [relative_error_flow]; rewrite Hflow; reflexivity).
  assert (E2 : flow_at_top (this p') = flow_at_top (this p)).
  { rewrite <- Hb. cbn [this record_solve flow_at_top]. rewrite Hflow.
    unfold restart. destruct (stalled p); reflexivity. }
  assert (E3 : relative_error_transport p'
               = (if coupled_transport hp0
                  then 100 * abs (1 - abs (old_norm_transport p / transport_norm_sqr s))
                  else 0)).
  { rewrite <- Hb. cbn [relative_error_transport]. rewrite Htr, restart_old_norm_transport.
    destruct (coupled_transport hp0) eqn:Ec; [reflexivity|].
    assert (Hz : relative_error_transport p = 0).
    { apply Hoff. unfold transport_is_solved. rewrite Ec. apply andb_false_r. }
    unfold restart. destruct (stalled p); [reflexivity|exact Hz]. }
  assert (E4 : remain_in_loop p' = negb (relative_error_transport p' <? 1.5E-7)).
  { rewrite <- Hb at 1. cbn [remain_in_loop]. unfold leaves_loop. rewrite F2. cbn [negb].
    rewrite restart_remain, Hrem.
    replace (relative_error_transport p') with
      (if transport_is_solved (this (restart p))
       then 100 * abs (1 - abs (old_norm_transport (restart p)
                                / (if transport_is_solved (this (restart p))
                                   then transport_norm_sqr s
                                   else new_norm_transport (restart p))))
       else relative_error_transport (restart p))
      by (rewrite <- Hb; reflexivity).
    destruct (_ <? 1.5E-7); reflexivity. }
  assert (E5 : picard_loop (S fuel) fe p
               = (if relative_error_transport p' <? 1.5E-7
                  then Some (Ok p') else picard_loop fuel fe p')).
  { simpl picard_loop. rewrite Hbody, E4.
    destruct (relative_error_transport p' <? 1.5E-7); reflexivity. }
  split; [exact E1|]. split; [exact E2|]. split; [exact E3|]. split; [exact E4|].
  split; [exact E5|].
  intros Ec. rewrite E5, E3, Ec. reflexivity.
Qed.

Definition uncoupled_test_column : AllParameters :=
  {| initial_state := "saturated";
     param_time_step := 1;
     timestep_number_max := 100;
     test_function_transport := true;
     param_coupled_transport := false;
     richards_bottom_fixed_value := 150;
     domain_size := 100;
     richards_fixed_at_top := false;
     output_frequency_transport := 60;
     initial_condition_homogeneous_bacteria := 0.5;
     biomass_dry_density := 3 |}.

Definition uncoupled_test_pipe : Heat_Pipe :=
  set_timestep_number (constructed uncoupled_test_column 3 (false, false, true)) 1.

Lemma picard_loop_exit_in_test_mode_witness :
  exists p',
    picard_body steady_solver (picard_init uncoupled_test_pipe) = Ok p'
    /\ relative_error_flow p' = 1000
    /\ picard_loop 1 steady_solver (picard_init uncoupled_test_pipe) = Some (Ok p').
Proof.
  destruct (picard_loop_exit_in_test_mode steady_solver uncoupled_test_pipe
              (picard_init uncoupled_test_pipe) 0 steady eq_refl
              (in_loop_first steady_solver uncoupled_test_pipe) eq_refl)
    as (p' & H1 & H2 & _ & _ & _ & _ & H7).
  exists p'. split; [exact H1|]. split; [exact H2|]. apply H7. reflexivity.
Defined.

Lemma map_constant {A B : Type} (b : B) (l : list A) :
  map (fun _ => b) l = repeat b (List.length l).
Proof. induction l as [|a l IH]; simpl; [reflexivity|rewrite IH; reflexivity]. Qed.

(** The time step that ends the saturation phase seeds the biomass: every
    node gets a thousandth of the configured concentration, and that over
    the dry density as its fraction; the time that the saturation took and
    the milestone are recorded, the figures are numbered anew and the next
    time step has the size 1. *)
Theorem transport_begins_with_seeded_biomass prm pressure_at_top p :
  test_transport (this p) = false ->
  transient_drying (this p) = false -> transient_saturation (this p) = true ->
  coupled_transport (this p) = true ->
  saturated_conditions_reached prm (this p) = true ->
  transient_transport (commit_time_step prm pressure_at_top p) = true
  /\ new_nodal_biomass_concentration (commit_time_step prm pressure_at_top p)
     = repeat (1 / 1000 * initial_condition_homogeneous_bacteria prm)
         (List.length (new_nodal_biomass_concentration (this p)))
  /\ new_nodal_biomass_fraction (commit_time_step prm pressure_at_top p)
     = repeat (1 / 1000 * initial_condition_homogeneous_bacteria prm
               / biomass_dry_density prm)
         (List.length (new_nodal_biomass_fraction (this p)))
  /\ time_for_saturated_conditions (commit_time_step prm pressure_at_top p)
     = time (this p) + time_step (this p) - milestone_time (this p)
  /\ milestone_time (commit_time_step prm pressure_at_top p)
     = time (this p) + time_step (this p)
  /\ (figure_count (commit_time_step prm pressure_at_top p) = 0%Z
      \/ figure_count (commit_time_step prm pressure_at_top p) = 1%Z)
  /\ time_step (commit_time_step prm pressure_at_top p) = 1.
Proof.
  intros Htest Hd Hs Hc Hsat.
  assert (Hcp : choose_period prm pressure_at_top (advance_time (this p))
                = begin_transport prm (advance_time (this p))).
  { unfold choose_period, begin_saturation. cbn [advance_time test_transport transient_drying].
    rewrite Htest, Hd. reflexivity. }
  assert (Hsat' : saturated_conditions_reached prm (advance_time (this p)) = true)
    by exact Hsat.
  unfold commit_time_step. rewrite Hcp.
  unfold begin_transport. cbn [advance_time transient_saturation coupled_transport].
  rewrite Hs, Hc, Hsat'. cbn [andb].
  unfold output_solution.
  match goal with |- context [output_is_due prm ?h] => destruct (output_is_due prm h) end;
    unfold update_timestep;
    cbn [set_figure_count test_transport advance_time]; rewrite Htest; cbn [negb];
    cbn [set_timestep_number transient_transport new_nodal_biomass_concentration
         new_nodal_biomass_fraction time_for_saturated_conditions milestone_time
         figure_count time_step time advance_time redefine_time_step
         transient_drying transient_saturation adapted_time_step clamped_time_step];
    rewrite !map_constant;
    (split; [reflexivity|]); (split; [reflexivity|]); (split; [reflexivity|]);
    (split; [reflexivity|]); (split; [reflexivity|]);
    (split; [|reflexivity]); [right|left]; reflexivity.
Qed.

Lemma transport_begins_with_seeded_biomass_witness :
  new_nodal_biomass_concentration
    (commit_time_step dry_column 30 (picard_init saturating_column))
  = [0.0005; 0.0005; 0.0005]
  /\ time_step (commit_time_step dry_column 30 (picard_init saturating_column)) = 1.
Proof.
  destruct (transport_begins_with_seeded_biomass dry_column 30
              (picard_init saturating_column) eq_refl eq_refl eq_refl eq_refl eq_refl)
    as (_ & H2 & _ & _ & _ & _ & H7).
  split; [rewrite H2; reflexivity|exact H7].
Defined.

End RunSpec.

(** * calculate_mass_balance_ratio on the grid that was read *)

Module MassBalanceSpec.

Import MassBalance Binary64 IEEE.

Lemma ltb_irrefl (x : float) : (x <? x) = false.
Proof.
  rewrite ltb_spec. unfold SFltb. rewrite SFcompare_refl.
  destruct (Prim2SF x); reflexivity.
Qed.

Lemma vector_less_irrefl p : vector_less p p = false.
Proof.
  induction p as [|x p IH]; [reflexivity|].
  simpl. rewrite ltb_irrefl. exact IH.
Qed.

Lemma same_point_refl p : same_point p p = true.
Proof. unfold same_point. rewrite vector_less_irrefl. reflexivity. Qed.

(** ** The map of the points *)

Lemma find_count_point_same m p : exists n, find (count_point m p) p = Some n.
Proof.
  induction m as [|[q n] m IH]; simpl.
  - rewrite same_point_refl. eauto.
  - destruct (same_point q p) eqn:E; simpl; rewrite E; [eauto|exact IH].
Qed.

Lemma find_count_point_kept m p q :
  find m q <> None -> find (count_point m p) q <> None.
Proof.
  induction m as [|[r n] m IH]; simpl; [congruence|].
  destruct (same_point r p) eqn:E; simpl;
    destruct (same_point r q); try discriminate; auto.
Qed.

Lemma find_count_cell_kept c : forall m q,
  find m q <> None -> find (count_cell m c) q <> None.
Proof.
  unfold count_cell. induction c as [|v c IH]; intros m q H; simpl; [exact H|].
  apply IH. apply find_count_point_kept. exact H.
Qed.

Lemma find_count_cell c : forall m v,
  In v c -> find (count_cell m c) (vertex_point v) <> None.
Proof.
  unfold count_cell. induction c as [|w c IH]; intros m v Hin; [destruct Hin|].
  destruct Hin as [<-|Hin]; simpl.
  - apply (find_count_cell_kept c).
    destruct (find_count_point_same m (vertex_point w)) as [n ->]. discriminate.
  - apply IH. exact Hin.
Qed.

Lemma find_fold_count_cell cells : forall m c v,
  (In c cells /\ In v c) \/ find m (vertex_point v) <> None ->
  find (fold_left count_cell cells m) (vertex_point v) <> None.
Proof.
  induction cells as [|d cells IH]; intros m c v H; simpl.
  - destruct H as [[[] _]|H]; exact H.
  - destruct H as [[[<-|Hin] Hv]|H].
    + apply (IH _ d v). right. apply find_count_cell. exact Hv.
    + apply (IH _ c v). left. split; assumption.
    + apply (IH _ d v). right. apply find_count_cell_kept. exact H.
Qed.

(** Every vertex of every cell that was counted is in the map. *)
Lemma count_points_finds cells c v :
  In c cells -> In v c -> exists n, find (count_points cells) (vertex_point v) = Some n.
Proof.
  intros Hc Hv. unfold count_points.
  pose proof (find_fold_count_cell cells [] c v (or_introl (conj Hc Hv))) as H.
  destruct (find _ _) as [n|]; [eauto|congruence].
Qed.

(** ** The count of a point *)

(** The two zeros are one key; every other number is its own. *)
Definition key_of (x : spec_float) : spec_float :=
  match x with S754_zero _ => S754_zero false | _ => x end.

Definition key (x : float) : spec_float := key_of (Prim2SF x).

Lemma SFltb_key (a b : spec_float) :
  a <> S754_nan -> b <> S754_nan ->
  (SFltb a b = false /\ SFltb b a = false) <-> key_of a = key_of b.
Proof.
  intros Ha Hb. unfold SFltb.
  destruct a as [sa|sa| |sa ma ea]; [| |congruence|];
    (destruct b as [sb|sb| |sb mb eb]; [| |congruence|]); simpl.
  - split; auto.
  - destruct sb; split; try discriminate; intros [H1 H2]; discriminate.
  - destruct sb; split; try discriminate; intros [H1 H2]; discriminate.
  - destruct sa; split; try discriminate; intros [H1 H2]; discriminate.
  - destruct sa, sb; split; try discriminate; auto; intros [H1 H2]; discriminate.
  - destruct sa; split; try discriminate; intros [H1 H2]; discriminate.
  - destruct sa; split; try discriminate; intros [H1 H2]; discriminate.
  - destruct sb; split; try discriminate; intros [H1 H2]; discriminate.
  - rewrite (Z.compare_antisym ea eb).
    assert (A : Pos.compare_cont Eq mb ma = CompOpp (Pos.compare_cont Eq ma mb))
      by (symmetry; apply (Pos.compare_cont_antisym ma mb Eq)).
    rewrite A. clear A.
    destruct sa, sb; try (split; [intros [H1 H2]; discriminate|discriminate]).
    + destruct (ea ?= eb)%Z eqn:E; simpl;
        try (split; [intros [H1 H2]; discriminate|intros H; injection H as -> ->;
             rewrite Z.compare_refl in E; discriminate]).
      apply Z.compare_eq in E. subst eb.
      destruct (Pos.compare_cont Eq ma mb) eqn:F; simpl;
        try (split; [intros [H1 H2]; discriminate|intros H; injection H as ->;
             rewrite Pos.compare_cont_refl in F; discriminate]).
      apply Pos.compare_eq in F. subst mb. split; auto.
    + destruct (ea ?= eb)%Z eqn:E; simpl;
        try (split; [intros [H1 H2]; discriminate|intros H; injection H as -> ->;
             rewrite Z.compare_refl in E; discriminate]).
      apply Z.compare_eq in E. subst eb.
      destruct (Pos.compare_cont Eq ma mb) eqn:F; simpl;
        try (split; [intros [H1 H2]; discriminate|intros H; injection H as ->;
             rewrite Pos.compare_cont_refl in F; discriminate]).
      apply Pos.compare_eq in F. subst mb. split; auto.
Qed.

Definition number (x : float) : Prop := is_nan x = false.

Lemma number_Prim2SF x : number x -> Prim2SF x <> S754_nan.
Proof.
  unfold number. rewrite is_nan_Prim2SF. destruct (Prim2SF x); congruence.
Qed.

Lemma ltb_key x y :
  number x -> number y ->
  ((x <? y) = false /\ (y <? x) = false) <-> key x = key y.
Proof.
  intros Hx Hy. rewrite !ltb_spec.
  apply SFltb_key; apply number_Prim2SF; assumption.
Qed.

(** Points of numbers are one key of the map exactly when they have the
    same coordinates, the sign of a zero apart. *)
Lemma same_point_key a : forall b,
  Forall number a -> Forall number b ->
  same_point a b = true <-> map key a = map key b.
Proof.
  unfold same_point.
  induction a as [|x a IH]; intros [|y b] Ha Hb; simpl.
  - split; reflexivity.
  - split; discriminate.
  - split; discriminate.
  - inversion Ha as [|? ? Hx Ha']; subst. inversion Hb as [|? ? Hy Hb']; subst.
    pose proof (ltb_key x y Hx Hy) as K.
    destruct (x <? y) eqn:Exy.
    { simpl. split; [discriminate|]. intros H. injection H as H _.
      apply K in H. destruct H; discriminate. }
    destruct (y <? x) eqn:Eyx.
    { simpl. split; [rewrite ?andb_false_r; discriminate|]. intros H. injection H as H _.
      apply K in H. destruct H; discriminate. }
    rewrite (IH b Ha' Hb'). split; [intros ->|intros H; injection H; auto].
    f_equal. apply K. auto.
Qed.

Definition add_count (o : option Z) : option Z :=
  Some (match o with None => 1 | Some n => Run.uint_incr n end)%Z.

Definition keys_are_numbers (m : Repeated_Points) : Prop :=
  Forall (fun e => Forall number (fst e)) m.

Lemma count_point_numbers m q :
  keys_are_numbers m -> Forall number q -> keys_are_numbers (count_point m q).
Proof.
  unfold keys_are_numbers.
  induction m as [|[r n] m IH]; intros Hm Hq; simpl.
  - constructor; [exact Hq|constructor].
  - inversion Hm as [|? ? Hr Hm']; subst.
    destruct (same_point r q); constructor; auto.
Qed.

Lemma find_count_point m q p :
  keys_are_numbers m -> Forall number q -> Forall number p ->
  find (count_point m q) p
  = if same_point q p then add_count (find m p) else find m p.
Proof.
  intros Hm Hq Hp.
  induction Hm as [|[r n] m Hr Hm IH]; simpl.
  - destruct (same_point q p); reflexivity.
  - simpl in Hr.
    pose proof (same_point_key r q Hr Hq) as Krq.
    pose proof (same_point_key r p Hr Hp) as Krp.
    pose proof (same_point_key q p Hq Hp) as Kqp.
    destruct (same_point r q) eqn:Erq, (same_point q p) eqn:Eqp,
      (same_point r p) eqn:Erp; simpl; rewrite ?Erp, ?IH; try reflexivity; exfalso.
    + assert (E : false = true); [|discriminate].
      apply Krp. transitivity (map key q); [apply Krq|apply Kqp]; reflexivity.
    + assert (E : false = true); [|discriminate].
      apply Kqp. transitivity (map key r); [symmetry; apply Krq|apply Krp]; reflexivity.
    + assert (E : false = true); [|discriminate].
      apply Krq. transitivity (map key p); [apply Krp|symmetry; apply Kqp]; reflexivity.
Qed.

(** The points of the vertices of the cells, in the order of the loops. *)
Definition points (cells : list Active_Cell) : list Point :=
  flat_map (map vertex_point) cells.

(** How many vertices of the cells lie at a point. *)
Definition cells_at (p : Point) (cells : list Active_Cell) : nat :=
  List.length (filter (fun q => same_point q p) (points cells)).

Lemma count_cell_fold c : forall m,
  count_cell m c = fold_left count_point (map vertex_point c) m.
Proof.
  unfold count_cell. induction c as [|v c IH]; intros m; simpl; [reflexivity|apply IH].
Qed.

Lemma count_cells_fold cells : forall m,
  fold_left count_cell cells m = fold_left count_point (points cells) m.
Proof.
  unfold points. induction cells as [|c cells IH]; intros m; simpl; [reflexivity|].
  rewrite fold_left_app, <- count_cell_fold. apply IH.
Qed.

Lemma find_fold_count_point ps : forall m p,
  keys_are_numbers m -> Forall (Forall number) ps -> Forall number p ->
  find (fold_left count_point ps m) p
  = Nat.iter (List.length (filter (fun q => same_point q p) ps)) add_count (find m p).
Proof.
  induction ps as [|q ps IH]; intros m p Hm Hps Hp; simpl; [reflexivity|].
  inversion Hps as [|? ? Hq Hps']; subst.
  rewrite (IH _ p (count_point_numbers m q Hm Hq) Hps' Hp).
  rewrite (find_count_point m q p Hm Hq Hp).
  destruct (same_point q p); [|reflexivity].
  simpl List.length. rewrite Nat.iter_succ_r. reflexivity.
Qed.

Lemma iter_add_count n :
  Nat.iter (S n) add_count None = Some (Z.of_nat (S n) mod Run.uint_max)%Z.
Proof.
  induction n as [|n IH]; [reflexivity|].
  rewrite Nat.iter_succ, IH. unfold add_count, Run.uint_incr. f_equal.
  rewrite Zplus_mod_idemp_l. f_equal. lia.
Qed.

(** The map of [read_grid] and [refine_grid] holds, for a point, the number
    of the vertices of the cells that lie at it (as an [unsigned int]), and
    nothing for a point where no vertex lies. *)
Theorem count_points_counts cells p :
  Forall (Forall number) (points cells) -> Forall number p ->
  find (count_points cells) p
  = match cells_at p cells with
    | O => None
    | S n => Some (Z.of_nat (S n) mod Run.uint_max)%Z
    end.
Proof.
  intros Hps Hp. unfold count_points, cells_at.
  rewrite count_cells_fold.
  rewrite (find_fold_count_point (points cells) [] p (Forall_nil _) Hps Hp).
  destruct (List.length _) as [|n]; [reflexivity|apply iter_add_count].
Qed.

(** ** What the hydraulic properties throw *)

Definition minus_one_or_ok {A : Type} (r : result A) : Prop :=
  match r with Ok _ => True | Throw c => c = (-1)%Z end.

Definition known_models : list string :=
  ["soleimani"; "clement"; "okubo_and_matsumoto"; "vandevivere"].

Definition is_van_genuchten (hp : Hydraulic.Hydraulic_Properties) : bool :=
  String.eqb (Hydraulic.type_of_hydraulic_properties hp) Hydraulic.van_genuchten_1980.

Section Hydraulics.

Variable pow : float -> float -> float.
Variable exp : float -> float.
Variable hp : Hydraulic.Hydraulic_Properties.

Lemma total_saturation_cases h :
  if is_van_genuchten hp
  then exists t, Hydraulic.get_effective_total_saturation pow hp h = Ok t
  else Hydraulic.get_effective_total_saturation pow hp h = Throw (-1).
Proof.
  unfold is_van_genuchten, Hydraulic.get_effective_total_saturation. cbv zeta.
  destruct (String.eqb _ _); eauto.
Qed.

Lemma free_saturation_cases h bc bd :
  if is_van_genuchten hp
  then exists f, Hydraulic.get_effective_free_saturation pow hp h bc bd = Ok f
  else Hydraulic.get_effective_free_saturation pow hp h bc bd = Throw (-1).
Proof.
  pose proof (total_saturation_cases h) as H.
  unfold Hydraulic.get_effective_free_saturation.
  destruct (is_van_genuchten hp); [destruct H as [t ->]; simpl; eauto|rewrite H; reflexivity].
Qed.

Lemma moisture_content_total_cases h :
  if is_van_genuchten hp
  then exists t, Hydraulic.get_moisture_content_total pow hp h = Ok t
  else Hydraulic.get_moisture_content_total pow hp h = Throw (-1).
Proof.
  pose proof (total_saturation_cases h) as H.
  unfold Hydraulic.get_moisture_content_total.
  destruct (is_van_genuchten hp); [destruct H as [t ->]; simpl; eauto|rewrite H; reflexivity].
Qed.

Lemma moisture_content_free_cases h bc bd :
  if is_van_genuchten hp
  then exists t, Hydraulic.get_moisture_content_free pow hp h bc bd = Ok t
  else Hydraulic.get_moisture_content_free pow hp h bc bd = Throw (-1).
Proof.
  pose proof (free_saturation_cases h bc bd) as H.
  unfold Hydraulic.get_moisture_content_free.
  destruct (is_van_genuchten hp); [destruct H as [t ->]; simpl; eauto|rewrite H; reflexivity].
Qed.

Lemma moisture_capacity_van_genuchten h :
  is_van_genuchten hp = true ->
  exists c, Hydraulic.get_specific_moisture_capacity pow hp h = Ok c.
Proof.
  unfold is_van_genuchten, Hydraulic.get_specific_moisture_capacity. cbv zeta.
  intros ->. destruct (String.eqb _ Hydraulic.haverkamp_et_al_1977); eauto.
Qed.

Lemma relative_permeability_cases t b bc bd model :
  if existsb (String.eqb model) known_models
  then exists k, Hydraulic.relative_permeability pow exp hp t b bc bd model = Ok k
  else Hydraulic.relative_permeability pow exp hp t b bc bd model = Throw (-1).
Proof.
  unfold Hydraulic.relative_permeability, known_models. cbn [existsb].
  destruct (String.eqb model "soleimani"); cbn [orb]; [eauto|].
  destruct (String.eqb model "clement"); cbn [orb]; [eauto|].
  destruct (String.eqb model "okubo_and_matsumoto"); cbn [orb]; [eauto|].
  destruct (String.eqb model "vandevivere"); cbn [orb]; [eauto|]. reflexivity.
Qed.

Lemma hydraulic_conductivity_van_genuchten h bc bd model :
  is_van_genuchten hp = true ->
  if existsb (String.eqb model) known_models
  then exists k, Hydraulic.get_hydraulic_conductivity pow exp hp h bc bd model = Ok k
  else Hydraulic.get_hydraulic_conductivity pow exp hp h bc bd model = Throw (-1).
Proof.
  intros Hvg. pose proof (total_saturation_cases h) as Ht. rewrite Hvg in Ht.
  destruct Ht as [t Ht].
  unfold Hydraulic.get_hydraulic_conductivity. cbv zeta. rewrite Ht.
  unfold is_van_genuchten in Hvg. rewrite Hvg.
  assert (E : String.eqb (Hydraulic.type_of_hydraulic_properties hp)
                Hydraulic.haverkamp_et_al_1977 = false).
  { apply String.eqb_eq in Hvg. rewrite Hvg. reflexivity. }
  rewrite E. simpl bind.
  match goal with
  | |- context [Hydraulic.relative_permeability pow exp hp ?a ?b ?c ?d ?m] =>
      pose proof (relative_permeability_cases a b c d m) as Hk
  end.
  destruct (existsb _ _); [destruct Hk as [k ->]; simpl; eauto|rewrite Hk; reflexivity].
Qed.

Lemma hydraulic_conductivity_minus_one h bc bd model :
  minus_one_or_ok (Hydraulic.get_hydraulic_conductivity pow exp hp h bc bd model).
Proof.
  destruct (is_van_genuchten hp) eqn:Hvg.
  - pose proof (hydraulic_conductivity_van_genuchten h bc bd model Hvg) as H.
    destruct (existsb _ _); [destruct H as [k ->]; exact I|rewrite H; reflexivity].
  - unfold is_van_genuchten in Hvg.
    unfold Hydraulic.get_hydraulic_conductivity. cbv zeta. rewrite Hvg.
    destruct (String.eqb _ Hydraulic.haverkamp_et_al_1977); simpl; trivial.
Qed.

End Hydraulics.

(** ** The vectors *)

Lemma add_at_length i x : forall v, List.length (add_at i x v) = List.length v.
Proof.
  induction i as [|i IH]; intros [|y v]; simpl; try reflexivity.
  rewrite IH. reflexivity.
Qed.

Lemma add_at_zero i : forall n, add_at i 0 (reinit n) = reinit n.
Proof.
  unfold reinit. induction i as [|i IH]; intros [|n]; simpl; try reflexivity.
  rewrite IH. reflexivity.
Qed.

(** ** One vertex, one cell, the grid *)

Section Grid.

Variable pow : float -> float -> float.
Variable exp : float -> float.
Variable parameters : Parameters.
Variable transient_drying : bool.
Variable time_step : float.
Variable repeated_points : Repeated_Points.
Variable solutions : Solutions.

Local Abbreviation values_of :=
  (vertex_values pow exp parameters transient_drying time_step repeated_points solutions).
Local Abbreviation cell_values_of :=
  (cell_values pow exp parameters transient_drying time_step repeated_points solutions).
Local Abbreviation cells_loop :=
  (mass_balance_cells pow exp parameters transient_drying time_step repeated_points
     solutions).

(** The configuration under which the hydraulic properties return. *)
Definition supported : bool :=
  String.eqb (hydraulic_properties parameters) Hydraulic.van_genuchten_1980
  && existsb (String.eqb (relative_permeability_model parameters)) known_models.

Definition found (v : Vertex) : bool :=
  match find repeated_points (vertex_point v) with Some _ => true | None => false end.

Definition dry_local (l : Local) : Prop :=
  transient_drying = true ->
  cell_biomass_concentration l = 0 /\ cell_biomass_fraction l = 0.

Lemma cell_properties_family :
  is_van_genuchten (cell_hydraulic_properties parameters)
  = String.eqb (hydraulic_properties parameters) Hydraulic.van_genuchten_1980.
Proof. reflexivity. Qed.

Lemma grown_biomass_cases weight v :
  if transient_drying
  then grown_biomass pow exp parameters transient_drying time_step solutions weight v
       = Ok (0, 0)
  else if is_van_genuchten (cell_hydraulic_properties parameters)
       then exists b, grown_biomass pow exp parameters transient_drying time_step solutions
                        weight v = Ok b
       else grown_biomass pow exp parameters transient_drying time_step solutions weight v
            = Throw (-1).
Proof.
  unfold grown_biomass. destruct transient_drying; cbn [negb]; [reflexivity|].
  pose proof (free_saturation_cases pow (cell_hydraulic_properties parameters)
                (value_at (old_solution_flow solutions) (dof_index v))
                (value_at (old_nodal_biomass_concentration solutions) (dof_index v))
                (biomass_dry_density parameters)) as Hf.
  destruct (is_van_genuchten _); [destruct Hf as [f ->]; simpl bind; eauto|].
  rewrite Hf. reflexivity.
Qed.

Lemma vertex_values_cases v :
  if found v && supported
  then exists l, values_of v = Ok l /\ dry_local l
  else values_of v = Throw (-1).
Proof.
  unfold found, supported, vertex_values.
  destruct (find repeated_points (vertex_point v)) as [count|]; [|reflexivity].
  cbn [andb]. rewrite <- cell_properties_family.
  set (hp := cell_hydraulic_properties parameters).
  set (weight := 1 / Run.double_of_uint count).
  set (pressure := value_at (solution_flow_old_iteration solutions) (dof_index v)).
  pose proof (grown_biomass_cases weight v) as Hb. fold hp in Hb.
  destruct (is_van_genuchten hp) eqn:Hvg; cbn [andb].
  - assert (Hb' : exists b,
               grown_biomass pow exp parameters transient_drying time_step solutions
                 weight v = Ok b
               /\ (transient_drying = true -> b = (0, 0))).
    { destruct transient_drying; [eexists; split; [exact Hb|reflexivity]|].
      destruct Hb as [b Hb]. exists b. split; [exact Hb|discriminate]. }
    destruct Hb' as (b & -> & Hdry). simpl bind.
    pose proof (hydraulic_conductivity_van_genuchten pow exp hp pressure (fst b)
                  (biomass_dry_density parameters)
                  (relative_permeability_model parameters) Hvg) as Hk.
    destruct (existsb _ _).
    + destruct Hk as [k ->]. simpl bind.
      pose proof (moisture_content_total_cases pow hp pressure) as Ht.
      rewrite Hvg in Ht. destruct Ht as [t ->]. simpl bind.
      pose proof (moisture_content_free_cases pow hp pressure (fst b)
                    (biomass_dry_density parameters)) as Hf.
      rewrite Hvg in Hf. destruct Hf as [f ->]. simpl bind.
      destruct (moisture_capacity_van_genuchten pow hp pressure Hvg) as [c ->]. simpl bind.
      eexists. split; [reflexivity|].
      intros Hd. rewrite (Hdry Hd). split; reflexivity.
    + rewrite Hk. reflexivity.
  - destruct transient_drying; [|rewrite Hb; reflexivity].
    rewrite Hb. simpl bind.
    pose proof (hydraulic_conductivity_minus_one pow exp hp pressure 0
                  (biomass_dry_density parameters)
                  (relative_permeability_model parameters)) as Hk.
    destruct (Hydraulic.get_hydraulic_conductivity _ _ _ _ _ _ _) as [k|code];
      simpl bind; [|simpl in Hk; rewrite Hk; reflexivity].
    pose proof (moisture_content_total_cases pow hp pressure) as Ht.
    rewrite Hvg in Ht. rewrite Ht. reflexivity.
Qed.

Definition usable (v : Vertex) : bool := found v && supported.

Lemma cell_values_cases c :
  if forallb usable c
  then exists ls, cell_values_of c = Ok ls
                  /\ List.length ls = List.length c /\ Forall dry_local ls
  else cell_values_of c = Throw (-1).
Proof.
  induction c as [|v c IH]; cbn [forallb cell_values].
  - exists []. repeat split. constructor.
  - pose proof (vertex_values_cases v) as Hv. fold (usable v) in Hv.
    destruct (usable v); cbn [andb].
    + destruct Hv as (l & -> & Hl). simpl bind.
      destruct (forallb usable c).
      * destruct IH as (ls & -> & Hlen & Hdry). simpl bind.
        exists (l :: ls). split; [reflexivity|]. split; [simpl; congruence|].
        constructor; assumption.
      * rewrite IH. reflexivity.
    + rewrite Hv. reflexivity.
Qed.

Definition nodal_sizes (nodal : Nodal) (n : nat) : Prop :=
  List.length (new_nodal_biomass_concentration nodal) = n
  /\ List.length (new_nodal_biomass_fraction nodal) = n
  /\ List.length (new_nodal_hydraulic_conductivity nodal) = n
  /\ List.length (new_nodal_total_moisture_content nodal) = n
  /\ List.length (new_nodal_free_moisture_content nodal) = n
  /\ List.length (new_nodal_specific_moisture_capacity nodal) = n.

Definition no_biomass (nodal : Nodal) (n : nat) : Prop :=
  new_nodal_biomass_concentration nodal = reinit n
  /\ new_nodal_biomass_fraction nodal = reinit n.

Lemma scatter_sizes n : forall entries nodal,
  nodal_sizes nodal n -> nodal_sizes (fold_left scatter_vertex entries nodal) n.
Proof.
  induction entries as [|[v l] entries IH]; intros nodal H; simpl; [exact H|].
  apply IH. destruct H as (H1 & H2 & H3 & H4 & H5 & H6).
  unfold nodal_sizes. cbn. rewrite !add_at_length. repeat split; assumption.
Qed.

Lemma scatter_no_biomass n : forall c ls nodal,
  transient_drying = true -> Forall dry_local ls ->
  no_biomass nodal n -> no_biomass (scatter c ls nodal) n.
Proof.
  unfold scatter. intros c ls nodal Hd Hls. revert c nodal.
  induction Hls as [|l ls Hl Hls IH]; intros [|v c] nodal H; simpl; try exact H.
  apply IH. destruct H as [H1 H2]. destruct (Hl Hd) as [E1 E2].
  unfold no_biomass. cbn. rewrite E1, E2, H1, H2, !add_at_zero. split; reflexivity.
Qed.

Lemma cells_loop_cases n cells : forall nodal,
  nodal_sizes nodal n ->
  if forallb (forallb usable) cells
  then exists nodal', cells_loop cells nodal = Ok nodal'
                      /\ nodal_sizes nodal' n
                      /\ (transient_drying = true -> no_biomass nodal n ->
                          no_biomass nodal' n)
  else cells_loop cells nodal = Throw (-1).
Proof.
  induction cells as [|c cells IH]; intros nodal Hn; cbn [forallb mass_balance_cells].
  - exists nodal. split; [reflexivity|]. split; [exact Hn|auto].
  - pose proof (cell_values_cases c) as Hc.
    destruct (forallb usable c); cbn [andb].
    + destruct Hc as (ls & -> & Hlen & Hdry). simpl bind.
      specialize (IH (scatter c ls nodal) (scatter_sizes n _ _ Hn)).
      destruct (forallb (forallb usable) cells).
      * destruct IH as (nodal' & -> & Hn' & Hb). exists nodal'.
        split; [reflexivity|]. split; [exact Hn'|].
        intros Hd H0. apply (Hb Hd). apply scatter_no_biomass; assumption.
      * exact IH.
    + rewrite Hc. reflexivity.
Qed.

Lemma forallb_usable_false cells c v :
  In c cells -> In v c -> usable v = false -> forallb (forallb usable) cells = false.
Proof.
  intros Hc Hv Hu.
  destruct (forallb (forallb usable) cells) eqn:E; [|reflexivity].
  rewrite forallb_forall in E. specialize (E c Hc).
  rewrite forallb_forall in E. specialize (E v Hv). congruence.
Qed.

End Grid.

Lemma reinit_sizes n :
  nodal_sizes
    {| new_nodal_biomass_concentration := reinit n;
       new_nodal_biomass_fraction := reinit n;
       new_nodal_hydraulic_conductivity := reinit n;
       new_nodal_total_moisture_content := reinit n;
       new_nodal_free_moisture_content := reinit n;
       new_nodal_specific_moisture_capacity := reinit n |} n.
Proof. unfold nodal_sizes, reinit. cbn. rewrite !repeat_length. repeat split. Qed.

Lemma supported_iff parameters :
  supported parameters = true
  <-> hydraulic_properties parameters = Hydraulic.van_genuchten_1980
      /\ In (relative_permeability_model parameters) known_models.
Proof.
  unfold supported. rewrite andb_true_iff, String.eqb_eq, existsb_exists. split.
  - intros [H1 (m & Hin & Hm)]. apply String.eqb_eq in Hm. subst m. auto.
  - intros [H1 H2]. split; [exact H1|].
    exists (relative_permeability_model parameters). split; [exact H2|apply String.eqb_refl].
Qed.

(** Whatever it throws is -1. *)
Lemma calculate_throws_minus_one pow exp parameters transient_drying time_step
  repeated_points solutions n_dofs cells code :
  calculate_mass_balance_ratio pow exp parameters transient_drying time_step
    repeated_points solutions n_dofs cells = Throw code -> code = (-1)%Z.
Proof.
  unfold calculate_mass_balance_ratio. intros H.
  pose proof (cells_loop_cases pow exp parameters transient_drying
                time_step repeated_points solutions n_dofs cells _
                (reinit_sizes n_dofs)) as Hc.
  destruct (forallb (forallb (usable parameters repeated_points)) cells).
  - destruct Hc as (nodal & Hc & _). rewrite H in Hc. discriminate.
  - rewrite H in Hc. injection Hc as ->. reflexivity.
Qed.

(** A vertex that the map does not hold makes the function throw. *)
Theorem missing_point_throws pow exp parameters transient_drying time_step
  repeated_points solutions n_dofs cells cell v :
  In cell cells -> In v cell ->
  find repeated_points (vertex_point v) = None ->
  calculate_mass_balance_ratio pow exp parameters transient_drying time_step
    repeated_points solutions n_dofs cells = Throw (-1).
Proof.
  intros Hc Hv Hf. unfold calculate_mass_balance_ratio.
  pose proof (cells_loop_cases pow exp parameters transient_drying time_step
                repeated_points solutions n_dofs cells _ (reinit_sizes n_dofs)) as H.
  rewrite (forallb_usable_false parameters repeated_points cells cell v Hc Hv) in H;
    [exact H|].
  unfold usable, found. rewrite Hf. reflexivity.
Qed.

(** On a grid with a vertex the function returns only under the van
    Genuchten family with one of the four permeability models. *)
Theorem unsupported_configuration_throws pow exp parameters transient_drying time_step
  repeated_points solutions n_dofs cells cell v :
  In cell cells -> In v cell ->
  hydraulic_properties parameters <> Hydraulic.van_genuchten_1980
  \/ ~ In (relative_permeability_model parameters) known_models ->
  calculate_mass_balance_ratio pow exp parameters transient_drying time_step
    repeated_points solutions n_dofs cells = Throw (-1).
Proof.
  intros Hc Hv Hno. unfold calculate_mass_balance_ratio.
  pose proof (cells_loop_cases pow exp parameters transient_drying time_step
                repeated_points solutions n_dofs cells _ (reinit_sizes n_dofs)) as H.
  rewrite (forallb_usable_false parameters repeated_points cells cell v Hc Hv) in H;
    [exact H|].
  unfold usable. destruct (supported parameters) eqn:E; [|apply andb_false_r].
  apply supported_iff in E. destruct E as [E1 E2]. destruct Hno as [Hno|Hno]; contradiction.
Qed.

(** On the grid whose points were counted (their coordinates being numbers,
    as the order of the keys of the map needs), under the van Genuchten
    family with one of the four permeability models, the function returns,
    and the six vectors have [n_dofs] entries. *)
Theorem counted_grid_returns pow exp parameters transient_drying time_step
  solutions n_dofs cells :
  Forall (Forall number) (points cells) ->
  hydraulic_properties parameters = Hydraulic.van_genuchten_1980 ->
  In (relative_permeability_model parameters) known_models ->
  exists nodal,
    calculate_mass_balance_ratio pow exp parameters transient_drying time_step
      (count_points cells) solutions n_dofs cells = Ok nodal
    /\ nodal_sizes nodal n_dofs.
Proof.
  intros _ Hvg Hm. unfold calculate_mass_balance_ratio.
  pose proof (cells_loop_cases pow exp parameters transient_drying time_step
                (count_points cells) solutions n_dofs cells _ (reinit_sizes n_dofs)) as H.
  assert (E : forallb (forallb (usable parameters (count_points cells))) cells = true).
  { apply forallb_forall. intros c Hc. apply forallb_forall. intros v Hv.
    unfold usable, found.
    destruct (count_points_finds cells c v Hc Hv) as [n ->].
    apply (proj2 (supported_iff parameters)). split; assumption. }
  rewrite E in H. destruct H as (nodal & H & Hn & _). exists nodal. split; assumption.
Qed.

(** While the column dries no biomass grows: the two biomass vectors come
    back as zeros. *)
Theorem drying_grows_no_biomass pow exp parameters time_step repeated_points solutions
  n_dofs cells nodal :
  calculate_mass_balance_ratio pow exp parameters true time_step repeated_points
    solutions n_dofs cells = Ok nodal ->
  new_nodal_biomass_concentration nodal = reinit n_dofs
  /\ new_nodal_biomass_fraction nodal = reinit n_dofs.
Proof.
  unfold calculate_mass_balance_ratio. intros Hr.
  pose proof (cells_loop_cases pow exp parameters true time_step
                repeated_points solutions n_dofs cells _ (reinit_sizes n_dofs)) as H.
  destruct (forallb (forallb (usable parameters repeated_points)) cells).
  - destruct H as (nodal' & H & _ & Hb). rewrite Hr in H. injection H as <-.
    apply Hb; [reflexivity|]. split; reflexivity.
  - rewrite Hr in H. discriminate.
Qed.

(** ** A column of two cells *)

Definition column_cells : list Active_Cell :=
  [ [ {| vertex_point := [-2]; dof_index := 0 |};
      {| vertex_point := [-1]; dof_index := 1 |} ];
    [ {| vertex_point := [-1]; dof_index := 1 |};
      {| vertex_point := [0]; dof_index := 2 |} ] ].

Definition sand : Parameters :=
  {| hydraulic_properties := "van_genuchten_1980";
     moisture_content_saturation := 0.4;
     moisture_content_residual := 0.1;
     saturated_hydraulic_conductivity := 0.01;
     van_genuchten_alpha := 0.05;
     van_genuchten_n := 2;
     biomass_dry_density := 3;
     relative_permeability_model := "clement";
     yield_coefficient := 0.5;
     maximum_substrate_use_rate := 0.001;
     half_velocity_constant := 2;
     decay_rate := 0.000001 |}.

Definition empirical_sand : Parameters :=
  {| hydraulic_properties := "haverkamp_et_al_1977";
     moisture_content_saturation := 0.4;
     moisture_content_residual := 0.1;
     saturated_hydraulic_conductivity := 0.01;
     van_genuchten_alpha := 0.05;
     van_genuchten_n := 2;
     biomass_dry_density := 3;
     relative_permeability_model := "clement";
     yield_coefficient := 0.5;
     maximum_substrate_use_rate := 0.001;
     half_velocity_constant := 2;
     decay_rate := 0.000001 |}.

Definition ponded : Solutions :=
  {| solution_flow_old_iteration := [2; 1; 0];
     old_solution_flow := [2; 1; 0];
     old_solution_transport := [0.001; 0.001; 0.001];
     old_nodal_biomass_concentration := [0.0005; 0.0005; 0.0005] |}.

(** The point in the middle belongs to both cells. *)
Example count_points_of_column :
  count_points column_cells = [([-2], 1%Z); ([-1], 2%Z); ([0], 1%Z)].
Proof. reflexivity. Qed.

Lemma count_points_counts_witness :
  find (count_points column_cells) [-1] = Some 2%Z.
Proof.
  apply (count_points_counts column_cells [-1]); repeat constructor.
Defined.

Lemma missing_point_throws_witness :
  calculate_mass_balance_ratio HydraulicSpec.pow_not_called HydraulicSpec.exp_not_called
    sand true 1 [([-2], 1%Z); ([0], 1%Z)] ponded 3 column_cells = Throw (-1).
Proof.
  apply (missing_point_throws HydraulicSpec.pow_not_called HydraulicSpec.exp_not_called
           sand true 1 [([-2], 1%Z); ([0], 1%Z)] ponded 3 column_cells
           [ {| vertex_point := [-2]; dof_index := 0 |};
             {| vertex_point := [-1]; dof_index := 1 |} ]
           {| vertex_point := [-1]; dof_index := 1 |}).
  - left. reflexivity.
  - right. left. reflexivity.
  - reflexivity.
Defined.

Lemma unsupported_configuration_throws_witness :
  calculate_mass_balance_ratio HydraulicSpec.pow_not_called HydraulicSpec.exp_not_called
    empirical_sand true 1 (count_points column_cells) ponded 3 column_cells = Throw (-1).
Proof.
  apply (unsupported_configuration_throws HydraulicSpec.pow_not_called
           HydraulicSpec.exp_not_called empirical_sand true 1 (count_points column_cells)
           ponded 3 column_cells
           [ {| vertex_point := [-2]; dof_index := 0 |};
             {| vertex_point := [-1]; dof_index := 1 |} ]
           {| vertex_point := [-2]; dof_index := 0 |}).
  - left. reflexivity.
  - left. reflexivity.
  - left. discriminate.
Defined.

Lemma counted_grid_returns_witness :
  exists nodal,
    calculate_mass_balance_ratio HydraulicSpec.pow_not_called HydraulicSpec.exp_not_called
      sand false 1 (count_points column_cells) ponded 3 column_cells = Ok nodal
    /\ nodal_sizes nodal 3.
Proof.
  apply (counted_grid_returns HydraulicSpec.pow_not_called HydraulicSpec.exp_not_called
           sand false 1 ponded 3 column_cells).
  - repeat constructor.
  - reflexivity.
  - right. left. reflexivity.
Defined.

Definition dried_column : Nodal :=
  match calculate_mass_balance_ratio HydraulicSpec.pow_not_called
          HydraulicSpec.exp_not_called sand true 1 (count_points column_cells) ponded 3
          column_cells with
  | Ok nodal => nodal
  | Throw _ =>
      {| new_nodal_biomass_concentration := [];
         new_nodal_biomass_fraction := [];
         new_nodal_hydraulic_conductivity := [];
         new_nodal_total_moisture_content := [];
         new_nodal_free_moisture_content := [];
         new_nodal_specific_moisture_capacity := [] |}
  end.

Lemma drying_grows_no_biomass_witness :
  new_nodal_biomass_concentration dried_column = [0; 0; 0]
  /\ new_nodal_biomass_fraction dried_column = [0; 0; 0].
Proof.
  apply (drying_grows_no_biomass HydraulicSpec.pow_not_called HydraulicSpec.exp_not_called
           sand 1 (count_points column_cells) ponded 3 column_cells dried_column).
  reflexivity.
Defined.

End MassBalanceSpec.

(** * initial_condition *)

Module InitialConditionSpec.

Import MassBalance InitialCondition.

Section Services.

Variable pow : float -> float -> float.
Variable exp : float -> float.
Variable files : string -> option Vector.
Variable project : float -> Vector.
Variable parameters : Parameters.
Variable initial_condition_homogeneous_flow : float.
Variable initial_condition_homogeneous_transport : float.
Variable transient_drying : bool.
Variable time_step : float.
Variable repeated_points : Repeated_Points.
Variable n_dofs : nat.
Variable cells : list Active_Cell.

Lemma block_read_cases filename :
  match files filename with
  | Some v => block_read files filename = Ok v
  | None => block_read files filename = Throw 2
  end.
Proof. unfold block_read. destruct (files filename); reflexivity. Qed.

Lemma stored_state_cases name :
  match files ("state_" ++ name ++ "_pressure.ph"),
        files ("state_" ++ name ++ "_substrate.ph"),
        files ("state_" ++ name ++ "_bacteria.ph") with
  | Some pressure, Some substrate, Some bacteria =>
      exists state,
        stored_state files n_dofs name = Ok state
        /\ old_solution_flow state = pressure
        /\ solution_flow_new_iteration state = pressure
        /\ solution_flow_old_iteration state = pressure
        /\ old_solution_transport state = substrate
        /\ solution_transport state = substrate
        /\ old_nodal_biomass_concentration state = bacteria
        /\ new_nodal_biomass_concentration (new_nodal state) = bacteria
  | _, _, _ => stored_state files n_dofs name = Throw 2
  end.
Proof.
  unfold stored_state, block_read.
  destruct (files ("state_" ++ name ++ "_pressure.ph")) as [p|]; [|reflexivity].
  destruct (files ("state_" ++ name ++ "_substrate.ph")) as [s|]; [|reflexivity].
  destruct (files ("state_" ++ name ++ "_bacteria.ph")) as [b|]; [|reflexivity].
  simpl bind. eexists. split; [reflexivity|]. cbn. repeat split.
Qed.

Lemma stored_state_not_1 name : stored_state files n_dofs name <> Throw 1.
Proof.
  pose proof (stored_state_cases name) as H.
  destruct (files _) as [p|]; [|rewrite H; discriminate].
  destruct (files _) as [s|]; [|rewrite H; discriminate].
  destruct (files _) as [b|]; [|rewrite H; discriminate].
  destruct H as (state & -> & _). discriminate.
Qed.

Lemma homogeneous_state_not_1 :
  homogeneous_state pow exp project parameters initial_condition_homogeneous_flow
    initial_condition_homogeneous_transport transient_drying time_step repeated_points
    n_dofs cells <> Throw 1.
Proof.
  unfold homogeneous_state. cbv zeta.
  destruct (calculate_mass_balance_ratio _ _ _ _ _ _ _ _ _) as [nodal|code] eqn:E;
    simpl bind; [discriminate|].
  apply MassBalanceSpec.calculate_throws_minus_one in E. subst code. discriminate.
Qed.

(** [initial_condition] rejects the initial states that the constructor
    rejects, and no other. *)
Theorem initial_condition_rejects_as_constructor initial_state :
  initial_condition pow exp files project parameters initial_state
    initial_condition_homogeneous_flow initial_condition_homogeneous_transport
    transient_drying time_step repeated_points n_dofs cells = Throw 1
  <-> Run.initial_phase initial_state = Throw 1.
Proof.
  unfold initial_condition, Run.initial_phase.
  destruct (String.eqb initial_state "default"); cbn [orb].
  { split; [intros H; destruct (homogeneous_state_not_1 H)|discriminate]. }
  destruct (String.eqb initial_state "final") eqn:Ef; cbn [orb].
  { apply String.eqb_eq in Ef. subst initial_state. cbn.
    split; [intros H; destruct (stored_state_not_1 "final" H)|discriminate]. }
  destruct (String.eqb initial_state "no_drying") eqn:En; cbn [orb].
  { apply String.eqb_eq in En. subst initial_state. cbn.
    split; [intros H; destruct (homogeneous_state_not_1 H)|discriminate]. }
  destruct (String.eqb initial_state "dry").
  { split; [intros H; destruct (stored_state_not_1 "dry" H)|discriminate]. }
  destruct (String.eqb initial_state "saturated").
  { split; [intros H; destruct (stored_state_not_1 "saturated" H)|discriminate]. }
  split; reflexivity.
Qed.

(** A stored state needs its three files: with all of them the vectors are
    what the files hold, without one of them [initial_condition] throws 2. *)
Theorem stored_state_needs_three_files initial_state :
  In initial_state ["dry"; "saturated"; "final"] ->
  match files ("state_" ++ initial_state ++ "_pressure.ph"),
        files ("state_" ++ initial_state ++ "_substrate.ph"),
        files ("state_" ++ initial_state ++ "_bacteria.ph") with
  | Some pressure, Some substrate, Some bacteria =>
      exists state,
        initial_condition pow exp files project parameters initial_state
          initial_condition_homogeneous_flow initial_condition_homogeneous_transport
          transient_drying time_step repeated_points n_dofs cells = Ok state
        /\ old_solution_flow state = pressure
        /\ solution_flow_new_iteration state = pressure
        /\ solution_flow_old_iteration state = pressure
        /\ old_solution_transport state = substrate
        /\ solution_transport state = substrate
        /\ old_nodal_biomass_concentration state = bacteria
        /\ new_nodal_biomass_concentration (new_nodal state) = bacteria
  | _, _, _ =>
      initial_condition pow exp files project parameters initial_state
        initial_condition_homogeneous_flow initial_condition_homogeneous_transport
        transient_drying time_step repeated_points n_dofs cells = Throw 2
  end.
Proof.
  intros [<-|[<-|[<-|[]]]]; unfold initial_condition; cbn [String.eqb Ascii.eqb Bool.eqb orb];
    apply stored_state_cases.
Qed.

End Services.

(** The files of a dry state of which the one of the bacteria is missing. *)
Definition dry_state_files (filename : string) : option Vector :=
  if String.eqb filename "state_dry_pressure.ph" then Some [-50; -50; -50]
  else if String.eqb filename "state_dry_substrate.ph" then Some [0; 0; 0]
  else None.

Lemma stored_state_needs_three_files_witness :
  initial_condition HydraulicSpec.pow_not_called HydraulicSpec.exp_not_called
    dry_state_files (fun value => [value; value; value]) MassBalanceSpec.sand "dry"
    (-50) 1 true 1 (count_points MassBalanceSpec.column_cells) 3
    MassBalanceSpec.column_cells = Throw 2.
Proof.
  exact (stored_state_needs_three_files HydraulicSpec.pow_not_called
           HydraulicSpec.exp_not_called dry_state_files (fun value => [value; value; value])
           MassBalanceSpec.sand (-50) 1 true 1 (count_points MassBalanceSpec.column_cells) 3
           MassBalanceSpec.column_cells "dry" (or_introl eq_refl)).
Defined.

End InitialConditionSpec.

(** * The number of time steps of a run *)

Module RunLoopSpec.

Import Run RunLoop.

Local Open Scope Z_scope.









End RunLoopSpec.

(** * The effective hydraulic conductivity *)

Module ReportSpec.

Import Binary64 IEEE Report.

(** The numbers that are +0, positive or +infinity. *)
Definition SFplus (f : spec_float) : bool :=
  match f with
  | S754_zero false | S754_finite false _ _ | S754_infinity false => true
  | _ => false
  end.

Lemma SFplus_cases f : SFplus f = true ->
  f = S754_zero false \/ f = S754_infinity false
  \/ exists m e, f = S754_finite false m e.
Proof. destruct f as [[|]|[|]| |[|] m e]; simpl; try discriminate; eauto. Qed.

Lemma binary_round_plus m e : SFplus (binary_round prec emax false m e) = true.
Proof.
  destruct (binary_round_shape false m e) as [->|[->|(m2 & e2 & ->)]]; reflexivity.
Qed.

Lemma binary_round_aux_plus m e l : (0 <= m)%Z ->
  SFplus (binary_round_aux prec emax false m e l) = true.
Proof.
  intros Hm.
  destruct (binary_round_aux_shape false m e l Hm) as [->|[->|(m2 & e2 & ->)]]; reflexivity.
Qed.

Lemma SFadd_plus x y : SFplus x = true -> SFplus y = true ->
  SFplus (SFadd prec emax x y) = true.
Proof.
  intros Hx Hy.
  destruct (SFplus_cases x Hx) as [->|[->|(mx & ex & ->)]];
    destruct (SFplus_cases y Hy) as [->|[->|(my & ey & ->)]]; try reflexivity.
  unfold SFadd.
  destruct (shl_align mx ex (Z.min ex ey)) as [mx' ex'].
  destruct (shl_align my ey (Z.min ex ey)) as [my' ey'].
  cbn [fst cond_Zopp]. change (Z.pos mx' + Z.pos my')%Z with (Z.pos (mx' + my')).
  unfold binary_normalize. apply binary_round_plus.
Qed.

Lemma SFmul_plus mx ex y : SFplus y = true ->
  SFplus (SFmul prec emax (S754_finite false mx ex) y) = true.
Proof.
  intros Hy. destruct (SFplus_cases y Hy) as [->|[->|(my & ey & ->)]]; try reflexivity.
  unfold SFmul. cbn [xorb]. apply binary_round_aux_plus. lia.
Qed.

Lemma SFdiv_plus mx ex y : SFplus y = true ->
  SFplus (SFdiv prec emax (S754_finite false mx ex) y) = true.
Proof.
  intros Hy. destruct (SFplus_cases y Hy) as [->|[->|(my & ey & ->)]]; try reflexivity.
  rewrite SFdiv_finite_location. cbn [xorb].
  apply binary_round_aux_plus. apply div_quotient_nonneg.
Qed.

Definition plus (x : float) : Prop := SFplus (Prim2SF x) = true.

Lemma plus_zero : plus 0.
Proof. reflexivity. Qed.

Lemma plus_add x y : plus x -> plus y -> plus (x + y).
Proof. unfold plus. rewrite add_spec. apply SFadd_plus. Qed.

Lemma plus_double_of_uint n : plus (Run.double_of_uint n).
Proof.
  unfold plus, Run.double_of_uint. rewrite of_uint63_spec.
  pose proof (Uint63.to_Z_bounded (Uint63.of_Z n)) as [H _].
  unfold binary_normalize.
  destruct (Uint63.to_Z (Uint63.of_Z n)) as [|p|p]; [reflexivity| |lia].
  apply binary_round_plus.
Qed.

(** A positive finite number. *)
Definition positive_finite (x : float) : Prop :=
  (0 <? x) = true /\ is_infinity x = false.

Lemma positive_finite_cases x : positive_finite x ->
  exists m e, Prim2SF x = S754_finite false m e.
Proof.
  unfold positive_finite. rewrite ltb_0_l, is_infinity_Prim2SF.
  destruct (Prim2SF x) as [[|]|[|]| |[|] m e]; simpl; intros [H1 H2];
    try discriminate; eauto.
Qed.

Lemma plus_mul x y : positive_finite x -> plus y -> plus (x * y).
Proof.
  intros Hx Hy. destruct (positive_finite_cases x Hx) as (m & e & E).
  unfold plus. rewrite mul_spec, E. apply SFmul_plus. exact Hy.
Qed.

Lemma plus_inverse y : plus y -> plus (1 / y).
Proof.
  intros Hy. unfold plus. rewrite div_spec, Prim2SF_one. apply SFdiv_plus. exact Hy.
Qed.

Lemma plus_leb x : plus x -> (0 <=? x) = true.
Proof.
  unfold plus. rewrite leb_0_l.
  destruct (Prim2SF x) as [[|]|[|]| |[|] m e]; simpl; congruence.
Qed.

Lemma plus_fold n : plus n -> forall K sum,
  Forall positive_finite K -> plus sum ->
  plus (fold_left (fun s k => s + 1 / (k * n)) K sum).
Proof.
  intros Hn K sum HK. revert sum.
  induction HK as [|k K Hk HK IH]; intros sum Hs; simpl; [exact Hs|].
  apply IH. apply plus_add; [exact Hs|]. apply plus_inverse.
  apply plus_mul; assumption.
Qed.

(** With positive, finite nodal conductivities the effective conductivity
    that is reported is a number and is not negative. *)
Theorem effective_conductivity_not_negative hp K :
  Forall positive_finite K ->
  exists k_eff,
    nth_error (average_hydraulic_conductivity_vector_row hp K) 2 = Some k_eff
    /\ k_eff = 1 / inverse_conductivity_sum K
    /\ is_nan k_eff = false /\ (0 <=? k_eff) = true.
Proof.
  intros HK. eexists. split; [reflexivity|]. split; [reflexivity|].
  assert (H : plus (1 / inverse_conductivity_sum K)).
  { apply plus_inverse. unfold inverse_conductivity_sum.
    apply plus_fold; [apply plus_double_of_uint|exact HK|apply plus_zero]. }
  pose proof (plus_leb _ H) as Hle. split; [|exact Hle].
  apply (leb_is_nan_r _ _ Hle).
Qed.

Lemma effective_conductivity_not_negative_witness :
  exists k_eff,
    nth_error (average_hydraulic_conductivity_vector_row RunSpec.drying_column
                 [0.01; 0.02; 0.04]) 2 = Some k_eff
    /\ k_eff = 1 / inverse_conductivity_sum [0.01; 0.02; 0.04]
    /\ is_nan k_eff = false /\ (0 <=? k_eff) = true.
Proof.
  apply (effective_conductivity_not_negative RunSpec.drying_column [0.01; 0.02; 0.04]).
  repeat constructor.
Defined.

End ReportSpec.
